(** * Cabana video widget: timeline slider, alert overlay and playback controls

    A shallow embedding of [tools/cabana/videowidget.cc] and
    [tools/cabana/videowidget.h].  C++ scalars are modelled with their
    machine behaviour ([int] and [uint64_t] as integers with explicit
    range checks and wrap-around, [double] and [float] as IEEE 754 binary
    floating point through the standard library's executable
    specification), containers as finite maps, and the widget objects as
    records threaded through the member functions.  The stream object
    [can] is an argument holding what the widget reads from it, and the
    calls made on it are collected as effects.  Assertions are taken as
    compiled in.  A text of the log (capnp) is its string of bytes, which
    can hold the byte 0; a [QString] made from [cStr()] is the string of
    the bytes before the first byte 0. *)

From Stdlib Require Import ZArith Lia Bool List Ascii String.
From Stdlib Require Import Floats.SpecFloat.
From stdpp Require Import base option list gmap strings pretty.

Local Open Scope Z_scope.

(** ** Outcomes of C++ code

    A member function either completes, aborts on a failed [assert], or
    runs into behaviour the language leaves undefined (a floating value
    converted to an integer type that cannot hold it, a signed overflow,
    a division by zero). *)

Inductive result (A : Type) : Type :=
| Ok (a : A)
| AssertFailed
| Undefined.
Arguments Ok {A} a.
Arguments AssertFailed {A}.
Arguments Undefined {A}.

#[global] Instance result_ret : MRet result := fun _ a => Ok a.
#[global] Instance result_bind : MBind result := fun _ _ f m =>
  match m with
  | Ok a => f a
  | AssertFailed => AssertFailed
  | Undefined => Undefined
  end.
#[global] Instance result_fmap : FMap result := fun _ _ f m =>
  match m with
  | Ok a => Ok (f a)
  | AssertFailed => AssertFailed
  | Undefined => Undefined
  end.

Definition assert (b : bool) : result unit :=
  if b then Ok tt else AssertFailed.

(** ** Machine integers *)

Module Int.
Definition min_signed : Z := - 2 ^ 31.
Definition max_signed : Z := 2 ^ 31 - 1.

Definition in_range (z : Z) : bool :=
  (min_signed <=? z) && (z <=? max_signed).

(** The result of a signed operation: the mathematical value when [int]
    can hold it, undefined otherwise. *)
Definition checked (z : Z) : result Z :=
  if in_range z then Ok z else Undefined.

Definition add (a b : Z) : result Z := checked (a + b).
Definition sub (a b : Z) : result Z := checked (a - b).
Definition mul (a b : Z) : result Z := checked (a * b).
(** C++ integer division truncates toward zero. *)
Definition div (a b : Z) : result Z :=
  if b =? 0 then Undefined else checked (Z.quot a b).

(** [std::clamp(v, lo, hi)]: undefined when [hi < lo]. *)
Definition clamp (v lo hi : Z) : result Z :=
  if hi <? lo then Undefined
  else Ok (if v <? lo then lo else if hi <? v then hi else v).
End Int.

Module UInt64.
Definition modulus : Z := 2 ^ 64.
Definition in_range (z : Z) : bool := (0 <=? z) && (z <? modulus).
Definition wrap (z : Z) : Z := z mod modulus.
(** Unsigned subtraction wraps around. *)
Definition sub (a b : Z) : Z := wrap (a - b).
End UInt64.

(** ** IEEE 754 binary floating point *)

Module Double.
Definition prec : Z := 53.
Definition emax : Z := 1024.
Definition t : Type := spec_float.

Definition of_Z (z : Z) : t := binary_normalize prec emax z 0 false.
Definition add : t -> t -> t := SFadd prec emax.
Definition sub : t -> t -> t := SFsub prec emax.
Definition mul : t -> t -> t := SFmul prec emax.
Definition div : t -> t -> t := SFdiv prec emax.
Definition ltb : t -> t -> bool := SFltb.
Definition leb : t -> t -> bool := SFleb.
Definition eqb : t -> t -> bool := SFeqb.
Definition is_nan (d : t) : bool :=
  match d with S754_nan => true | _ => false end.

(** [std::max(a, b)] is [(a < b) ? b : a]; [std::min(a, b)] is
    [(b < a) ? b : a]. *)
Definition max (a b : t) : t := if ltb a b then b else a.
Definition min (a b : t) : t := if ltb b a then b else a.

(** The integral part, rounding toward zero; none for NaN and the
    infinities. *)
Definition trunc (d : t) : option Z :=
  match d with
  | S754_zero _ => Some 0
  | S754_finite s m e => Some (cond_Zopp s (Z.shiftl (Zpos m) e))
  | S754_infinity _ | S754_nan => None
  end.

(** Conversion to [int] and to [uint64_t]: the truncated value when the
    destination type can represent it, undefined otherwise. *)
Definition to_int (d : t) : result Z :=
  match trunc d with
  | Some z => Int.checked z
  | None => Undefined
  end.
Definition to_uint64 (d : t) : result Z :=
  match trunc d with
  | Some z => if UInt64.in_range z then Ok z else Undefined
  | None => Undefined
  end.

Definition zero : t := of_Z 0.
Definition one : t := of_Z 1.
Definition two : t := of_Z 2.
(** The literals [0.1] and [0.5]: the doubles nearest to 1/10 and 1/2. *)
Definition lit_0_1 : t := div (of_Z 1) (of_Z 10).
Definition lit_0_5 : t := div (of_Z 1) (of_Z 2).
Definition lit_1e8 : t := of_Z 100000000.
Definition lit_1e9 : t := of_Z 1000000000.
End Double.

Module Float.
Definition prec : Z := 24.
Definition emax : Z := 128.
Definition t : Type := spec_float.

(** Narrowing [double] to [float] rounds to nearest even; widening is
    exact and only renormalises the mantissa. *)
Definition of_double (d : Double.t) : t :=
  match d with
  | S754_finite s m e => binary_round prec emax s m e
  | _ => d
  end.
Definition to_double (f : t) : Double.t :=
  match f with
  | S754_finite s m e => binary_round Double.prec Double.emax s m e
  | _ => f
  end.
End Float.

(** ** Log events

    The events of a loaded qlog as the log reader hands them over: the
    monotonic time of the event and, for the two kinds the slider looks
    at, the fields it reads. *)

Inductive AlertStatus := NORMAL | USER_PROMPT | CRITICAL.
Inductive AlertSize := NONE | SMALL | MID | FULL.

#[global] Instance AlertStatus_eq_dec : EqDecision AlertStatus.
Proof. solve_decision. Defined.
#[global] Instance AlertSize_eq_dec : EqDecision AlertSize.
Proof. solve_decision. Defined.

Record ControlsState := {
  getAlertType : string;
  getAlertText1 : string;
  getAlertText2 : string;
  getAlertSize : AlertSize;
  getAlertStatus : AlertStatus;
}.

Record ThumbnailData := {
  getTimestampEof : Z;
  getThumbnail : list Byte.byte;
}.

Inductive Which :=
| THUMBNAIL (thumb : ThumbnailData)
| CONTROLS_STATE (cs : ControlsState)
| OTHER_EVENT.

Record LogEvent := {
  mono_time : Z;
  which : Which;
}.

Record LogReader := {
  events : list LogEvent;
}.

(** ** Toolkit values *)

(** A colour: the three channels and the opacity, as [setAlphaF] takes
    it (1 is opaque). *)
Record QColor := { red : Z; green : Z; blue : Z; alphaF : Double.t }.

(** [QColor(r, g, b)] is opaque. *)
Definition QColor_rgb (r g b : Z) : QColor :=
  {| red := r; green := g; blue := b; alphaF := Double.one |}.

Definition QColor_setAlphaF (c : QColor) (a : Double.t) : QColor :=
  {| red := red c; green := green c; blue := blue c; alphaF := a |}.
Record QPoint := { px : Z; py : Z }.
Record QSize := { size_w : Z; size_h : Z }.

(** [QRect] stores its corners; [right = left + width - 1]. *)
Record QRect := { x1 : Z; y1 : Z; x2 : Z; y2 : Z }.

Definition QRect_adjusted (r : QRect) (dx1 dy1 dx2 dy2 : Z) : QRect :=
  {| x1 := x1 r + dx1; y1 := y1 r + dy1; x2 := x2 r + dx2; y2 := y2 r + dy2 |}.
Definition QRect_setLeft (r : QRect) (v : Z) : QRect :=
  {| x1 := v; y1 := y1 r; x2 := x2 r; y2 := y2 r |}.
Definition QRect_setRight (r : QRect) (v : Z) : QRect :=
  {| x1 := x1 r; y1 := y1 r; x2 := v; y2 := y2 r |}.

Record Image := {
  img_width : Z;
  img_height : Z;
  img_bits : list Byte.byte;
}.

(** A pixmap is null or holds an image. *)
Inductive QPixmap :=
| NullPixmap
| Pixmap (img : Image).

Definition QPixmap_isNull (pm : QPixmap) : bool :=
  match pm with NullPixmap => true | Pixmap _ => false end.
Definition QPixmap_width (pm : QPixmap) : Z :=
  match pm with NullPixmap => 0 | Pixmap i => img_width i end.
Definition QPixmap_height (pm : QPixmap) : Z :=
  match pm with NullPixmap => 0 | Pixmap i => img_height i end.
Definition QPixmap_size (pm : QPixmap) : QSize :=
  {| size_w := QPixmap_width pm; size_h := QPixmap_height pm |}.

Definition QString_isEmpty (s : string) : bool :=
  match s with EmptyString => true | String _ _ => false end.

(** [capnp::Text::Reader::cStr()] read as a C string, which is how the
    constructor of [QString] reads it: the bytes before the first byte 0. *)
Fixpoint cStr (s : string) : string :=
  match s with
  | EmptyString => EmptyString
  | String c s' => if Ascii.eqb c Ascii.zero then EmptyString else String c (cStr s')
  end.

Inductive MouseButton := NoButton | LeftButton | RightButton | MiddleButton.
#[global] Instance MouseButton_eq_dec : EqDecision MouseButton.
Proof. solve_decision. Defined.

Record QMouseEvent := {
  ev_x : Z;
  ev_y : Z;
  ev_button : MouseButton;
}.

Inductive QEventType :=
| WindowActivate | WindowDeactivate | FocusIn | FocusOut | Leave | OtherEventType.

(** ** videowidget.h *)

Record AlertInfo := {
  status : AlertStatus;
  text1 : string;
  text2 : string;
}.

(** [AlertInfo{}]: value-initialised status and null strings. *)
Definition AlertInfo_default : AlertInfo :=
  {| status := NORMAL; text1 := ""; text2 := "" |}.

Record InfoLabel := {
  pixmap : QPixmap;
  second : string;
  alert_info : AlertInfo;
  label_visible : bool;
  label_pos : QPoint;
  label_size : QSize;
}.

(** The [QSlider] part of the slider object. *)
Record QSlider := {
  minimum : Z;
  maximum : Z;
  value : Z;
  isSliderDown : bool;
  singleStep : Z;
  hasMouseTracking : bool;
  geom_pos : QPoint;
  width : Z;
  height : Z;
}.

(** Signals of the slider.  A slot connected directly runs at the
    emission and reads the slider through [slider->currentSecond()]; an
    emitted signal is recorded with the slider value of that moment, which
    is all the slot reads. *)
Inductive Signal :=
| valueChanged (v : Z)
| sliderReleased (v : Z)
| updateMaximumTime (sec : Double.t).

(** The signals of the base class [QSlider] the widget has connected.  An
    event handler of the base class says which of them it emits; it emits
    them after it has changed the slider ([QAbstractSlider::setValue]
    stores the value and [setSliderDown] the flag before they emit), so
    the slots see the slider as the handler leaves it. *)
Inductive QSignal := QValueChanged | QSliderReleased.
#[global] Instance QSignal_eq_dec : EqDecision QSignal.
Proof. solve_decision. Defined.

Definition emitted_at (q : QSlider) (sg : QSignal) : Signal :=
  match sg with
  | QValueChanged => valueChanged (value q)
  | QSliderReleased => sliderReleased (value q)
  end.

Record Slider := {
  qslider : QSlider;
  thumbnails : gmap Z QPixmap;
  alerts : gmap Z AlertInfo;
  thumbnail_label : InfoLabel;
}.

Definition factor : Double.t := Double.of_Z 1000.

Inductive TimelineType :=
| TL_None | TL_Engaged | TL_AlertInfo | TL_AlertWarning | TL_AlertCritical | TL_UserFlag.

(** The stream object [can] as the widget observes it. *)
Record AbstractStream := {
  liveStreaming : bool;
  isPaused : bool;
  currentSec : Double.t;
  totalSeconds : Double.t;
  routeStartTime : Double.t;
  getTimeline : list (Double.t * Double.t * TimelineType);
  (** keys of [route()->segments()], ascending *)
  segments : list Z;
}.

(** The calls the widget makes on the stream. *)
Inductive StreamCall :=
| pause (b : bool)
| seekTo (sec : Double.t)
| setSpeed (speed : Float.t).

Record QToolButton := {
  btn_text : string;
  btn_icon : string;
  btn_toolTip : string;
  btn_checkable : bool;
  btn_checked : bool;
  btn_enabled : bool;
}.

(** The widgets [createCameraWidget] creates; they exist only when the
    stream is not live. *)
Record CameraPart := {
  end_time_label : string;
  time_label : string;
  alert_label : InfoLabel;
  slider : Slider;
}.

Record VideoWidget := {
  maximum_time : Double.t;
  camera : option CameraPart;
  play_btn : QToolButton;
  skip_to_end_btn : option QToolButton;
  (** [group->buttons()], each with the speed its click handler captured *)
  speed_btns : list (QToolButton * Float.t);
  group_exclusive : bool;
}.

(** Field updates. *)

Definition QSlider_with_value (q : QSlider) (v : Z) : QSlider :=
  {| minimum := minimum q; maximum := maximum q; value := v;
     isSliderDown := isSliderDown q; singleStep := singleStep q;
     hasMouseTracking := hasMouseTracking q; geom_pos := geom_pos q;
     width := width q; height := height q |}.
Definition QSlider_with_range (q : QSlider) (lo hi : Z) : QSlider :=
  {| minimum := lo; maximum := hi; value := value q;
     isSliderDown := isSliderDown q; singleStep := singleStep q;
     hasMouseTracking := hasMouseTracking q; geom_pos := geom_pos q;
     width := width q; height := height q |}.
Definition QSlider_with_singleStep (q : QSlider) (n : Z) : QSlider :=
  {| minimum := minimum q; maximum := maximum q; value := value q;
     isSliderDown := isSliderDown q; singleStep := n;
     hasMouseTracking := hasMouseTracking q; geom_pos := geom_pos q;
     width := width q; height := height q |}.
Definition QSlider_with_mouseTracking (q : QSlider) (b : bool) : QSlider :=
  {| minimum := minimum q; maximum := maximum q; value := value q;
     isSliderDown := isSliderDown q; singleStep := singleStep q;
     hasMouseTracking := b; geom_pos := geom_pos q;
     width := width q; height := height q |}.
Definition QSlider_with_geometry (q : QSlider) (p : QPoint) (w h : Z) : QSlider :=
  {| minimum := minimum q; maximum := maximum q; value := value q;
     isSliderDown := isSliderDown q; singleStep := singleStep q;
     hasMouseTracking := hasMouseTracking q; geom_pos := p;
     width := w; height := h |}.

Definition Slider_with_qslider (s : Slider) (q : QSlider) : Slider :=
  {| qslider := q; thumbnails := thumbnails s; alerts := alerts s;
     thumbnail_label := thumbnail_label s |}.
Definition Slider_with_thumbnails (s : Slider) (t : gmap Z QPixmap) : Slider :=
  {| qslider := qslider s; thumbnails := t; alerts := alerts s;
     thumbnail_label := thumbnail_label s |}.
Definition Slider_with_alerts (s : Slider) (a : gmap Z AlertInfo) : Slider :=
  {| qslider := qslider s; thumbnails := thumbnails s; alerts := a;
     thumbnail_label := thumbnail_label s |}.
Definition Slider_with_label (s : Slider) (l : InfoLabel) : Slider :=
  {| qslider := qslider s; thumbnails := thumbnails s; alerts := alerts s;
     thumbnail_label := l |}.

Definition InfoLabel_setVisible (l : InfoLabel) (b : bool) : InfoLabel :=
  {| pixmap := pixmap l; second := second l; alert_info := alert_info l;
     label_visible := b; label_pos := label_pos l; label_size := label_size l |}.

Definition QToolButton_with_checked (b : QToolButton) (c : bool) : QToolButton :=
  {| btn_text := btn_text b; btn_icon := btn_icon b; btn_toolTip := btn_toolTip b;
     btn_checkable := btn_checkable b; btn_checked := c; btn_enabled := btn_enabled b |}.
Definition QToolButton_with_enabled (b : QToolButton) (e : bool) : QToolButton :=
  {| btn_text := btn_text b; btn_icon := btn_icon b; btn_toolTip := btn_toolTip b;
     btn_checkable := btn_checkable b; btn_checked := btn_checked b; btn_enabled := e |}.
Definition QToolButton_with_icon_toolTip (b : QToolButton) (i t : string) : QToolButton :=
  {| btn_text := btn_text b; btn_icon := i; btn_toolTip := t;
     btn_checkable := btn_checkable b; btn_checked := btn_checked b;
     btn_enabled := btn_enabled b |}.

Definition CameraPart_with_slider (c : CameraPart) (s : Slider) : CameraPart :=
  {| end_time_label := end_time_label c; time_label := time_label c;
     alert_label := alert_label c; slider := s |}.
Definition CameraPart_with_alert_label (c : CameraPart) (l : InfoLabel) : CameraPart :=
  {| end_time_label := end_time_label c; time_label := time_label c;
     alert_label := l; slider := slider c |}.
Definition CameraPart_with_end_time_label (c : CameraPart) (t : string) : CameraPart :=
  {| end_time_label := t; time_label := time_label c;
     alert_label := alert_label c; slider := slider c |}.
Definition CameraPart_with_time_label (c : CameraPart) (t : string) : CameraPart :=
  {| end_time_label := end_time_label c; time_label := t;
     alert_label := alert_label c; slider := slider c |}.

Definition VideoWidget_with_camera (w : VideoWidget) (c : option CameraPart) : VideoWidget :=
  {| maximum_time := maximum_time w; camera := c; play_btn := play_btn w;
     skip_to_end_btn := skip_to_end_btn w; speed_btns := speed_btns w;
     group_exclusive := group_exclusive w |}.
Definition VideoWidget_with_maximum_time (w : VideoWidget) (t : Double.t) : VideoWidget :=
  {| maximum_time := t; camera := camera w; play_btn := play_btn w;
     skip_to_end_btn := skip_to_end_btn w; speed_btns := speed_btns w;
     group_exclusive := group_exclusive w |}.
Definition VideoWidget_with_play_btn (w : VideoWidget) (b : QToolButton) : VideoWidget :=
  {| maximum_time := maximum_time w; camera := camera w; play_btn := b;
     skip_to_end_btn := skip_to_end_btn w; speed_btns := speed_btns w;
     group_exclusive := group_exclusive w |}.
Definition VideoWidget_with_skip_to_end_btn (w : VideoWidget) (b : option QToolButton) : VideoWidget :=
  {| maximum_time := maximum_time w; camera := camera w; play_btn := play_btn w;
     skip_to_end_btn := b; speed_btns := speed_btns w;
     group_exclusive := group_exclusive w |}.
Definition VideoWidget_with_speed_btns (w : VideoWidget) (bs : list (QToolButton * Float.t)) : VideoWidget :=
  {| maximum_time := maximum_time w; camera := camera w; play_btn := play_btn w;
     skip_to_end_btn := skip_to_end_btn w; speed_btns := bs;
     group_exclusive := group_exclusive w |}.

(** ** The toolkit

    What the widget calls in the GUI toolkit and in cabana's utilities and
    does not define itself. *)

Class Toolkit := {
  (** [QPixmap::loadFromData(data, size, format)]: the decoded image, or
      nothing when the data cannot be loaded *)
  loadFromData : list Byte.byte -> string -> option Image;
  (** [QPixmap::scaledToHeight(h, Qt::SmoothTransformation)] *)
  scaledToHeight : Image -> Z -> QPixmap;
  (** [utils::formatSeconds] *)
  formatSeconds : Double.t -> string;
  (** the number as [QString::arg] prints it *)
  QString_arg : Double.t -> string;
  (** the event handlers of the base class [QSlider]: the slider they
      leave and the connected signals they emit *)
  QSlider_mousePressEvent : QSlider -> QMouseEvent -> QSlider * list QSignal;
  QSlider_mouseMoveEvent : QSlider -> QMouseEvent -> QSlider * list QSignal;
  QSlider_mouseReleaseEvent : QSlider -> QMouseEvent -> QSlider * list QSignal;
  QSlider_event : QSlider -> QEventType -> QSlider * list QSignal;
}.

(** [QAbstractSlider::setValue]: the value is forced into the range, and
    [valueChanged] is emitted when it changes. *)
Definition QSlider_setValue (q : QSlider) (v : Z) : QSlider * list Signal :=
  let v' := Z.max (minimum q) (Z.min (maximum q) v) in
  if v' =? value q then (q, []) else (QSlider_with_value q v', [valueChanged v']).

(** [QAbstractSlider::setRange]: when [max < min], [min] is the only legal
    value; the value is forced into the new range. *)
Definition QSlider_setRange (q : QSlider) (lo hi : Z) : QSlider * list Signal :=
  let q' := QSlider_with_range q lo (Z.max lo hi) in
  if (lo =? minimum q) && (Z.max lo hi =? maximum q) then (q', [])
  else QSlider_setValue q' (value q').

(** [QWidget::rect()] and [QWidget::mapToParent]. *)
Definition QSlider_rect (q : QSlider) : QRect :=
  {| x1 := 0; y1 := 0; x2 := width q - 1; y2 := height q - 1 |}.
Definition QSlider_mapToParent (q : QSlider) (p : QPoint) : QPoint :=
  {| px := px p + px (geom_pos q); py := py p + py (geom_pos q) |}.

Definition MIN_VIDEO_HEIGHT : Z := 100.
Definition THUMBNAIL_MARGIN : Z := 3.

Definition timeline_colors (t : TimelineType) : QColor :=
  match t with
  | TL_None => QColor_rgb 111 143 175
  | TL_Engaged => QColor_rgb 0 163 108
  | TL_UserFlag => QColor_rgb 255 0 255
  | TL_AlertInfo => QColor_rgb 0 255 0
  | TL_AlertWarning => QColor_rgb 255 195 0
  | TL_AlertCritical => QColor_rgb 199 0 57
  end.

(** ** Ordered maps

    [std::map::lower_bound] and [QMap::lowerBound]: the entry with the
    least key that is not less than [x], or nothing (the [end()]
    iterator). *)

Definition lower_bound_step {V} (x : Z) (k : Z) (v : V) (acc : option (Z * V))
  : option (Z * V) :=
  if bool_decide (x ≤ k) then
    match acc with
    | Some (k', _) => if bool_decide (k < k') then Some (k, v) else acc
    | None => Some (k, v)
    end
  else acc.

Definition lower_bound {V} (m : gmap Z V) (x : Z) : option (Z * V) :=
  map_fold (lower_bound_step x) None m.

(** [std::map::emplace]: nothing is stored when the key is present. *)
Definition emplace {V} (k : Z) (v : V) (m : gmap Z V) : gmap Z V :=
  match m !! k with
  | Some _ => m
  | None => <[k := v]> m
  end.

(** ** InfoLabel *)

Definition InfoLabel_new : InfoLabel :=
  {| pixmap := NullPixmap; second := ""; alert_info := AlertInfo_default;
     label_visible := false; label_pos := {| px := 0; py := 0 |};
     label_size := {| size_w := 0; size_h := 0 |} |}.

Definition InfoLabel_showPixmap (l : InfoLabel) (pt : QPoint) (sec : string)
    (pm : QPixmap) (alert : AlertInfo) : InfoLabel :=
  {| second := sec; pixmap := pm; alert_info := alert;
     label_size := QPixmap_size pm; label_pos := pt; label_visible := true |}.

Definition InfoLabel_showAlert (l : InfoLabel) (alert : AlertInfo) : InfoLabel :=
  {| alert_info := alert; pixmap := NullPixmap;
     label_visible := negb (QString_isEmpty (text1 alert));
     second := second l; label_pos := label_pos l; label_size := label_size l |}.

Definition InfoLabel_hide (l : InfoLabel) : InfoLabel :=
  InfoLabel_setVisible l false.

Inductive LabelPaintOp :=
| DrawPixmap (pm : QPixmap)
| DrawFrame
| DrawSecond (sec : string)
| FillTextBackground (c : QColor)
| DrawAlertText (text : string) (small_font : bool).

Definition newline : string := String (ascii_of_nat 10) "".

Definition InfoLabel_paintEvent (l : InfoLabel) : list LabelPaintOp :=
  (if negb (QPixmap_isNull (pixmap l))
   then [DrawPixmap (pixmap l); DrawFrame; DrawSecond (second l)]
   else []) ++
  (if 0 <? Z.of_nat (String.length (text1 (alert_info l)))
   then
     let color :=
       if decide (status (alert_info l) = USER_PROMPT) then timeline_colors TL_AlertWarning
       else if decide (status (alert_info l) = CRITICAL) then timeline_colors TL_AlertCritical
       else timeline_colors TL_AlertInfo in
     let text :=
       if negb (QString_isEmpty (text2 (alert_info l)))
       then (text1 (alert_info l) ++ newline ++ text2 (alert_info l))%string
       else text1 (alert_info l) in
     [FillTextBackground (QColor_setAlphaF color Double.lit_0_5);
      DrawAlertText text (negb (QPixmap_isNull (pixmap l)))]
   else []).

(** ** Slider *)

Inductive PaintOp :=
| FillRect (r : QRect) (c : QColor)
| DrawSliderHandle (lo hi pos : Z).

Section Widget.
Context {tk : Toolkit}.

Definition Slider_new : Slider :=
  {| qslider := {| minimum := 0; maximum := 99; value := 0; isSliderDown := false;
                   singleStep := 1; hasMouseTracking := true;
                   geom_pos := {| px := 0; py := 0 |}; width := 100; height := 30 |};
     thumbnails := ∅; alerts := ∅; thumbnail_label := InfoLabel_new |}.

Definition Slider_currentSecond (s : Slider) : Double.t :=
  Double.div (Double.of_Z (value (qslider s))) factor.

Definition Slider_setCurrentSecond (s : Slider) (sec : Double.t)
  : result (Slider * list Signal) :=
  v ← Double.to_int (Double.mul sec factor);
  let '(q, sg) := QSlider_setValue (qslider s) v in
  Ok (Slider_with_qslider s q, sg).

(** [uint64_t mono_time = (seconds + can->routeStartTime()) * 1e9] *)
Definition mono_time_of (can : AbstractStream) (seconds : Double.t) : result Z :=
  Double.to_uint64 (Double.mul (Double.add seconds (routeStartTime can)) Double.lit_1e9).

Definition Slider_alertInfo (can : AbstractStream) (s : Slider) (seconds : Double.t)
  : result AlertInfo :=
  mono ← mono_time_of can seconds;
  let alert_it := lower_bound (alerts s) mono in
  let has_alert :=
    match alert_it with
    | Some (k, _) => Double.leb (Double.of_Z (UInt64.sub k mono)) Double.lit_1e8
    | None => false
    end in
  Ok (match alert_it with
      | Some (_, a) => if has_alert then a else AlertInfo_default
      | None => AlertInfo_default
      end).

Definition Slider_thumbnail (can : AbstractStream) (s : Slider) (seconds : Double.t)
  : result QPixmap :=
  mono ← mono_time_of can seconds;
  Ok (match lower_bound (thumbnails s) mono with
      | Some (_, pm) => pm
      | None => NullPixmap
      end).

Definition Slider_setTimeRange (s : Slider) (min max : Double.t)
  : result (Slider * list Signal) :=
  _ ← assert (Double.ltb min max);
  lo ← Double.to_int (Double.mul min factor);
  hi ← Double.to_int (Double.mul max factor);
  let '(q, sg) := QSlider_setRange (qslider s) lo hi in
  Ok (Slider_with_qslider s q, sg).

(** The body of the lambda [parseQLog] maps over the events.  The test
    reads the sizes of the log's texts; the [AlertInfo] holds them as
    [cStr()] gives them. *)
Definition parseQLog_event (s : Slider) (e : LogEvent) : Slider :=
  match which e with
  | THUMBNAIL thumb =>
      match loadFromData (getThumbnail thumb) "jpeg" with
      | Some pm =>
          let scaled := scaledToHeight pm (MIN_VIDEO_HEIGHT - THUMBNAIL_MARGIN * 2) in
          Slider_with_thumbnails s (<[getTimestampEof thumb := scaled]> (thumbnails s))
      | None => s
      end
  | CONTROLS_STATE cs =>
      if (0 <? Z.of_nat (String.length (getAlertType cs)))
         && (0 <? Z.of_nat (String.length (getAlertText1 cs)))
         && negb (bool_decide (getAlertSize cs = NONE))
      then Slider_with_alerts s
             (emplace (mono_time e)
                {| status := getAlertStatus cs; text1 := cStr (getAlertText1 cs);
                   text2 := cStr (getAlertText2 cs) |}
                (alerts s))
      else s
  | OTHER_EVENT => s
  end.

(** [QtConcurrent::blockingMap] runs the lambda on every event, the map
    updates under a mutex, in an order the scheduler picks: [schedule] is
    that order, an arrangement of [qlog->events]. *)
Definition Slider_parseQLog (can : AbstractStream) (s : Slider) (segnum : Z)
    (qlog : LogReader) (schedule : list LogEvent) : Slider * list Signal :=
  let sg :=
    match last (segments can), last (events qlog) with
    | Some last_seg, Some back =>
        if segnum =? last_seg
        then [updateMaximumTime
                (Double.sub (Double.div (Double.of_Z (mono_time back)) Double.lit_1e9)
                            (routeStartTime can))]
        else []
    | _, _ => []
    end in
  (foldl parseQLog_event s schedule, sg).

(** One turn of the loop over the timeline in [paintEvent]; [r] is the
    rectangle the loop keeps overwriting. *)
Definition paint_segment (min max : Double.t) (w : Z) (st : QRect * list PaintOp)
    (seg : Double.t * Double.t * TimelineType) : result (QRect * list PaintOp) :=
  let '(begin_, end_, type) := seg in
  let '(r, ops) := st in
  if Double.ltb max begin_ || Double.ltb end_ min then Ok (r, ops)
  else
    l ← Double.to_int
          (Double.mul (Double.div (Double.sub (Double.max min begin_) min)
                                  (Double.sub max min))
                      (Double.of_Z w));
    let r := QRect_setLeft r l in
    rt ← Double.to_int
           (Double.mul (Double.div (Double.sub (Double.min max end_) min)
                                   (Double.sub max min))
                       (Double.of_Z w));
    let r := QRect_setRight r rt in
    Ok (r, ops ++ [FillRect r (timeline_colors type)]).

Fixpoint paint_timeline (min max : Double.t) (w : Z) (st : QRect * list PaintOp)
    (tl : list (Double.t * Double.t * TimelineType)) : result (QRect * list PaintOp) :=
  match tl with
  | [] => Ok st
  | seg :: tl' =>
      st' ← paint_segment min max w st seg;
      paint_timeline min max w st' tl'
  end.

Definition Slider_paintEvent (can : AbstractStream) (s : Slider) : result (list PaintOp) :=
  let q := qslider s in
  let r := QRect_adjusted (QSlider_rect q) 0 4 0 (-4) in
  let ops := [FillRect r (timeline_colors TL_None)] in
  let min := Double.div (Double.of_Z (minimum q)) factor in
  let max := Double.div (Double.of_Z (maximum q)) factor in
  '(_, ops) ← paint_timeline min max (width q) (r, ops) (getTimeline can);
  Ok (ops ++ [DrawSliderHandle (minimum q) (maximum q) (value q)]).

Definition Slider_mousePressEvent (s : Slider) (e : QMouseEvent)
  : result (Slider * list Signal) :=
  let '(q, sg0) := QSlider_mousePressEvent (qslider s) e in
  if bool_decide (ev_button e = LeftButton) && negb (isSliderDown q) then
    d ← Int.sub (maximum q) (minimum q);
    p ← Int.mul d (ev_x e);
    quo ← Int.div p (width q);
    v ← Int.add (minimum q) quo;
    let '(q', sg1) := QSlider_setValue q v in
    Ok (Slider_with_qslider s q',
        (emitted_at q <$> sg0) ++ sg1 ++ [sliderReleased (value q')])
  else Ok (Slider_with_qslider s q, emitted_at q <$> sg0).

(** [double seconds = (minimum() + pos * ((maximum() - minimum()) / (double)width())) / factor] *)
Definition hover_seconds (q : QSlider) (pos : Z) : result Double.t :=
  d ← Int.sub (maximum q) (minimum q);
  Ok (Double.div
        (Double.add (Double.of_Z (minimum q))
           (Double.mul (Double.of_Z pos)
              (Double.div (Double.of_Z d) (Double.of_Z (width q)))))
        factor).

(** Where the preview goes, in the slider's coordinates:
    [x = std::clamp(pos - thumb.width() / 2, THUMBNAIL_MARGIN,
                    rect().right() - thumb.width() - THUMBNAIL_MARGIN)] and
    [y = -thumb.height()]. *)
Definition preview_point (q : QSlider) (pos : Z) (thumb : QPixmap) : result QPoint :=
  half ← Int.div (QPixmap_width thumb) 2;
  v ← Int.sub pos half;
  hi0 ← Int.sub (x2 (QSlider_rect q)) (QPixmap_width thumb);
  hi ← Int.sub hi0 THUMBNAIL_MARGIN;
  x ← Int.clamp v THUMBNAIL_MARGIN hi;
  y ← Int.sub 0 (QPixmap_height thumb);
  Ok {| px := x; py := y |}.

Definition Slider_mouseMoveEvent (can : AbstractStream) (s : Slider) (e : QMouseEvent)
  : result (Slider * list Signal) :=
  let q := qslider s in
  pos ← Int.clamp (ev_x e) 0 (width q);
  seconds ← hover_seconds q pos;
  thumb ← Slider_thumbnail can s seconds;
  lbl ←
    (if negb (QPixmap_isNull thumb) then
       pt ← preview_point q pos thumb;
       alert ← Slider_alertInfo can s seconds;
       Ok (InfoLabel_showPixmap (thumbnail_label s) (QSlider_mapToParent q pt)
             (formatSeconds seconds) thumb alert)
     else Ok (InfoLabel_hide (thumbnail_label s)));
  let '(q', sg) := QSlider_mouseMoveEvent q e in
  Ok (Slider_with_qslider (Slider_with_label s lbl) q', emitted_at q' <$> sg).

Definition Slider_event (s : Slider) (ty : QEventType) : Slider * list Signal :=
  let s :=
    match ty with
    | WindowActivate | WindowDeactivate | FocusIn | FocusOut | Leave =>
        Slider_with_label s (InfoLabel_hide (thumbnail_label s))
    | OtherEventType => s
    end in
  let '(q, sg) := QSlider_event (qslider s) ty in
  (Slider_with_qslider s q, emitted_at q <$> sg).

End Widget.

(** ** VideoWidget *)

(** What a member function of the widget hands to the outside: a call on
    the stream, or a queued invocation of [setMaximumTime] (the
    [updateMaximumTime] connection is a [Qt::QueuedConnection]). *)
Inductive Effect :=
| Call (c : StreamCall)
| QueuedSetMaximumTime (sec : Double.t).

Inductive Event :=
| PlayBtnClicked
| CameraClicked
| SkipToEndClicked
| SpeedBtnClicked (i : nat)
| StreamPaused
| StreamResume
| SettingsChanged
| StreamUpdated
| QLogLoaded (segnum : Z) (qlog : LogReader) (schedule : list LogEvent)
| MaximumTimeDelivered (sec : Double.t)
| TimeRangeUpdated (min max : Double.t) (is_zoomed : bool)
| SliderMousePress (e : QMouseEvent)
| SliderMouseMove (e : QMouseEvent)
| SliderMouseRelease (e : QMouseEvent)
| SliderEvent (ty : QEventType)
| SliderResized (p : QPoint) (w h : Z).

(** Exclusive button groups: checking a button unchecks the others, and a
    click cannot uncheck the checked button. *)
Definition group_check (exclusive : bool) (i : nat) (bs : list (QToolButton * Float.t))
  : list (QToolButton * Float.t) :=
  imap (fun j b =>
          if Nat.eqb j i then (QToolButton_with_checked b.1 true, b.2)
          else if exclusive then (QToolButton_with_checked b.1 false, b.2)
          else b) bs.

Definition group_click (exclusive : bool) (i : nat) (bs : list (QToolButton * Float.t))
  : list (QToolButton * Float.t) :=
  match bs !! i with
  | Some (b, _) =>
      if btn_checkable b then
        if btn_checked b then
          if exclusive then bs
          else imap (fun j b => if Nat.eqb j i
                                then (QToolButton_with_checked b.1 false, b.2) else b) bs
        else group_check exclusive i bs
      else bs
  | None => bs
  end.

(** [for (float speed : {0.1, 0.5, 1., 2.})] *)
Definition speeds : list Float.t :=
  map Float.of_double [Double.lit_0_1; Double.lit_0_5; Double.one; Double.two].

Section VideoWidget.
Context {tk : Toolkit}.

(** The slots [createCameraWidget] connects to the slider's signals. *)
Definition deliver (st : CameraPart * list Effect) (sg : Signal) : CameraPart * list Effect :=
  let '(c, eff) := st in
  match sg with
  | valueChanged v =>
      (CameraPart_with_time_label c (formatSeconds (Double.div (Double.of_Z v) factor)), eff)
  | sliderReleased v =>
      (c, eff ++ [Call (seekTo (Double.div (Double.of_Z v) factor))])
  | updateMaximumTime sec =>
      (c, eff ++ [QueuedSetMaximumTime sec])
  end.

Definition deliver_all (c : CameraPart) (sgs : list Signal) : CameraPart * list Effect :=
  foldl deliver (c, []) sgs.

(** [setMaximumTime] with the signals the slider emits meanwhile. *)
Definition VideoWidget_setMaximumTime_signals (w : VideoWidget) (sec : Double.t)
  : result (VideoWidget * list Signal) :=
  let w := VideoWidget_with_maximum_time w sec in
  match camera w with
  | None => Undefined
  | Some c =>
      let c := CameraPart_with_end_time_label c (formatSeconds sec) in
      '(s, sg) ← Slider_setTimeRange (slider c) Double.zero sec;
      Ok (VideoWidget_with_camera w (Some (CameraPart_with_slider c s)), sg)
  end.

Definition with_delivery (r : result (VideoWidget * list Signal))
  : result (VideoWidget * list Effect) :=
  '(w, sg) ← r;
  match camera w with
  | None => Ok (w, [])
  | Some c =>
      let '(c, eff) := deliver_all c sg in
      Ok (VideoWidget_with_camera w (Some c), eff)
  end.

Definition VideoWidget_setMaximumTime (w : VideoWidget) (sec : Double.t)
  : result (VideoWidget * list Effect) :=
  with_delivery (VideoWidget_setMaximumTime_signals w sec).

Definition VideoWidget_updateTimeRange (can : AbstractStream) (w : VideoWidget)
    (min max : Double.t) (is_zoomed : bool) : result (VideoWidget * list Effect) :=
  if liveStreaming can then
    match skip_to_end_btn w with
    | None => Undefined
    | Some b =>
        Ok (VideoWidget_with_skip_to_end_btn w
              (Some (QToolButton_with_enabled b (negb is_zoomed))), [])
    end
  else
    let min := if negb is_zoomed then Double.zero else min in
    let max := if negb is_zoomed then maximum_time w else max in
    match camera w with
    | None => Undefined
    | Some c =>
        let c := CameraPart_with_end_time_label c (formatSeconds max) in
        with_delivery
          ('(s, sg) ← Slider_setTimeRange (slider c) min max;
           Ok (VideoWidget_with_camera w (Some (CameraPart_with_slider c s)), sg))
    end.

Definition VideoWidget_updateState (can : AbstractStream) (w : VideoWidget)
  : result (VideoWidget * list Effect) :=
  match camera w with
  | None => Undefined
  | Some c =>
      '(s, sg) ← (if negb (isSliderDown (qslider (slider c)))
                  then Slider_setCurrentSecond (slider c) (currentSec can)
                  else Ok (slider c, []));
      let '(c, eff) := deliver_all (CameraPart_with_slider c s) sg in
      alert ← Slider_alertInfo can (slider c) (currentSec can);
      let c := CameraPart_with_alert_label c (InfoLabel_showAlert (alert_label c) alert) in
      Ok (VideoWidget_with_camera w (Some c), eff)
  end.

Definition VideoWidget_updatePlayBtnState (can : AbstractStream) (w : VideoWidget)
  : VideoWidget :=
  VideoWidget_with_play_btn w
    (QToolButton_with_icon_toolTip (play_btn w)
       (if isPaused can then "play" else "pause")
       (if isPaused can then "Play" else "Pause")).

Definition new_button : QToolButton :=
  {| btn_text := ""; btn_icon := ""; btn_toolTip := ""; btn_checkable := false;
     btn_checked := false; btn_enabled := true |}.

Definition createCameraWidget (can : AbstractStream) (w : VideoWidget) : result VideoWidget :=
  let s := Slider_with_qslider Slider_new (QSlider_with_singleStep (qslider Slider_new) 0) in
  let c := {| end_time_label := ""; time_label := "00:00";
              alert_label := InfoLabel_new; slider := s |} in
  (* no slot is connected yet when the first range is set *)
  '(w, _) ← VideoWidget_setMaximumTime_signals (VideoWidget_with_camera w (Some c))
              (totalSeconds can);
  Ok w.

(** One turn of the loop that creates the speed buttons. *)
Definition add_speed_btn (exclusive : bool) (bs : list (QToolButton * Float.t))
    (speed : Float.t) : list (QToolButton * Float.t) :=
  let btn := {| btn_text := (QString_arg (Float.to_double speed) ++ "x")%string;
                btn_icon := ""; btn_toolTip := ""; btn_checkable := true;
                btn_checked := false; btn_enabled := true |} in
  let bs := bs ++ [(btn, speed)] in
  if Double.eqb (Float.to_double speed) Double.one
  then group_check exclusive (length bs - 1)%nat bs
  else bs.

Definition VideoWidget_new (can : AbstractStream) : result VideoWidget :=
  let w := {| maximum_time := Double.zero; camera := None; play_btn := new_button;
              skip_to_end_btn := None; speed_btns := []; group_exclusive := true |} in
  w ← (if negb (liveStreaming can) then createCameraWidget can w else Ok w);
  let w :=
    if liveStreaming can then
      VideoWidget_with_skip_to_end_btn w
        (Some {| btn_text := ""; btn_icon := "skip-end-fill";
                 btn_toolTip := "Skip to the end"; btn_checkable := false;
                 btn_checked := false; btn_enabled := true |})
    else w in
  let w := VideoWidget_with_speed_btns w
             (foldl (add_speed_btn (group_exclusive w)) [] speeds) in
  Ok (VideoWidget_updatePlayBtnState can w).

(** A click on the [i]-th speed button: the group updates the check marks
    and the button's handler runs. *)
Definition click_speed_btn (w : VideoWidget) (i : nat) : VideoWidget * list Effect :=
  match speed_btns w !! i with
  | Some (_, speed) =>
      (VideoWidget_with_speed_btns w (group_click (group_exclusive w) i (speed_btns w)),
       [Call (setSpeed speed)])
  | None => (w, [])
  end.

Definition on_slider (w : VideoWidget)
    (f : Slider -> result (Slider * list Signal)) : result (VideoWidget * list Effect) :=
  match camera w with
  | None => Ok (w, [])
  | Some c =>
      '(s, sg) ← f (slider c);
      let '(c, eff) := deliver_all (CameraPart_with_slider c s) sg in
      Ok (VideoWidget_with_camera w (Some c), eff)
  end.

(** The widget's reaction to an event, following the connections made in
    the constructor and in [createCameraWidget]. *)
Definition handle (can : AbstractStream) (w : VideoWidget) (ev : Event)
  : result (VideoWidget * list Effect) :=
  match ev with
  | PlayBtnClicked => Ok (w, [Call (pause (negb (isPaused can)))])
  | CameraClicked =>
      match camera w with
      | Some _ => Ok (w, [Call (pause (negb (isPaused can)))])
      | None => Ok (w, [])
      end
  | SkipToEndClicked =>
      (* a disabled button emits no [clicked] *)
      match skip_to_end_btn w with
      | Some b =>
          if btn_enabled b then
            let '(w, eff) := click_speed_btn w 2 in
            Ok (w, eff ++ [Call (pause false);
                           Call (seekTo (Double.add (totalSeconds can) Double.one))])
          else Ok (w, [])
      | None => Ok (w, [])
      end
  | SpeedBtnClicked i => Ok (click_speed_btn w i)
  | StreamPaused | StreamResume | SettingsChanged =>
      Ok (VideoWidget_updatePlayBtnState can w, [])
  | StreamUpdated =>
      match camera w with
      | Some _ => VideoWidget_updateState can w
      | None => Ok (w, [])
      end
  | QLogLoaded segnum qlog schedule =>
      on_slider w (fun s => Ok (Slider_parseQLog can s segnum qlog schedule))
  | MaximumTimeDelivered sec =>
      match camera w with
      | Some _ => VideoWidget_setMaximumTime w sec
      | None => Ok (w, [])
      end
  | TimeRangeUpdated min max is_zoomed => VideoWidget_updateTimeRange can w min max is_zoomed
  | SliderMousePress e => on_slider w (fun s => Slider_mousePressEvent s e)
  | SliderMouseMove e => on_slider w (fun s => Slider_mouseMoveEvent can s e)
  | SliderMouseRelease e =>
      on_slider w (fun s => let '(q, sg) := QSlider_mouseReleaseEvent (qslider s) e in
                            Ok (Slider_with_qslider s q, emitted_at q <$> sg))
  | SliderEvent ty => on_slider w (fun s => Ok (Slider_event s ty))
  | SliderResized p wd ht =>
      on_slider w (fun s => Ok (Slider_with_qslider s
                                  (QSlider_with_geometry (qslider s) p wd ht), []))
  end.

End VideoWidget.

(** ** Descriptions stated on the data

    The properties below are phrased with these predicates and with the
    second, descriptive rendering of the timeline painting. *)

Section Descriptions.
Context {V : Type}.

(** [least_not_less m x r]: [r] is the entry of [m] with the least key
    not less than [x], or [r] is nothing and every key is less than [x]. *)
Definition least_not_less (m : gmap Z V) (x : Z) (r : option (Z * V)) : Prop :=
  match r with
  | Some (k, v) =>
      m !! k = Some v ∧ x ≤ k ∧ ∀ k', is_Some (m !! k') → x ≤ k' → k ≤ k'
  | None => ∀ k', is_Some (m !! k') → k' < x
  end.

(** Every key is a value of [uint64_t]. *)
Definition uint64_keys (m : gmap Z V) : Prop :=
  ∀ k, is_Some (m !! k) → 0 ≤ k < UInt64.modulus.

End Descriptions.

(** The timeline as the description has it: a segment is skipped when it
    begins after [max] or ends before [min]; the others are drawn, in
    order, on the bar, between their two ends mapped onto the width. *)
Definition segment_skipped (min max : Double.t)
    (seg : Double.t * Double.t * TimelineType) : bool :=
  Double.ltb max seg.1.1 || Double.ltb seg.1.2 min.

Definition map_to_width (min max : Double.t) (w : Z) (x : Double.t) : result Z :=
  Double.to_int
    (Double.mul (Double.div (Double.sub x min) (Double.sub max min)) (Double.of_Z w)).

Definition segment_fill (bar : QRect) (min max : Double.t) (w : Z)
    (seg : Double.t * Double.t * TimelineType) : result PaintOp :=
  l ← map_to_width min max w (Double.max min seg.1.1);
  r ← map_to_width min max w (Double.min max seg.1.2);
  Ok (FillRect {| x1 := l; y1 := y1 bar; x2 := r; y2 := y2 bar |}
               (timeline_colors seg.2)).

Definition described_timeline (bar : QRect) (min max : Double.t) (w : Z)
    (tl : list (Double.t * Double.t * TimelineType)) : result (list PaintOp) :=
  mapM (segment_fill bar min max w)
       (filter (fun seg => segment_skipped min max seg = false) tl).

(** A CONTROLS_STATE event that [parseQLog] stores as an alert. *)
Definition stores_alert (cs : ControlsState) : Prop :=
  getAlertType cs ≠ "" ∧ getAlertText1 cs ≠ "" ∧ getAlertSize cs ≠ NONE.

Definition alert_of (cs : ControlsState) : AlertInfo :=
  {| status := getAlertStatus cs; text1 := cStr (getAlertText1 cs);
     text2 := cStr (getAlertText2 cs) |}.


(** ** Sample objects

    A concrete toolkit, stream and widget on which the model runs. *)

Definition sample_toolkit : Toolkit :=
  {| loadFromData data fmt :=
       match data with
       | [] => None
       | _ => Some {| img_width := 320; img_height := 188; img_bits := data |}
       end;
     scaledToHeight img h :=
       Pixmap {| img_width := img_width img * h / img_height img; img_height := h;
                 img_bits := img_bits img |};
     formatSeconds d := pretty (default 0 (Double.trunc d));
     QString_arg d := pretty (default 0 (Double.trunc d));
     QSlider_mousePressEvent q e := (q, []);
     QSlider_mouseMoveEvent q e := (q, []);
     QSlider_mouseReleaseEvent q e := (q, [QSliderReleased]);
     QSlider_event q ty := (q, []) |}.

Definition sample_can : AbstractStream :=
  {| liveStreaming := false; isPaused := false; currentSec := Double.of_Z 5;
     totalSeconds := Double.of_Z 60; routeStartTime := Double.of_Z 1000;
     getTimeline := [(Double.of_Z 10, Double.of_Z 20, TL_Engaged);
                     (Double.of_Z 70, Double.of_Z 80, TL_UserFlag);
                     (Double.of_Z 50, Double.of_Z 90, TL_AlertCritical)];
     segments := [0; 1] |}.

Definition live_can : AbstractStream :=
  {| liveStreaming := true; isPaused := false; currentSec := Double.of_Z 5;
     totalSeconds := Double.of_Z 60; routeStartTime := Double.of_Z 1000;
     getTimeline := []; segments := [] |}.

(** A replay stream that has loaded nothing yet. *)
Definition empty_can : AbstractStream :=
  {| liveStreaming := false; isPaused := true; currentSec := Double.zero;
     totalSeconds := Double.zero; routeStartTime := Double.zero;
     getTimeline := []; segments := [] |}.

Definition sample_cs : ControlsState :=
  {| getAlertType := "fcw/permanent"; getAlertText1 := "BRAKE!";
     getAlertText2 := "Risk of Collision"; getAlertSize := FULL;
     getAlertStatus := CRITICAL |}.

Definition sample_alert_event : LogEvent :=
  {| mono_time := 1005050000000; which := CONTROLS_STATE sample_cs |}.

Definition sample_thumbnail_event : LogEvent :=
  {| mono_time := 1006000000123;
     which := THUMBNAIL {| getTimestampEof := 1006000000000;
                           getThumbnail := [Byte.xff; Byte.xd8] |} |}.

Definition sample_qlog : LogReader :=
  {| events := [sample_alert_event; sample_thumbnail_event] |}.

Definition sample_pixmap : QPixmap :=
  Pixmap {| img_width := 160; img_height := 94; img_bits := [Byte.xff; Byte.xd8] |}.

Definition sample_slider : Slider :=
  {| qslider := {| minimum := 0; maximum := 60000; value := 0; isSliderDown := false;
                   singleStep := 0; hasMouseTracking := true;
                   geom_pos := {| px := 40; py := 300 |}; width := 600; height := 30 |};
     thumbnails := {[ 1006000000000 := sample_pixmap ]};
     alerts := {[ 1005050000000 := alert_of sample_cs ]};
     thumbnail_label := InfoLabel_new |}.

Definition sample_camera : CameraPart :=
  {| end_time_label := "60"; time_label := "00:00";
     alert_label := InfoLabel_new; slider := sample_slider |}.

Definition sample_widget : VideoWidget :=
  {| maximum_time := Double.of_Z 60; camera := Some sample_camera;
     play_btn := {| btn_text := ""; btn_icon := "pause"; btn_toolTip := "Pause";
                    btn_checkable := false; btn_checked := false; btn_enabled := true |};
     skip_to_end_btn := None;
     speed_btns := foldl (@add_speed_btn sample_toolkit true) [] speeds;
     group_exclusive := true |}.

Definition live_widget : VideoWidget :=
  {| maximum_time := Double.zero; camera := None;
     play_btn := {| btn_text := ""; btn_icon := "pause"; btn_toolTip := "Pause";
                    btn_checkable := false; btn_checked := false; btn_enabled := true |};
     skip_to_end_btn :=
       Some {| btn_text := ""; btn_icon := "skip-end-fill";
               btn_toolTip := "Skip to the end"; btn_checkable := false;
               btn_checked := false; btn_enabled := true |};
     speed_btns := foldl (@add_speed_btn sample_toolkit true) [] speeds;
     group_exclusive := true |}.

(** The check marks of [n] buttons of which only the [i]-th is checked. *)
Definition checked_only (i n : nat) : list bool :=
  map (fun j => Nat.eqb j i) (seq 0 n).

(** The state of the speed buttons: an exclusive group of checkable
    buttons for the four speeds, one of them checked. *)
Definition speed_group_ok (w : VideoWidget) : Prop :=
  group_exclusive w = true ∧
  map snd (speed_btns w) = speeds ∧
  Forall (fun b => btn_checkable b.1 = true) (speed_btns w) ∧
  ∃ i, (i < 4)%nat ∧ map (fun b => btn_checked b.1) (speed_btns w) = checked_only i 4.

(** The widgets that a run of the program can produce. *)
Inductive reachable {tk : Toolkit} : VideoWidget -> Prop :=
| reachable_new can w :
    VideoWidget_new can = Ok w → reachable w
| reachable_handle can w ev w' eff :
    reachable w → handle can w ev = Ok (w', eff) → reachable w'.

(** The buttons of the speed group and whether the group is exclusive. *)
Definition speed_group (w : VideoWidget) : list (QToolButton * Float.t) * bool :=
  (speed_btns w, group_exclusive w).

(** The widget the constructor builds on the sample stream. *)
Definition sample_new_widget : VideoWidget :=
  match @VideoWidget_new sample_toolkit sample_can with
  | Ok w => w
  | _ => live_widget
  end.

(** No stored alert has an empty first text. *)
Definition alerts_nonblank (m : gmap Z AlertInfo) : Prop :=
  ∀ k a, m !! k = Some a → text1 a ≠ "".

(** The first alert text of the event does not begin with the byte 0, so
    it is not empty as a C string. *)
Definition text1_kept (e : LogEvent) : Prop :=
  ∀ cs, which e = CONTROLS_STATE cs → getAlertText1 cs ≠ "" →
        cStr (getAlertText1 cs) ≠ "".

(** The event [e] is a CONTROLS_STATE event that [parseQLog] stores, at
    key [k], as the alert [a]. *)
Definition alert_event (e : LogEvent) (k : Z) (a : AlertInfo) : Prop :=
  ∃ cs, which e = CONTROLS_STATE cs ∧ stores_alert cs ∧ mono_time e = k ∧ a = alert_of cs.

(** The event [e] is a THUMBNAIL event whose data the decoder loads; the
    scaled image [pm] is stored at key [k]. *)
Definition thumbnail_event {tk : Toolkit} (e : LogEvent) (k : Z) (pm : QPixmap) : Prop :=
  ∃ thumb img, which e = THUMBNAIL thumb ∧ getTimestampEof thumb = k ∧
    loadFromData (getThumbnail thumb) "jpeg" = Some img ∧
    pm = scaledToHeight img (MIN_VIDEO_HEIGHT - THUMBNAIL_MARGIN * 2).

(** No stored thumbnail is the null pixmap. *)
Definition thumbnails_nonnull (m : gmap Z QPixmap) : Prop :=
  ∀ k pm, m !! k = Some pm → QPixmap_isNull pm = false.

(** The toolkit scales an image to a positive height without losing it. *)
Definition scaling_keeps_image {tk : Toolkit} : Prop :=
  ∀ img h, 0 < h → QPixmap_isNull (scaledToHeight img h) = false.

(** The two maps the slider fills from the qlogs. *)
Definition stored (s : Slider) : gmap Z QPixmap * gmap Z AlertInfo :=
  (thumbnails s, alerts s).


Definition sample_schedule : list LogEvent :=
  [sample_thumbnail_event; sample_alert_event].

Definition sample_press : QMouseEvent :=
  {| ev_x := 150; ev_y := 10; ev_button := LeftButton |}.

Definition sample_move : QMouseEvent :=
  {| ev_x := 50; ev_y := 10; ev_button := NoButton |}.

(** ** Further descriptions and samples *)

(** Which of the two layouts a widget has: the camera part, the
    skip-to-end button. *)
Definition layout (w : VideoWidget) : bool * bool :=
  (match camera w with Some _ => true | None => false end,
   match skip_to_end_btn w with Some _ => true | None => false end).

(** The alert overlay is visible exactly when its alert has a first
    text, and holds no pixmap. *)
Definition overlay_ok (l : InfoLabel) : Prop :=
  label_visible l = negb (QString_isEmpty (text1 (alert_info l))) ∧
  pixmap l = NullPixmap.

(** A visible preview holds a thumbnail and has its size. *)
Definition preview_ok (l : InfoLabel) : Prop :=
  label_visible l = true →
  QPixmap_isNull (pixmap l) = false ∧ label_size l = QPixmap_size (pixmap l).

(** The colour and the text [InfoLabel::paintEvent] uses for an alert:
    the timeline colour of the status, half transparent. *)
Definition alert_color (a : AlertInfo) : QColor :=
  QColor_setAlphaF
    match status a with
    | USER_PROMPT => timeline_colors TL_AlertWarning
    | CRITICAL => timeline_colors TL_AlertCritical
    | NORMAL => timeline_colors TL_AlertInfo
    end
    Double.lit_0_5.

Definition alert_text (a : AlertInfo) : string :=
  match text2 a with
  | EmptyString => text1 a
  | _ => (text1 a ++ newline ++ text2 a)%string
  end.

(** What one event can do to the preview label: nothing, hide it, or
    show a thumbnail in it. *)
Definition preview_step (l l' : InfoLabel) : Prop :=
  l' = l ∨ l' = InfoLabel_hide l ∨
  ∃ pt sec pm a, QPixmap_isNull pm = false ∧ l' = InfoLabel_showPixmap l pt sec pm a.

(** What one event can do to the alert overlay: nothing, or show an
    alert in it. *)
Definition overlay_step (l l' : InfoLabel) : Prop :=
  l' = l ∨ ∃ a, l' = InfoLabel_showAlert l a.

(** What the lambda of [parseQLog] stores for one event: the alert a
    controlsState event contributes, and the thumbnail a THUMBNAIL event
    contributes. *)
Definition alert_entry (e : LogEvent) : option (Z * AlertInfo) :=
  match which e with
  | CONTROLS_STATE cs =>
      if (0 <? Z.of_nat (String.length (getAlertType cs)))
         && (0 <? Z.of_nat (String.length (getAlertText1 cs)))
         && negb (bool_decide (getAlertSize cs = NONE))
      then Some (mono_time e,
                 {| status := getAlertStatus cs; text1 := cStr (getAlertText1 cs);
                    text2 := cStr (getAlertText2 cs) |})
      else None
  | _ => None
  end.

Definition thumbnail_entry {tk : Toolkit} (e : LogEvent) : option (Z * QPixmap) :=
  match which e with
  | THUMBNAIL thumb =>
      match loadFromData (getThumbnail thumb) "jpeg" with
      | Some pm =>
          Some (getTimestampEof thumb,
                scaledToHeight pm (MIN_VIDEO_HEIGHT - THUMBNAIL_MARGIN * 2))
      | None => None
      end
  | _ => None
  end.

(** The maximum time of a widget with a camera part is positive and,
    in milliseconds, fits an [int]. *)
Definition maximum_time_ok (w : VideoWidget) : Prop :=
  is_Some (camera w) →
  Double.ltb Double.zero (maximum_time w) = true ∧
  ∃ hi, Double.to_int (Double.mul (maximum_time w) factor) = Ok hi.

(** The events the stream sends, as opposed to those of the user. *)
Definition from_stream (ev : Event) : bool :=
  match ev with
  | StreamPaused | StreamResume | SettingsChanged | StreamUpdated
  | MaximumTimeDelivered _ | TimeRangeUpdated _ _ _ => true
  | _ => false
  end.

(** More sample objects: the sample widget zoomed into 10 s .. 20 s and
    unzoomed again, after an update of the stream, after the sample qlog,
    and zoomed into less than a millisecond; a slider of a one-hour route
    and a press far to its right; a slider narrower than a thumbnail. *)
Definition sample_zoomed : VideoWidget * list Effect :=
  match @VideoWidget_updateTimeRange sample_toolkit sample_can sample_widget
          (Double.of_Z 10) (Double.of_Z 20) true with
  | Ok r => r
  | _ => (sample_widget, [])
  end.

Definition sample_unzoomed : VideoWidget * list Effect :=
  match @VideoWidget_updateTimeRange sample_toolkit sample_can sample_zoomed.1
          Double.zero Double.zero false with
  | Ok r => r
  | _ => (sample_widget, [])
  end.

Definition sample_updated : VideoWidget * list Effect :=
  match @handle sample_toolkit sample_can sample_widget StreamUpdated with
  | Ok r => r
  | _ => (sample_widget, [])
  end.

Definition sample_loaded : VideoWidget * list Effect :=
  match @handle sample_toolkit sample_can sample_widget
          (QLogLoaded 1 sample_qlog sample_schedule) with
  | Ok r => r
  | _ => (sample_widget, [])
  end.

Definition sample_narrow_zoom : VideoWidget * list Effect :=
  match @handle sample_toolkit sample_can sample_widget
          (TimeRangeUpdated (Double.div (Double.of_Z 150001) (Double.of_Z 10000))
                            (Double.div (Double.of_Z 150004) (Double.of_Z 10000)) true) with
  | Ok r => r
  | _ => (sample_widget, [])
  end.

Definition narrow_zoom_slider : Slider :=
  match camera sample_narrow_zoom.1 with
  | Some c => slider c
  | None => sample_slider
  end.

Definition hour_slider : Slider :=
  Slider_with_qslider sample_slider
    {| minimum := 0; maximum := 3600000; value := 0; isSliderDown := false;
       singleStep := 0; hasMouseTracking := true;
       geom_pos := {| px := 40; py := 300 |}; width := 1000; height := 30 |}.

Definition far_press : QMouseEvent :=
  {| ev_x := 600; ev_y := 10; ev_button := LeftButton |}.

Definition thin_slider : Slider :=
  Slider_with_qslider sample_slider
    {| minimum := 0; maximum := 60000; value := 0; isSliderDown := false;
       singleStep := 0; hasMouseTracking := true;
       geom_pos := {| px := 40; py := 300 |}; width := 100; height := 30 |}.

Definition near_move : QMouseEvent :=
  {| ev_x := 5; ev_y := 10; ev_button := NoButton |}.

(** A slider 100 pixels wide that holds a small thumbnail at 1001 s and
    the sample thumbnail, 160 pixels wide, at 1006 s. *)
Definition small_pixmap : QPixmap :=
  Pixmap {| img_width := 10; img_height := 94; img_bits := [Byte.xff; Byte.xd8] |}.

Definition narrow_hover_slider : Slider :=
  Slider_with_thumbnails thin_slider
    {[ 1001000000000 := small_pixmap; 1006000000000 := sample_pixmap ]}.

(** A controlsState whose first alert text begins with the byte 0, and a
    qlog that holds it. *)
Definition nul_cs : ControlsState :=
  {| getAlertType := "fcw/permanent"; getAlertText1 := String Ascii.zero "BRAKE!";
     getAlertText2 := "Risk of Collision"; getAlertSize := FULL;
     getAlertStatus := CRITICAL |}.

Definition nul_alert_event : LogEvent :=
  {| mono_time := 1005050000000; which := CONTROLS_STATE nul_cs |}.

Definition nul_qlog : LogReader :=
  {| events := [nul_alert_event] |}.

Definition blank_alert : AlertInfo :=
  {| status := CRITICAL; text1 := ""; text2 := "Risk of Collision" |}.

(** * Properties

    ** Floating-point facts *)















(** ** Ordered maps *)

Section OrderedMaps.
Context {V : Type}.
Implicit Types (m : gmap Z V) (x k : Z) (v : V).

Lemma lower_bound_spec m x : least_not_less m x (lower_bound m x).
Proof.
  unfold lower_bound.
  apply (map_fold_weak_ind (fun r m => least_not_less m x r)).
  - intros k' [v Hv]. rewrite lookup_empty in Hv. discriminate.
  - intros i v m' r Hi IH. unfold lower_bound_step.
    case_bool_decide as Hx.
    + destruct r as [[k w]|]; simpl in IH.
      * destruct IH as (Hk & Hxk & Hmin).
        assert (i ≠ k) by (intros ->; congruence).
        case_bool_decide as Hik; simpl.
        -- split; [apply lookup_insert_eq|]. split; [done|].
           intros k' [u Hu] Hxk'. destruct (decide (k' = i)) as [->|Hne]; [lia|].
           rewrite lookup_insert_ne in Hu by done.
           specialize (Hmin k' (ex_intro _ u Hu) Hxk'). lia.
        -- split; [by rewrite lookup_insert_ne|]. split; [done|].
           intros k' [u Hu] Hxk'. destruct (decide (k' = i)) as [->|Hne]; [lia|].
           rewrite lookup_insert_ne in Hu by done.
           apply Hmin; eauto.
      * simpl. split; [apply lookup_insert_eq|]. split; [done|].
        intros k' [u Hu] Hxk'. destruct (decide (k' = i)) as [->|Hne]; [lia|].
        rewrite lookup_insert_ne in Hu by done.
        specialize (IH k' (ex_intro _ u Hu)). lia.
    + destruct r as [[k w]|]; simpl in *.
      * destruct IH as (Hk & Hxk & Hmin).
        assert (i ≠ k) by (intros ->; congruence).
        split; [by rewrite lookup_insert_ne|]. split; [done|].
        intros k' [u Hu] Hxk'. destruct (decide (k' = i)) as [->|Hne]; [lia|].
        rewrite lookup_insert_ne in Hu by done.
        apply Hmin; eauto.
      * intros k' [u Hu]. destruct (decide (k' = i)) as [->|Hne]; [lia|].
        rewrite lookup_insert_ne in Hu by done.
        apply IH; eauto.
Qed.

(** The entry is determined by that description. *)
Lemma least_not_less_unique m x r1 r2 :
  least_not_less m x r1 → least_not_less m x r2 → r1 = r2.
Proof.
  destruct r1 as [[k1 v1]|], r2 as [[k2 v2]|]; simpl.
  - intros (H1 & Hx1 & Hm1) (H2 & Hx2 & Hm2).
    assert (k1 = k2) as ->.
    { apply Z.le_antisymm; [apply Hm1 | apply Hm2]; eauto. }
    congruence.
  - intros (H1 & Hx1 & _) Hn. specialize (Hn k1 (ex_intro _ v1 H1)). lia.
  - intros Hn (H2 & Hx2 & _). specialize (Hn k2 (ex_intro _ v2 H2)). lia.
  - done.
Qed.

Lemma lookup_emplace m k v k' :
  emplace k v m !! k' =
  match m !! k' with
  | Some u => Some u
  | None => if decide (k = k') then Some v else None
  end.
Proof.
  unfold emplace. destruct (m !! k) as [u|] eqn:Hk.
  - destruct (m !! k') as [u'|] eqn:Hk'; [done|].
    case_decide; [congruence | done].
  - rewrite lookup_insert. case_decide as Hkk.
    + subst k'. by rewrite Hk.
    + by destruct (m !! k').
Qed.

End OrderedMaps.

(** ** Alerts at a playback position *)








Example alertInfo_just_missed :
  Slider_alertInfo sample_can
    (Slider_with_alerts sample_slider {[ 1004999999999 := alert_of sample_cs ]})
    (Double.of_Z 5) = Ok AlertInfo_default.
Proof. reflexivity. Qed.



(** ** The alert overlay follows the playback position *)

Lemma alertInfo_defined can s t mono :
  mono_time_of can t = Ok mono → ∃ a, Slider_alertInfo can s t = Ok a.
Proof. intros Hm. unfold Slider_alertInfo. rewrite Hm. simpl. eauto. Qed.

Lemma alertInfo_alerts_only can s s' t :
  alerts s = alerts s' → Slider_alertInfo can s t = Slider_alertInfo can s' t.
Proof. intros H. unfold Slider_alertInfo. by rewrite H. Qed.

Section Delivery.
Context {tk : Toolkit}.

Lemma deliver_keeps st sg :
  slider (deliver st sg).1 = slider st.1 ∧
  alert_label (deliver st sg).1 = alert_label st.1 ∧
  end_time_label (deliver st sg).1 = end_time_label st.1.
Proof. destruct st as [c eff], sg; simpl; auto. Qed.

Lemma foldl_deliver_keeps sgs : ∀ st,
  slider (foldl deliver st sgs).1 = slider st.1 ∧
  alert_label (foldl deliver st sgs).1 = alert_label st.1 ∧
  end_time_label (foldl deliver st sgs).1 = end_time_label st.1.
Proof.
  induction sgs as [|sg sgs IH]; intros st; simpl; [auto|].
  destruct (IH (deliver st sg)) as (-> & -> & ->). apply deliver_keeps.
Qed.

Lemma deliver_all_keeps c sgs :
  slider (deliver_all c sgs).1 = slider c ∧
  alert_label (deliver_all c sgs).1 = alert_label c ∧
  end_time_label (deliver_all c sgs).1 = end_time_label c.
Proof. apply (foldl_deliver_keeps sgs (c, [])). Qed.

Lemma showAlert_visible l a :
  label_visible (InfoLabel_showAlert l a) = true ↔ text1 a ≠ "".
Proof. simpl. destruct (text1 a); simpl; split; intros; congruence. Qed.

(** C1. On a stream update, when the conversions of the playback position
    are defined, [updateState] completes, the overlay holds the alert
    [alertInfo] finds at [can->currentSec()], and the overlay is visible
    exactly when the first text of that alert is not empty. *)
Theorem updateState_overlay_follows_position can w c mono :
  camera w = Some c →
  mono_time_of can (currentSec can) = Ok mono →
  (isSliderDown (qslider (slider c)) = true
   ∨ ∃ v, Double.to_int (Double.mul (currentSec can) factor) = Ok v) →
  ∃ w' c' eff alert,
    handle can w StreamUpdated = Ok (w', eff) ∧
    VideoWidget_updateState can w = Ok (w', eff) ∧
    camera w' = Some c' ∧
    Slider_alertInfo can (slider c') (currentSec can) = Ok alert ∧
    alert_label c' = InfoLabel_showAlert (alert_label c) alert ∧
    alert_info (alert_label c') = alert ∧
    (label_visible (alert_label c') = true ↔ text1 alert ≠ "").
Proof.
  intros Hc Hm Hv.
  assert (Hstep : ∃ s sg,
            (if negb (isSliderDown (qslider (slider c)))
             then Slider_setCurrentSecond (slider c) (currentSec can)
             else Ok (slider c, [])) = Ok (s, sg) ∧ alerts s = alerts (slider c)).
  { destruct (isSliderDown (qslider (slider c))) eqn:Hd; simpl.
    - eauto.
    - destruct Hv as [Hv | [v Hv]]; [discriminate|].
      unfold Slider_setCurrentSecond. rewrite Hv. simpl.
      destruct (QSlider_setValue (qslider (slider c)) v) as [q sg]. eauto. }
  destruct Hstep as (s & sg & Hstep & Hal).
  destruct (alertInfo_defined can s (currentSec can) mono Hm) as [alert Ha].
  pose proof (deliver_all_keeps (CameraPart_with_slider c s) sg) as (Hs & Hl & _).
  simpl in Hs, Hl.
  assert (Hupd : VideoWidget_updateState can w =
                 Ok (VideoWidget_with_camera w
                       (Some (CameraPart_with_alert_label
                                (deliver_all (CameraPart_with_slider c s) sg).1
                                (InfoLabel_showAlert (alert_label c) alert))),
                     (deliver_all (CameraPart_with_slider c s) sg).2)).
  { unfold VideoWidget_updateState. rewrite Hc, Hstep. simpl.
    destruct (deliver_all (CameraPart_with_slider c s) sg) as [c1 eff] eqn:Hd.
    simpl in *. rewrite Hs, Ha. simpl. by rewrite Hl. }
  eexists _, _, _, alert. split; [simpl; rewrite Hc; exact Hupd|].
  split; [exact Hupd|]. split; [reflexivity|]. simpl.
  rewrite Hs. split; [exact Ha|]. split; [reflexivity|]. split; [reflexivity|].
  destruct (text1 alert); simpl; split; intros; congruence.
Qed.

End Delivery.

Lemma updateState_overlay_follows_position_witness :
  ∃ w' c' eff alert,
    @handle sample_toolkit sample_can sample_widget StreamUpdated = Ok (w', eff) ∧
    @VideoWidget_updateState sample_toolkit sample_can sample_widget = Ok (w', eff) ∧
    camera w' = Some c' ∧
    Slider_alertInfo sample_can (slider c') (currentSec sample_can) = Ok alert ∧
    alert_label c' = InfoLabel_showAlert (alert_label sample_camera) alert ∧
    alert_info (alert_label c') = alert ∧
    (label_visible (alert_label c') = true ↔ text1 alert ≠ "").
Proof.
  apply (@updateState_overlay_follows_position sample_toolkit sample_can sample_widget
           sample_camera 1005000000000).
  - reflexivity.
  - reflexivity.
  - right. exists 5000. reflexivity.
Defined.

Example updateState_sample_overlay :
  (w ← @VideoWidget_updateState sample_toolkit sample_can sample_widget;
   Ok (alert_label <$> camera w.1))
  = Ok (Some {| pixmap := NullPixmap; second := "";
                alert_info := alert_of sample_cs; label_visible := true;
                label_pos := {| px := 0; py := 0 |};
                label_size := {| size_w := 0; size_h := 0 |} |}).
Proof. reflexivity. Qed.

(** ** The assertion in [setTimeRange] *)

Lemma leb_zero_not_gt sec :
  Double.leb sec Double.zero = true → Double.ltb Double.zero sec = false.
Proof. destruct sec as [[]|[]| |[] m e]; simpl; done. Qed.

Lemma setTimeRange_asserts s min max :
  Double.ltb min max = false → Slider_setTimeRange s min max = AssertFailed.
Proof. intros H. unfold Slider_setTimeRange. by rewrite H. Qed.

Lemma setTimeRange_completes s min max r :
  Slider_setTimeRange s min max = Ok r → Double.ltb min max = true.
Proof.
  unfold Slider_setTimeRange. destruct (Double.ltb min max); [done|discriminate].
Qed.

Section MaximumTime.
Context {tk : Toolkit}.

Lemma setMaximumTime_signals_completes w sec r :
  VideoWidget_setMaximumTime_signals w sec = Ok r → Double.ltb Double.zero sec = true.
Proof.
  unfold VideoWidget_setMaximumTime_signals. simpl.
  destruct (camera w) as [c|]; [|discriminate].
  destruct (Slider_setTimeRange _ Double.zero sec) as [[s sg]| |] eqn:E; try discriminate.
  intros _. by apply setTimeRange_completes in E.
Qed.

Lemma setMaximumTime_signals_asserts w c sec :
  camera w = Some c → Double.ltb Double.zero sec = false →
  VideoWidget_setMaximumTime_signals w sec = AssertFailed.
Proof.
  intros Hc H. unfold VideoWidget_setMaximumTime_signals. simpl. rewrite Hc.
  by rewrite setTimeRange_asserts.
Qed.

(** C7. [setTimeRange(min, max)] asserts [min < max].  So
    [setMaximumTime(sec)], on a widget that has its slider, completes only
    when [0 < sec]; for every [sec <= 0] (and for a NaN) the assertion
    fails, and so does the construction of the widget on a replay stream
    whose [totalSeconds()] is not positive. *)
Theorem setMaximumTime_asserts_positive can w c sec :
  camera w = Some c →
  (∀ s min max, Double.ltb min max = false →
                Slider_setTimeRange s min max = AssertFailed) ∧
  (∀ s min max r, Slider_setTimeRange s min max = Ok r → Double.ltb min max = true) ∧
  (∀ r, VideoWidget_setMaximumTime w sec = Ok r → Double.ltb Double.zero sec = true) ∧
  (Double.leb sec Double.zero = true → VideoWidget_setMaximumTime w sec = AssertFailed) ∧
  (Double.is_nan sec = true → VideoWidget_setMaximumTime w sec = AssertFailed) ∧
  (liveStreaming can = false → Double.leb (totalSeconds can) Double.zero = true →
   VideoWidget_new can = AssertFailed).
Proof.
  intros Hc. split; [apply setTimeRange_asserts|]. split; [apply setTimeRange_completes|].
  split; [|split; [|split]].
  - intros r. unfold VideoWidget_setMaximumTime, with_delivery.
    destruct (VideoWidget_setMaximumTime_signals w sec) as [p| |] eqn:E; try discriminate.
    intros _. by apply setMaximumTime_signals_completes in E.
  - intros Hle. unfold VideoWidget_setMaximumTime.
    rewrite (setMaximumTime_signals_asserts w c) by auto using leb_zero_not_gt. done.
  - intros Hnan. unfold VideoWidget_setMaximumTime.
    rewrite (setMaximumTime_signals_asserts w c); [done | done |].
    destruct sec; try discriminate. reflexivity.
  - intros Hlive Hle. unfold VideoWidget_new. rewrite Hlive. simpl.
    unfold createCameraWidget.
    erewrite setMaximumTime_signals_asserts; [done | reflexivity |].
    by apply leb_zero_not_gt.
Qed.

(** With a positive time that fits the slider, it completes. *)
Lemma setMaximumTime_positive_completes w c sec hi :
  camera w = Some c → Double.ltb Double.zero sec = true →
  Double.to_int (Double.mul sec factor) = Ok hi →
  ∃ r, VideoWidget_setMaximumTime w sec = Ok r.
Proof.
  intros Hc Hlt Hhi. unfold VideoWidget_setMaximumTime, with_delivery,
    VideoWidget_setMaximumTime_signals, Slider_setTimeRange. simpl.
  rewrite Hc, Hlt. simpl.
  change (Double.to_int (Double.mul Double.zero factor)) with (Ok (A:=Z) 0).
  simpl. rewrite Hhi. simpl.
  destruct (QSlider_setRange _ 0 hi) as [q sg]. simpl.
  destruct (deliver_all _ sg). eauto.
Qed.

End MaximumTime.

Lemma setMaximumTime_asserts_positive_witness :
  @VideoWidget_setMaximumTime sample_toolkit sample_widget Double.zero = AssertFailed ∧
  @VideoWidget_new sample_toolkit empty_can = AssertFailed.
Proof.
  destruct (@setMaximumTime_asserts_positive sample_toolkit empty_can sample_widget
              sample_camera Double.zero) as (_ & _ & _ & Hle & _ & Hnew).
  - reflexivity.
  - split; [apply Hle | apply Hnew]; reflexivity.
Defined.

Example setMaximumTime_samples :
  @VideoWidget_setMaximumTime sample_toolkit sample_widget (Double.of_Z (-3)) = AssertFailed ∧
  @VideoWidget_setMaximumTime sample_toolkit sample_widget (S754_zero true) = AssertFailed ∧
  @VideoWidget_setMaximumTime sample_toolkit sample_widget S754_nan = AssertFailed ∧
  (∃ r, @VideoWidget_setMaximumTime sample_toolkit sample_widget (Double.of_Z 90) = Ok r) ∧
  @VideoWidget_new sample_toolkit empty_can = AssertFailed.
Proof. repeat split; try reflexivity. eexists. reflexivity. Qed.

(** ** Play and pause *)

Section PlayButton.
Context {tk : Toolkit}.

(** C8. A click on the play button calls [can->pause] with the opposite of
    the stream's paused state; when the stream reports [paused] or
    [resume], the button shows the icon "play" and the tool tip "Play"
    exactly when the stream is paused, and "pause", "Pause" otherwise. *)
Theorem play_button_follows_stream can w :
  handle can w PlayBtnClicked = Ok (w, [Call (pause (negb (isPaused can)))]) ∧
  negb (isPaused can) ≠ isPaused can ∧
  (∀ ev, ev = StreamPaused ∨ ev = StreamResume →
     handle can w ev = Ok (VideoWidget_updatePlayBtnState can w, [])) ∧
  let w' := VideoWidget_updatePlayBtnState can w in
  btn_icon (play_btn w') = (if isPaused can then "play" else "pause") ∧
  btn_toolTip (play_btn w') = (if isPaused can then "Play" else "Pause") ∧
  (btn_icon (play_btn w') = "play" ↔ isPaused can = true) ∧
  (btn_toolTip (play_btn w') = "Play" ↔ isPaused can = true) ∧
  (btn_icon (play_btn w') = "pause" ↔ isPaused can = false) ∧
  (btn_toolTip (play_btn w') = "Pause" ↔ isPaused can = false).
Proof.
  split; [reflexivity|]. split; [by destruct (isPaused can)|].
  split; [by intros ev [-> | ->]|].
  simpl. destruct (isPaused can); repeat split; intros; congruence.
Qed.

End PlayButton.

Example play_button_sample :
  (@handle sample_toolkit sample_can sample_widget PlayBtnClicked
   = Ok (sample_widget, [Call (pause true)])) ∧
  (play_btn <$> (fst <$> @handle sample_toolkit empty_can sample_widget StreamPaused))
  = Ok {| btn_text := ""; btn_icon := "play"; btn_toolTip := "Play";
          btn_checkable := false; btn_checked := false; btn_enabled := true |}.
Proof. split; reflexivity. Qed.

(** ** Speed buttons *)

Lemma group_check_checked i bs :
  map (fun b => btn_checked b.1) (group_check true i bs) = checked_only i (length bs).
Proof.
  unfold group_check, checked_only.
  apply list_eq. intros j.
  rewrite !list_lookup_fmap, list_lookup_imap.
  destruct (bs !! j) as [b|] eqn:Hj; simpl.
  - rewrite lookup_seq_lt by (by eapply lookup_lt_Some). simpl.
    by destruct (Nat.eqb j i).
  - rewrite lookup_seq_ge by (by apply lookup_ge_None). done.
Qed.

Lemma group_check_speeds e i bs : map snd (group_check e i bs) = map snd bs.
Proof.
  unfold group_check. apply list_eq. intros j.
  rewrite !list_lookup_fmap, list_lookup_imap.
  destruct (bs !! j) as [b|]; simpl; [|done].
  destruct (Nat.eqb j i); [done|]. by destruct e.
Qed.

Lemma group_check_checkable e i bs :
  Forall (fun b => btn_checkable b.1 = true) bs →
  Forall (fun b => btn_checkable b.1 = true) (group_check e i bs).
Proof.
  rewrite !Forall_lookup. intros H j b. unfold group_check.
  rewrite list_lookup_imap. destruct (bs !! j) as [b'|] eqn:Hj; simpl; [|done].
  intros [= <-]. specialize (H j b' Hj).
  destruct (Nat.eqb j i); [done|]. by destruct e.
Qed.

Lemma checked_only_lookup i n j :
  checked_only i n !! j = if decide (j < n)%nat then Some (Nat.eqb j i) else None.
Proof.
  unfold checked_only. rewrite list_lookup_fmap. case_decide.
  - by rewrite lookup_seq_lt.
  - by rewrite lookup_seq_ge by lia.
Qed.

(** A click in an exclusive group of checkable buttons leaves exactly the
    clicked button checked. *)
Lemma group_click_exclusive i k bs :
  Forall (fun b => btn_checkable b.1 = true) bs →
  map (fun b => btn_checked b.1) bs = checked_only k (length bs) →
  (i < length bs)%nat →
  map (fun b => btn_checked b.1) (group_click true i bs) = checked_only i (length bs) ∧
  map snd (group_click true i bs) = map snd bs ∧
  Forall (fun b => btn_checkable b.1 = true) (group_click true i bs).
Proof.
  intros Hall Hk Hi. unfold group_click.
  destruct (lookup_lt_is_Some_2 bs i Hi) as [[b sp] Hb]. rewrite Hb.
  rewrite Forall_lookup in Hall. pose proof (Hall i _ Hb) as Hc. simpl in Hc.
  rewrite Hc. destruct (btn_checked b) eqn:Hchk.
  - split; [|split; [done | by apply Forall_lookup]].
    assert (Hik : (map (fun b => btn_checked b.1) bs) !! i = Some true)
      by (by rewrite list_lookup_fmap, Hb; simpl; rewrite Hchk).
    rewrite Hk, checked_only_lookup in Hik. case_decide; [|done].
    injection Hik as Hik. apply Nat.eqb_eq in Hik. by subst k.
  - split; [apply group_check_checked|].
    split; [apply group_check_speeds | apply group_check_checkable; by apply Forall_lookup].
Qed.

(** Inversion of a completed sequence of two steps. *)
Lemma bind_Ok {A B} (m : result A) (f : A → result B) b :
  m ≫= f = Ok b → ∃ a, m = Ok a ∧ f a = Ok b.
Proof. destruct m; simpl; [eauto | discriminate..]. Qed.

Ltac bind_inv H :=
  let a := fresh "a" in
  let E := fresh "E" in
  apply bind_Ok in H as (a & E & H).


Section SpeedButtons.
Context {tk : Toolkit}.

Lemma setMaximumTime_signals_speed_group w sec w' sg :
  VideoWidget_setMaximumTime_signals w sec = Ok (w', sg) → speed_group w' = speed_group w.
Proof.
  unfold VideoWidget_setMaximumTime_signals. simpl.
  destruct (camera w); [|discriminate]. intros H. bind_inv H.
  destruct a as [s sg']. by injection H as <- <-.
Qed.

Lemma with_delivery_speed_group r w' eff :
  with_delivery r = Ok (w', eff) →
  ∃ w0 sg, r = Ok (w0, sg) ∧ speed_group w' = speed_group w0.
Proof.
  unfold with_delivery. intros H. bind_inv H. destruct a as [w0 sg].
  exists w0, sg. split; [done|].
  destruct (camera w0) as [c|].
  - destruct (deliver_all c sg). by injection H as <- <-.
  - by injection H as <- <-.
Qed.

Lemma on_slider_speed_group w f w' eff :
  on_slider w f = Ok (w', eff) → speed_group w' = speed_group w.
Proof.
  unfold on_slider. destruct (camera w) as [c|].
  - intros H. bind_inv H. destruct a as [s sg].
    destruct (deliver_all _ sg). by injection H as <- <-.
  - by intros [= <- <-].
Qed.

Lemma new_speed_btns can w :
  VideoWidget_new can = Ok w →
  group_exclusive w = true ∧
  speed_btns w = foldl (add_speed_btn true) [] speeds.
Proof.
  unfold VideoWidget_new. intros H.
  destruct (liveStreaming can); simpl in H.
  - by injection H as <-.
  - bind_inv H. injection H as <-. simpl.
    unfold createCameraWidget in E. bind_inv E. destruct a0 as [w1 sg].
    injection E as <-. apply setMaximumTime_signals_speed_group in E0.
    unfold speed_group in E0. simpl in E0. injection E0 as _ Hx. by rewrite Hx.
Qed.

Lemma new_speed_group_ok can w : VideoWidget_new can = Ok w → speed_group_ok w.
Proof.
  intros H. destruct (new_speed_btns can w H) as [He Hb].
  unfold speed_group_ok. rewrite He, Hb. split; [done|].
  split; [reflexivity|]. split.
  - repeat constructor.
  - exists 2%nat. split; [lia | reflexivity].
Qed.

Lemma click_speed_btn_ok w i :
  speed_group_ok w → (i < 4)%nat →
  ∃ speed, speeds !! i = Some speed ∧
    (click_speed_btn w i).2 = [Call (setSpeed speed)] ∧
    map (fun b => btn_checked b.1) (speed_btns (click_speed_btn w i).1) = checked_only i 4 ∧
    speed_group_ok (click_speed_btn w i).1.
Proof.
  intros (Hex & Hsp & Hall & k & Hk & Hchk) Hi.
  assert (Hlen : length (speed_btns w) = 4%nat).
  { rewrite <- (length_map snd), Hsp. reflexivity. }
  destruct (lookup_lt_is_Some_2 (speed_btns w) i ltac:(lia)) as [[b sp] Hb].
  exists sp. split.
  { rewrite <- Hsp, list_lookup_fmap, Hb. done. }
  unfold click_speed_btn. rewrite Hb. simpl. split; [done|].
  rewrite Hex.
  destruct (group_click_exclusive i k (speed_btns w)) as (H1 & H2 & H3);
    [done | by rewrite Hlen | lia |].
  rewrite Hlen in H1. split; [done|].
  unfold speed_group_ok. simpl. rewrite H2. eauto 10.
Qed.

Lemma updateState_speed_group can w w' eff :
  VideoWidget_updateState can w = Ok (w', eff) → speed_group w' = speed_group w.
Proof.
  unfold VideoWidget_updateState. destruct (camera w) as [c|]; [|discriminate].
  intros H. bind_inv H. destruct a as [s sg].
  destruct (deliver_all _ sg) as [c1 eff1]. bind_inv H. by injection H as <- <-.
Qed.

Lemma updateTimeRange_speed_group can w min max z w' eff :
  VideoWidget_updateTimeRange can w min max z = Ok (w', eff) →
  speed_group w' = speed_group w.
Proof.
  unfold VideoWidget_updateTimeRange. destruct (liveStreaming can).
  - destruct (skip_to_end_btn w); [|discriminate]. by intros [= <- <-].
  - destruct (camera w) as [c|]; [|discriminate]. intros H.
    apply with_delivery_speed_group in H as (w0 & sg & H & ->).
    bind_inv H. destruct a as [s sg']. by injection H as <- <-.
Qed.

Lemma click_speed_btn_out_of_range w i :
  speed_group_ok w → ¬ (i < 4)%nat → click_speed_btn w i = (w, []).
Proof.
  intros (_ & Hsp & _) Hi. unfold click_speed_btn.
  assert (Hlen : length (speed_btns w) = 4%nat).
  { rewrite <- (length_map snd), Hsp. reflexivity. }
  rewrite (lookup_ge_None_2 (speed_btns w) i) by lia. done.
Qed.

Lemma speed_group_ok_proper w w' :
  speed_group w' = speed_group w → speed_group_ok w → speed_group_ok w'.
Proof. unfold speed_group, speed_group_ok. intros [= -> ->]. done. Qed.

Lemma click_speed_btn_preserves w i :
  speed_group_ok w → speed_group_ok (click_speed_btn w i).1.
Proof.
  intros Hok. destruct (decide (i < 4)%nat) as [Hi|Hi].
  - by destruct (click_speed_btn_ok w i Hok Hi) as (? & _ & _ & _ & ?).
  - by rewrite click_speed_btn_out_of_range.
Qed.

Lemma handle_speed_group_ok can w ev w' eff :
  speed_group_ok w → handle can w ev = Ok (w', eff) → speed_group_ok w'.
Proof.
  intros Hok H. destruct ev; simpl in H.
  - by injection H as <- <-.
  - destruct (camera w); by injection H as <- <-.
  - destruct (skip_to_end_btn w) as [b|]; [|by injection H as <- <-].
    destruct (btn_enabled b); [|by injection H as <- <-].
    pose proof (click_speed_btn_preserves w 2 Hok) as Hc.
    destruct (click_speed_btn w 2) as [w1 eff1]. by injection H as <- <-.
  - injection H as H. pose proof (click_speed_btn_preserves w i Hok) as Hc.
    by rewrite H in Hc.
  - by injection H as <- <-.
  - by injection H as <- <-.
  - by injection H as <- <-.
  - destruct (camera w); [|by injection H as <- <-].
    eapply speed_group_ok_proper; [|done]. by eapply updateState_speed_group.
  - eapply speed_group_ok_proper; [|done]. by eapply on_slider_speed_group.
  - destruct (camera w); [|by injection H as <- <-].
    unfold VideoWidget_setMaximumTime in H.
    apply with_delivery_speed_group in H as (w0 & sg & H & Hs).
    apply setMaximumTime_signals_speed_group in H.
    eapply speed_group_ok_proper; [|done]. congruence.
  - eapply speed_group_ok_proper; [|done]. by eapply updateTimeRange_speed_group.
  - eapply speed_group_ok_proper; [|done]. by eapply on_slider_speed_group.
  - eapply speed_group_ok_proper; [|done]. by eapply on_slider_speed_group.
  - eapply speed_group_ok_proper; [|done]. by eapply on_slider_speed_group.
  - eapply speed_group_ok_proper; [|done]. by eapply on_slider_speed_group.
  - eapply speed_group_ok_proper; [|done]. by eapply on_slider_speed_group.
Qed.

Lemma reachable_speed_group_ok w : reachable w → speed_group_ok w.
Proof.
  induction 1 as [can w Hnew | can w ev w' eff _ IH Hstep].
  - by eapply new_speed_group_ok.
  - by eapply handle_speed_group_ok.
Qed.

(** C9. The speed controls are four checkable buttons in an exclusive
    group, for the [float] speeds nearest to 0.1, 0.5, 1 and 2; after the
    constructor the button of speed 1 is the checked one; in every widget
    the program reaches exactly one of them is checked, and a click on the
    button of speed [s] calls [can->setSpeed(s)] and leaves that button
    the only checked one. *)
Theorem speed_buttons_exclusive can w0 w i :
  VideoWidget_new can = Ok w0 → reachable w → (i < 4)%nat →
  speeds = [S754_finite false 13421773 (-27); S754_finite false 8388608 (-24);
            S754_finite false 8388608 (-23); S754_finite false 8388608 (-22)] ∧
  map Float.to_double speeds
  = [S754_finite false 7205759511166976 (-56); Double.lit_0_5; Double.one; Double.two] ∧
  map snd (speed_btns w0) = speeds ∧
  group_exclusive w0 = true ∧
  Forall (fun b => btn_checkable b.1 = true) (speed_btns w0) ∧
  map (fun b => btn_checked b.1) (speed_btns w0) = [false; false; true; false] ∧
  speed_group_ok w ∧
  ∃ speed w',
    speeds !! i = Some speed ∧
    handle can w (SpeedBtnClicked i) = Ok (w', [Call (setSpeed speed)]) ∧
    map (fun b => btn_checked b.1) (speed_btns w') = checked_only i 4 ∧
    speed_group_ok w'.
Proof.
  intros Hnew Hreach Hi.
  destruct (new_speed_btns can w0 Hnew) as [He Hb].
  split; [reflexivity|]. split; [reflexivity|].
  rewrite Hb. split; [reflexivity|]. split; [done|].
  split; [repeat constructor|]. split; [reflexivity|].
  pose proof (reachable_speed_group_ok w Hreach) as Hok. split; [done|].
  destruct (click_speed_btn_ok w i Hok Hi) as (speed & Hs & Heff & Hchk & Hok').
  exists speed, (click_speed_btn w i).1. split; [done|]. split; [|done].
  simpl. rewrite <- Heff. by destruct (click_speed_btn w i).
Qed.

End SpeedButtons.

Lemma sample_widget_reachable : @reachable sample_toolkit sample_widget.
Proof.
  assert (H : ∃ w0 w1 e1 e2,
             @VideoWidget_new sample_toolkit sample_can = Ok w0 ∧
             @handle sample_toolkit sample_can w0
               (SliderResized {| px := 40; py := 300 |} 600 30) = Ok (w1, e1) ∧
             @handle sample_toolkit sample_can w1
               (QLogLoaded 1 sample_qlog (events sample_qlog)) = Ok (sample_widget, e2)).
  { eexists _, _, _, _. split; [vm_compute; reflexivity|].
    split; [vm_compute; reflexivity|]. vm_compute. reflexivity. }
  destruct H as (w0 & w1 & e1 & e2 & H0 & H1 & H2).
  eapply reachable_handle; [|exact H2].
  eapply reachable_handle; [|exact H1].
  eapply reachable_new. exact H0.
Qed.

Lemma speed_buttons_exclusive_witness :
  ∃ w', @handle sample_toolkit sample_can sample_widget (SpeedBtnClicked 3)
        = Ok (w', [Call (setSpeed (S754_finite false 8388608 (-22)))]) ∧
        map (fun b => btn_checked b.1) (speed_btns w') = [false; false; false; true].
Proof.
  destruct (@speed_buttons_exclusive sample_toolkit sample_can sample_new_widget
              sample_widget 3%nat)
    as (_ & _ & _ & _ & _ & _ & _ & speed & w' & Hs & Hh & Hc & _).
  - vm_compute. reflexivity.
  - exact sample_widget_reachable.
  - lia.
  - exists w'. injection Hs as <-. split; [exact Hh | exact Hc].
Defined.

(** ** Alerts and thumbnails taken from a qlog *)

Lemma length_pos_nonempty (s : string) :
  (0 <? Z.of_nat (String.length s)) = negb (QString_isEmpty s).
Proof. by destruct s. Qed.

Lemma isEmpty_spec (s : string) : QString_isEmpty s = true ↔ s = "".
Proof. destruct s; simpl; split; intros; congruence. Qed.

Lemma stores_alert_test cs :
  (0 <? Z.of_nat (String.length (getAlertType cs)))
  && (0 <? Z.of_nat (String.length (getAlertText1 cs)))
  && negb (bool_decide (getAlertSize cs = NONE)) = true
  ↔ stores_alert cs.
Proof.
  unfold stores_alert. rewrite !andb_true_iff, !length_pos_nonempty, !negb_true_iff.
  rewrite bool_decide_eq_false.
  rewrite <- !not_true_iff_false, !isEmpty_spec. tauto.
Qed.

Section ParseQLog.
Context {tk : Toolkit}.

(** One event: the alerts afterwards. *)
Lemma parseQLog_event_alert_lookup s e k a :
  alerts (parseQLog_event s e) !! k = Some a ↔
  alerts s !! k = Some a ∨ (alerts s !! k = None ∧ alert_event e k a).
Proof.
  unfold parseQLog_event, alert_event. destruct (which e) as [thumb|cs|] eqn:Hw.
  - destruct (loadFromData _ _); simpl; split; [by left | | by left |];
      intros [H | (_ & cs & [=] & _)]; done.
  - destruct (_ && _) eqn:Htest.
    + apply stores_alert_test in Htest. simpl. rewrite lookup_emplace.
      destruct (alerts s !! k) as [a'|] eqn:Hk.
      * split; [by left | by intros [? | [[=] _]]].
      * case_decide as Hkk; split.
        -- intros [= <-]. right. split; [done|]. by exists cs.
        -- intros [[=] | (_ & cs' & [= <-] & _ & _ & ->)]. done.
        -- done.
        -- intros [[=] | (_ & cs' & _ & _ & ? & _)]. done.
    + split; [by left|]. intros [H | (_ & cs' & [= <-] & Hs & _)]; [done|].
      apply stores_alert_test in Hs. congruence.
  - split; [by left|]. by intros [H | (_ & cs & [=] & _)].
Qed.

Lemma parseQLog_event_keeps_alert s e k a :
  alerts s !! k = Some a → alerts (parseQLog_event s e) !! k = Some a.
Proof. intros H. apply parseQLog_event_alert_lookup. by left. Qed.

(** All events of a schedule: the alerts afterwards. *)
Lemma parseQLog_alert_lookup sched : ∀ s k a,
  alerts (foldl parseQLog_event s sched) !! k = Some a →
  alerts s !! k = Some a ∨ (alerts s !! k = None ∧ ∃ e, e ∈ sched ∧ alert_event e k a).
Proof.
  induction sched as [|e sched IH]; intros s k a; simpl; [by left|].
  intros H. apply IH in H as [H | (Hnone & e' & He' & Ha)].
  - apply parseQLog_event_alert_lookup in H as [H | (Hnone & Ha)]; [by left|].
    right. split; [done|]. exists e. split; [left | done].
  - right. split.
    + destruct (alerts s !! k) as [a'|] eqn:Hk; [|done].
      by rewrite (parseQLog_event_keeps_alert s e k a' Hk) in Hnone.
    + exists e'. split; [by right | done].
Qed.

Lemma parseQLog_keeps_alert sched : ∀ s k a,
  alerts s !! k = Some a → alerts (foldl parseQLog_event s sched) !! k = Some a.
Proof.
  induction sched as [|e sched IH]; intros s k a H; simpl; [done|].
  by apply IH, parseQLog_event_keeps_alert.
Qed.

Lemma parseQLog_alert_stored sched : ∀ s e k a,
  e ∈ sched → alert_event e k a → is_Some (alerts (foldl parseQLog_event s sched) !! k).
Proof.
  induction sched as [|e0 sched IH]; intros s e k a He Ha; [by apply elem_of_nil in He|].
  simpl. apply elem_of_cons in He as [-> | He]; [|by eapply IH].
  destruct (alerts s !! k) as [a'|] eqn:Hk.
  - exists a'. by apply parseQLog_keeps_alert, parseQLog_event_keeps_alert.
  - exists a. apply parseQLog_keeps_alert, parseQLog_event_alert_lookup. by right.
Qed.

Lemma parseQLog_alert_keys sched s k :
  is_Some (alerts (foldl parseQLog_event s sched) !! k) ↔
  is_Some (alerts s !! k) ∨ ∃ e a, e ∈ sched ∧ alert_event e k a.
Proof.
  split.
  - intros [a H]. apply parseQLog_alert_lookup in H as [H | (_ & e & He & Ha)]; eauto.
  - intros [[a H] | (e & a & He & Ha)].
    + exists a. by apply parseQLog_keeps_alert.
    + by eapply parseQLog_alert_stored.
Qed.

Lemma alert_event_nonblank e k a :
  text1_kept e → alert_event e k a → text1 a ≠ "".
Proof.
  intros Hk (cs & Hw & (_ & H & _) & _ & ->). simpl. by apply Hk.
Qed.

Lemma parseQLog_nonblank sched s :
  Forall text1_kept sched →
  alerts_nonblank (alerts s) → alerts_nonblank (alerts (foldl parseQLog_event s sched)).
Proof.
  intros Hkept Hinv k a H. apply parseQLog_alert_lookup in H as [H | (_ & e & He & Ha)].
  - by eapply Hinv.
  - eapply alert_event_nonblank; [|done]. by eapply Forall_forall in Hkept.
Qed.

End ParseQLog.

(** The alert [alertInfo] returns is the default one or a stored one. *)
Lemma alertInfo_result can s t a :
  Slider_alertInfo can s t = Ok a →
  a = AlertInfo_default ∨ ∃ k, alerts s !! k = Some a.
Proof.
  unfold Slider_alertInfo. intros H. bind_inv H. injection H as <-.
  pose proof (lower_bound_spec (alerts s) a0) as Hlb.
  destruct (lower_bound (alerts s) a0) as [[k a]|]; [|by left].
  destruct Hlb as (Hk & _). destruct (Double.leb _ _); [right; eauto | by left].
Qed.

(** Only [parseQLog] writes the two maps. *)

Section StoredFrame.
Context {tk : Toolkit}.

Lemma setCurrentSecond_stored s sec s' sg :
  Slider_setCurrentSecond s sec = Ok (s', sg) → stored s' = stored s.
Proof.
  unfold Slider_setCurrentSecond. intros H. bind_inv H.
  destruct (QSlider_setValue _ _). by injection H as <- <-.
Qed.

Lemma setTimeRange_stored s min max s' sg :
  Slider_setTimeRange s min max = Ok (s', sg) → stored s' = stored s.
Proof.
  unfold Slider_setTimeRange. intros H. do 3 bind_inv H.
  destruct (QSlider_setRange _ _ _). by injection H as <- <-.
Qed.

Lemma mousePressEvent_stored s e s' sg :
  Slider_mousePressEvent s e = Ok (s', sg) → stored s' = stored s.
Proof.
  unfold Slider_mousePressEvent. destruct (QSlider_mousePressEvent _ _) as [q sg0].
  destruct (_ && _).
  - intros H. do 4 bind_inv H. destruct (QSlider_setValue _ _).
    by injection H as <- <-.
  - by intros [= <- <-].
Qed.

Lemma mouseMoveEvent_stored can s e s' sg :
  Slider_mouseMoveEvent can s e = Ok (s', sg) → stored s' = stored s.
Proof.
  unfold Slider_mouseMoveEvent. intros H. do 4 bind_inv H.
  destruct (QSlider_mouseMoveEvent _ _). by injection H as <- <-.
Qed.

Lemma event_stored s ty : stored (Slider_event s ty).1 = stored s.
Proof.
  unfold Slider_event.
  destruct (QSlider_event _ _) as [q sg] eqn:E. simpl. by destruct ty.
Qed.

Lemma on_slider_inv w f w' eff c' :
  on_slider w f = Ok (w', eff) → camera w' = Some c' →
  ∃ c sg, camera w = Some c ∧ f (slider c) = Ok (slider c', sg) ∧
          alert_label c' = alert_label c.
Proof.
  unfold on_slider. destruct (camera w) as [c|] eqn:Hc.
  - intros H Hc'. bind_inv H. destruct a as [s sg].
    pose proof (deliver_all_keeps (CameraPart_with_slider c s) sg) as (Hs & Hl & _).
    destruct (deliver_all _ sg) as [c1 eff1]. injection H as <- <-.
    simpl in *. injection Hc' as <-. exists c, sg. rewrite Hs. done.
  - intros [= <- <-] Hc'. congruence.
Qed.

Lemma with_delivery_inv r w' eff c' :
  with_delivery r = Ok (w', eff) → camera w' = Some c' →
  ∃ w0 sg c0, r = Ok (w0, sg) ∧ camera w0 = Some c0 ∧
              slider c' = slider c0 ∧ alert_label c' = alert_label c0.
Proof.
  unfold with_delivery. intros H Hc'. bind_inv H. destruct a as [w0 sg].
  destruct (camera w0) as [c0|] eqn:Hc0.
  - pose proof (deliver_all_keeps c0 sg) as (Hs & Hl & _).
    destruct (deliver_all c0 sg) as [c1 eff1]. injection H as <- <-.
    simpl in *. injection Hc' as <-. by exists w0, sg, c0.
  - injection H as <- <-. congruence.
Qed.

Lemma updateState_inv can w w' eff c' :
  VideoWidget_updateState can w = Ok (w', eff) → camera w' = Some c' →
  ∃ c, camera w = Some c ∧ stored (slider c') = stored (slider c).
Proof.
  unfold VideoWidget_updateState. destruct (camera w) as [c|]; [|discriminate].
  intros H Hc'. bind_inv H. destruct a as [s sg].
  pose proof (deliver_all_keeps (CameraPart_with_slider c s) sg) as (Hs & _).
  destruct (deliver_all _ sg) as [c1 eff1]. bind_inv H. injection H as <- <-.
  simpl in *. injection Hc' as <-. exists c. split; [done|]. simpl. rewrite Hs.
  destruct (isSliderDown _); simpl in E.
  - by injection E as <- <-.
  - by eapply setCurrentSecond_stored.
Qed.

Lemma setMaximumTime_signals_inv w sec w' sg c' :
  VideoWidget_setMaximumTime_signals w sec = Ok (w', sg) → camera w' = Some c' →
  ∃ c, camera w = Some c ∧ stored (slider c') = stored (slider c).
Proof.
  unfold VideoWidget_setMaximumTime_signals. simpl.
  destruct (camera w) as [c|]; [|discriminate]. intros H Hc'. bind_inv H.
  destruct a as [s sg']. injection H as <- <-. simpl in Hc'. injection Hc' as <-.
  exists c. split; [done|]. by eapply setTimeRange_stored.
Qed.

Lemma updateTimeRange_inv can w min max z w' eff c' :
  VideoWidget_updateTimeRange can w min max z = Ok (w', eff) → camera w' = Some c' →
  ∃ c, camera w = Some c ∧ stored (slider c') = stored (slider c).
Proof.
  unfold VideoWidget_updateTimeRange. destruct (liveStreaming can).
  - destruct (skip_to_end_btn w); [|discriminate]. intros [= <- <-] Hc'. simpl in Hc'. eauto.
  - destruct (camera w) as [c|]; [|discriminate]. intros H Hc'.
    apply with_delivery_inv with (c' := c') in H as (w0 & sg & c0 & H & Hc0 & Hs & _); [|done].
    bind_inv H. destruct a as [s sg']. injection H as <- <-. simpl in Hc0.
    injection Hc0 as <-. exists c. split; [done|]. unfold stored. rewrite Hs. simpl.
    by eapply setTimeRange_stored.
Qed.

(** After any event but a loaded qlog the maps are as before; a loaded
    qlog runs the lambda of [parseQLog] over its schedule. *)
Lemma handle_stored can w ev w' eff c' :
  handle can w ev = Ok (w', eff) → camera w' = Some c' →
  ∃ c, camera w = Some c ∧
    (stored (slider c') = stored (slider c)
     ∨ ∃ segnum qlog sched, ev = QLogLoaded segnum qlog sched ∧
         slider c' = foldl parseQLog_event (slider c) sched).
Proof.
  intros H Hc'.
  assert (Hsame : ∀ c, camera w = Some c → stored (slider c') = stored (slider c) →
            ∃ c, camera w = Some c ∧
              (stored (slider c') = stored (slider c)
               ∨ ∃ segnum qlog sched, ev = QLogLoaded segnum qlog sched ∧
                   slider c' = foldl parseQLog_event (slider c) sched)) by eauto.
  destruct ev; simpl in H.
  - injection H as <- <-. eauto.
  - assert (w' = w) as -> by (destruct (camera w); by injection H as <- _). eauto.
  - assert (camera w' = camera w) as Hcw.
    { destruct (skip_to_end_btn w) as [b0|]; [|by injection H as <- _].
      destruct (btn_enabled b0); [|by injection H as <- _].
      unfold click_speed_btn in H. destruct (speed_btns w !! 2%nat) as [[b sp]|];
        by injection H as <- _. }
    rewrite Hcw in Hc'. eauto.
  - unfold click_speed_btn in H. destruct (speed_btns w !! i) as [[b sp]|];
      injection H as <- <-; simpl in Hc'; eauto.
  - injection H as <- <-. simpl in Hc'. eauto.
  - injection H as <- <-. simpl in Hc'. eauto.
  - injection H as <- <-. simpl in Hc'. eauto.
  - destruct (camera w) as [c1|] eqn:Hc in H; [|injection H as <- <-; congruence].
    apply updateState_inv with (c' := c') in H as (c & Hc0 & Hs); [|done].
    exists c. split; [congruence | by left].
  - apply on_slider_inv with (c' := c') in H as (c & sg & Hc & Hf & _); [|done].
    exists c. split; [done|]. right. exists segnum, qlog, schedule. split; [done|].
    unfold Slider_parseQLog in Hf. by injection Hf as <- _.
  - destruct (camera w) as [c1|] eqn:Hc in H; [|injection H as <- <-; congruence].
    unfold VideoWidget_setMaximumTime in H.
    apply with_delivery_inv with (c' := c') in H as (w0 & sg & c0 & H & Hc0 & Hs & _); [|done].
    apply setMaximumTime_signals_inv with (c' := c0) in H as (c & Hcw & Hst); [|done].
    exists c. split; [congruence|]. left. unfold stored in *. by rewrite Hs.
  - apply updateTimeRange_inv with (c' := c') in H; [|done].
    destruct H as (c & Hc & Hs). eauto.
  - apply on_slider_inv with (c' := c') in H as (c & sg & Hc & Hf & _); [|done].
    exists c. split; [done|]. left. by eapply mousePressEvent_stored.
  - apply on_slider_inv with (c' := c') in H as (c & sg & Hc & Hf & _); [|done].
    exists c. split; [done|]. left. by eapply mouseMoveEvent_stored.
  - apply on_slider_inv with (c' := c') in H as (c & sg & Hc & Hf & _); [|done].
    exists c. split; [done|]. left.
    destruct (QSlider_mouseReleaseEvent _ _). by injection Hf as <- _.
  - apply on_slider_inv with (c' := c') in H as (c & sg & Hc & Hf & _); [|done].
    exists c. split; [done|]. left. injection Hf as Hf.
    pose proof (event_stored (slider c) ty) as He. by rewrite Hf in He.
  - apply on_slider_inv with (c' := c') in H as (c & sg & Hc & Hf & _); [|done].
    exists c. split; [done|]. left. by injection Hf as <- _.
Qed.

Lemma new_camera_stored can w c :
  VideoWidget_new can = Ok w → camera w = Some c → stored (slider c) = (∅, ∅).
Proof.
  unfold VideoWidget_new. intros H Hc. bind_inv H. injection H as <-.
  simpl in Hc.
  assert (Ha : camera a = Some c) by (by destruct (liveStreaming can)).
  clear Hc. destruct (liveStreaming can); simpl in E.
  - injection E as <-. discriminate.
  - unfold createCameraWidget in E. bind_inv E. destruct a0 as [w1 sg].
    injection E as <-.
    apply setMaximumTime_signals_inv with (c' := c) in E0 as (c0 & Hc0 & Hs); [|done].
    simpl in Hc0. injection Hc0 as <-. by rewrite Hs.
Qed.

End StoredFrame.

Section ParseQLogClaims.
Context {tk : Toolkit}.

(** One event: the thumbnails afterwards. *)
Lemma parseQLog_event_thumbnail_lookup s e k pm :
  thumbnails (parseQLog_event s e) !! k = Some pm →
  thumbnails s !! k = Some pm ∨ thumbnail_event e k pm.
Proof.
  unfold parseQLog_event, thumbnail_event. destruct (which e) as [thumb|cs|] eqn:Hw.
  - destruct (loadFromData _ _) as [img|] eqn:Hl; [|by left].
    simpl. rewrite lookup_insert. case_decide as Hk.
    + intros [= <-]. right. by exists thumb, img.
    + by left.
  - destruct (_ && _); by left.
  - by left.
Qed.

Lemma parseQLog_thumbnail_lookup sched : ∀ s k pm,
  thumbnails (foldl parseQLog_event s sched) !! k = Some pm →
  thumbnails s !! k = Some pm ∨ ∃ e, e ∈ sched ∧ thumbnail_event e k pm.
Proof.
  induction sched as [|e sched IH]; intros s k pm; simpl; [by left|].
  intros H. apply IH in H as [H | (e' & He' & Ht)].
  - apply parseQLog_event_thumbnail_lookup in H as [H | Ht]; [by left|].
    right. exists e. split; [left | done].
  - right. exists e'. split; [by right | done].
Qed.

Lemma parseQLog_event_widget s e :
  qslider (parseQLog_event s e) = qslider s ∧
  thumbnail_label (parseQLog_event s e) = thumbnail_label s.
Proof.
  unfold parseQLog_event. destruct (which e).
  - by destruct (loadFromData _ _).
  - by destruct (_ && _).
  - done.
Qed.

Lemma parseQLog_widget sched : ∀ s,
  qslider (foldl parseQLog_event s sched) = qslider s ∧
  thumbnail_label (foldl parseQLog_event s sched) = thumbnail_label s.
Proof.
  induction sched as [|e sched IH]; intros s; simpl; [done|].
  destruct (IH (parseQLog_event s e)) as [-> ->]. apply parseQLog_event_widget.
Qed.

Lemma parseQLog_thumbnails_nonnull sched s :
  scaling_keeps_image → thumbnails_nonnull (thumbnails s) →
  thumbnails_nonnull (thumbnails (foldl parseQLog_event s sched)).
Proof.
  intros Hsc Hinv k pm H.
  apply parseQLog_thumbnail_lookup in H as [H | (e & _ & thumb & img & _ & _ & _ & ->)].
  - by eapply Hinv.
  - apply Hsc. unfold MIN_VIDEO_HEIGHT, THUMBNAIL_MARGIN. lia.
Qed.

Lemma reachable_thumbnails_nonnull w c :
  scaling_keeps_image → reachable w → camera w = Some c →
  thumbnails_nonnull (thumbnails (slider c)).
Proof.
  intros Hsc Hr. revert c.
  induction Hr as [can w Hnew | can w ev w' eff _ IH Hstep]; intros c Hc.
  - pose proof (new_camera_stored can w c Hnew Hc) as Hs.
    unfold stored in Hs. injection Hs as Ht _. rewrite Ht.
    intros k a Hk. by rewrite lookup_empty in Hk.
  - apply handle_stored with (c' := c) in Hstep as (c0 & Hc0 & Hs); [|done].
    specialize (IH c0 Hc0).
    destruct Hs as [Hs | (segnum & qlog & sched & _ & ->)].
    + unfold stored in Hs. injection Hs as -> _. done.
    + by apply parseQLog_thumbnails_nonnull.
Qed.

Lemma parseQLog_uint64_keys sched s :
  Forall (fun e => 0 ≤ mono_time e < UInt64.modulus) sched →
  uint64_keys (alerts s) → uint64_keys (alerts (foldl parseQLog_event s sched)).
Proof.
  intros Hall Hinv k [a H].
  apply parseQLog_alert_lookup in H as [H | (_ & e & He & cs & _ & _ & <- & _)].
  - apply Hinv. by exists a.
  - rewrite Forall_forall in Hall. by apply Hall.
Qed.

End ParseQLogClaims.



Section ThumbnailsStored.
Context {tk : Toolkit}.





End ThumbnailsStored.

Section ParseQLogTheorems.
Context {tk : Toolkit}.

(** The alerts of a processed qlog, in whatever order the events are
    scheduled: the keys afterwards are the keys before and the times of
    the CONTROLS_STATE events whose alertType and alertText1 are not empty
    and whose alertSize is not NONE; a new entry holds the status and the
    texts, as C strings, of such an event.  When no first text of the log
    begins with the byte 0, no stored alert has an empty first text
    afterwards, and an alert that [alertInfo] returns is then the default
    one or one that [showAlert] shows with its text; [showAlert] never
    leaves a blank overlay visible. *)
Lemma parseQLog_alert_map can s segnum qlog schedule :
  schedule ≡ₚ events qlog →
  let s' := (Slider_parseQLog can s segnum qlog schedule).1 in
  (∀ k, is_Some (alerts s' !! k) ↔
        is_Some (alerts s !! k) ∨ ∃ e a, e ∈ events qlog ∧ alert_event e k a) ∧
  (∀ k a, alerts s' !! k = Some a →
          alerts s !! k = Some a
          ∨ (alerts s !! k = None ∧ ∃ e, e ∈ events qlog ∧ alert_event e k a)) ∧
  (Forall text1_kept (events qlog) →
   alerts_nonblank (alerts s) → alerts_nonblank (alerts s')) ∧
  (alerts_nonblank (alerts s') → ∀ t a l,
     Slider_alertInfo can s' t = Ok a →
     a = AlertInfo_default
     ∨ (text1 a ≠ "" ∧ label_visible (InfoLabel_showAlert l a) = true ∧
        InfoLabel_paintEvent (InfoLabel_showAlert l a) ≠ [])) ∧
  (∀ a l, ¬ (label_visible (InfoLabel_showAlert l a) = true ∧ text1 a = "")).
Proof.
  intros Hperm s'. subst s'. simpl.
  split; [|split; [|split; [|split]]].
  - intros k. rewrite parseQLog_alert_keys.
    split; (intros [H | (e & a & He & Ha)]; [by left | right; exists e, a]);
      (split; [|done]); [by rewrite <- Hperm | by rewrite Hperm].
  - intros k a H. apply parseQLog_alert_lookup in H as [H | (Hn & e & He & Ha)];
      [by left | right]. split; [done|]. exists e. by rewrite <- Hperm.
  - intros Hkept. apply parseQLog_nonblank. by rewrite Hperm.
  - intros Hinv t a l Ha. apply alertInfo_result in Ha as [-> | [k Hk]]; [by left|].
    right. pose proof (Hinv k a Hk) as Hne. split; [done|].
    simpl. destruct (text1 a) eqn:Ht; [congruence|]. simpl. split; [done|].
    unfold InfoLabel_paintEvent. simpl. rewrite Ht. simpl. discriminate.
  - intros a l [Hv He]. simpl in Hv. by rewrite He in Hv.
Qed.


End ParseQLogTheorems.

(** ** Order facts on doubles *)

Lemma SFcompare_nan_free a b :
  Double.is_nan a = false → Double.is_nan b = false → is_Some (SFcompare a b).
Proof. destruct a, b; simpl; try discriminate; eauto. Qed.

Lemma SFcompare_antisym a b c :
  SFcompare a b = Some c → SFcompare b a = Some (CompOpp c).
Proof.
  destruct a as [sa|sa| |sa ma ea], b as [sb|sb| |sb mb eb]; simpl;
    try discriminate; try (intros [= <-]; by repeat case_match).
  intros [= <-]. f_equal.
  destruct sa, sb; try reflexivity.
  - rewrite (Z.compare_antisym ea eb).
    destruct (ea ?= eb) eqn:He; simpl; try reflexivity.
    rewrite (Pos.compare_cont_antisym ma mb Eq). simpl.
    by destruct (Pos.compare_cont Eq ma mb).
  - rewrite (Z.compare_antisym ea eb).
    destruct (ea ?= eb) eqn:He; simpl; try reflexivity.
    rewrite (Pos.compare_cont_antisym ma mb Eq). simpl. reflexivity.
Qed.

Lemma SFcompare_refl a : Double.is_nan a = false → SFcompare a a = Some Eq.
Proof.
  destruct a as [[]|[]| |[] m e]; simpl; try discriminate; try reflexivity;
    intros _; rewrite Z.compare_refl, Pos.compare_cont_refl; reflexivity.
Qed.

Lemma ltb_leb a b : Double.ltb a b = true → Double.leb a b = true.
Proof.
  unfold Double.ltb, Double.leb, SFltb, SFleb.
  destruct (SFcompare a b) as [[]|]; done.
Qed.

Lemma leb_refl a : Double.is_nan a = false → Double.leb a a = true.
Proof. intros H. unfold Double.leb, SFleb. by rewrite SFcompare_refl. Qed.

Lemma not_ltb_leb a b :
  Double.is_nan a = false → Double.is_nan b = false →
  Double.ltb a b = false → Double.leb b a = true.
Proof.
  intros Ha Hb. destruct (SFcompare_nan_free a b Ha Hb) as [c Hc].
  unfold Double.ltb, Double.leb, SFltb, SFleb.
  rewrite Hc, (SFcompare_antisym a b c Hc). by destruct c.
Qed.

(** ** The timeline *)

(** The two edges of a drawn segment lie between [min] and [max], and
    each is the end of the segment or the bound it is clamped to. *)
Lemma drawn_segment_clamped min max seg :
  segment_skipped min max seg = false →
  Double.is_nan min = false → Double.is_nan max = false →
  Double.is_nan seg.1.1 = false → Double.is_nan seg.1.2 = false →
  Double.leb min max = true →
  let l := Double.max min seg.1.1 in
  let r := Double.min max seg.1.2 in
  Double.leb min l = true ∧ Double.leb l max = true ∧
  l = (if Double.ltb min seg.1.1 then seg.1.1 else min) ∧
  Double.leb min r = true ∧ Double.leb r max = true ∧
  r = (if Double.ltb seg.1.2 max then seg.1.2 else max).
Proof.
  destruct seg as [[b e] ty]. unfold segment_skipped. simpl.
  intros Hs Hmin Hmax Hb He Hle. apply orb_false_iff in Hs as [Hs1 Hs2].
  unfold Double.max, Double.min.
  destruct (Double.ltb min b) eqn:H1, (Double.ltb e max) eqn:H2;
    repeat split; auto using ltb_leb, leb_refl, not_ltb_leb.
Qed.

Lemma mapM_result_cons {A B} (f : A → result B) x l :
  mapM f (x :: l) = (y ← f x; k ← mapM f l; Ok (y :: k)).
Proof. reflexivity. Qed.

Lemma segment_fill_unfold bar min max w b e ty :
  segment_fill bar min max w (b, e, ty)
  = (l ← map_to_width min max w (Double.max min b);
     r ← map_to_width min max w (Double.min max e);
     Ok (FillRect {| x1 := l; y1 := y1 bar; x2 := r; y2 := y2 bar |} (timeline_colors ty))).
Proof. reflexivity. Qed.

Lemma paint_timeline_described bar min max w tl : ∀ r ops,
  y1 r = y1 bar → y2 r = y2 bar →
  (st ← paint_timeline min max w (r, ops) tl; Ok st.2)
  = (fills ← described_timeline bar min max w tl; Ok (ops ++ fills)).
Proof.
  unfold described_timeline.
  induction tl as [|seg tl IH]; intros r ops Hy1 Hy2.
  - simpl. by rewrite app_nil_r.
  - destruct seg as [[b e] ty]. simpl paint_timeline. unfold paint_segment.
    rewrite filter_cons. case_decide as Hskip; unfold segment_skipped in Hskip;
      simpl in Hskip.
    + rewrite Hskip, mapM_result_cons, segment_fill_unfold.
      change (Double.to_int
                (Double.mul (Double.div (Double.sub (Double.max min b) min) (Double.sub max min))
                            (Double.of_Z w)))
        with (map_to_width min max w (Double.max min b)).
      change (Double.to_int
                (Double.mul (Double.div (Double.sub (Double.min max e) min) (Double.sub max min))
                            (Double.of_Z w)))
        with (map_to_width min max w (Double.min max e)).
      destruct (map_to_width min max w (Double.max min b)) as [l| |]; [|reflexivity..].
      destruct (map_to_width min max w (Double.min max e)) as [rt| |]; [|reflexivity..].
      change (?m ≫= ?f) with (mbind f m). cbn [mbind result_bind].
      specialize (IH (QRect_setRight (QRect_setLeft r l) rt)
                     (ops ++ [FillRect (QRect_setRight (QRect_setLeft r l) rt)
                                       (timeline_colors ty)]) Hy1 Hy2).
      cbn [mbind result_bind] in IH. rewrite IH.
      unfold QRect_setRight, QRect_setLeft. simpl x1. simpl y1. simpl x2. simpl y2.
      rewrite Hy1, Hy2.
      destruct (mapM _ _) as [fills| |]; [|reflexivity..].
      cbn. by rewrite <- app_assoc.
    + apply not_false_is_true in Hskip. rewrite Hskip. by apply IH.
Qed.

(** C3. [paintEvent] fills the bar with the colour of [TimelineType::None],
    then, in order, a rectangle on the bar for every timeline segment that
    neither begins after [max] nor ends before [min], in the colour of its
    type, from its beginning to its end, both clamped to [min, max] and
    mapped proportionally onto the width; and draws the handle. *)
Theorem paintEvent_timeline can s :
  let q := qslider s in
  let bar := {| x1 := 0; y1 := 4; x2 := width q - 1; y2 := height q - 5 |} in
  let min := Double.div (Double.of_Z (minimum q)) factor in
  let max := Double.div (Double.of_Z (maximum q)) factor in
  Slider_paintEvent can s
  = (fills ← described_timeline bar min max (width q) (getTimeline can);
     Ok (FillRect bar (timeline_colors TL_None) :: fills
         ++ [DrawSliderHandle (minimum q) (maximum q) (value q)])) ∧
  (∀ seg, segment_skipped min max seg = true ↔
          (Double.ltb max seg.1.1 = true ∨ Double.ltb seg.1.2 min = true)) ∧
  (∀ seg, segment_skipped min max seg = false →
     Double.is_nan min = false → Double.is_nan max = false →
     Double.is_nan seg.1.1 = false → Double.is_nan seg.1.2 = false →
     Double.leb min max = true →
     let l := Double.max min seg.1.1 in
     let r := Double.min max seg.1.2 in
     Double.leb min l = true ∧ Double.leb l max = true ∧
     l = (if Double.ltb min seg.1.1 then seg.1.1 else min) ∧
     Double.leb min r = true ∧ Double.leb r max = true ∧
     r = (if Double.ltb seg.1.2 max then seg.1.2 else max)) ∧
  map timeline_colors
    [TL_None; TL_Engaged; TL_UserFlag; TL_AlertInfo; TL_AlertWarning; TL_AlertCritical]
  = [ {| red := 111; green := 143; blue := 175; alphaF := Double.one |};
      {| red := 0; green := 163; blue := 108; alphaF := Double.one |};
      {| red := 255; green := 0; blue := 255; alphaF := Double.one |};
      {| red := 0; green := 255; blue := 0; alphaF := Double.one |};
      {| red := 255; green := 195; blue := 0; alphaF := Double.one |};
      {| red := 199; green := 0; blue := 57; alphaF := Double.one |} ].
Proof.
  intros q bar min max. split; [|split; [|split]].
  - unfold Slider_paintEvent. fold q. fold min. fold max.
    change (QRect_adjusted (QSlider_rect q) 0 4 0 (-4))
      with {| x1 := 0 + 0; y1 := 0 + 4; x2 := width q - 1 + 0; y2 := height q - 1 + -4 |}.
    replace (0 + 0) with 0 by lia. replace (0 + 4) with 4 by lia.
    replace (width q - 1 + 0) with (width q - 1) by lia.
    replace (height q - 1 + -4) with (height q - 5) by lia. fold bar.
    pose proof (paint_timeline_described bar min max (width q) (getTimeline can)
                  bar [FillRect bar (timeline_colors TL_None)] eq_refl eq_refl) as H.
    destruct (paint_timeline _ _ _ _ _) as [[r ops]| |];
      destruct (described_timeline _ _ _ _ _) as [fills| |]; simpl in *; try done.
    injection H as ->. done.
  - intros seg. unfold segment_skipped. apply orb_true_iff.
  - apply drawn_segment_clamped.
  - reflexivity.
Qed.

Example paintEvent_sample :
  Slider_paintEvent sample_can sample_slider
  = Ok [FillRect {| x1 := 0; y1 := 4; x2 := 599; y2 := 25 |} (timeline_colors TL_None);
        FillRect {| x1 := 100; y1 := 4; x2 := 200; y2 := 25 |} (timeline_colors TL_Engaged);
        FillRect {| x1 := 500; y1 := 4; x2 := 600; y2 := 25 |} (timeline_colors TL_AlertCritical);
        DrawSliderHandle 0 60000 0].
Proof. reflexivity. Qed.

(** ** The preview on hover *)

Lemma clamp_Ok v lo hi r :
  Int.clamp v lo hi = Ok r → lo ≤ hi ∧ r = Z.max lo (Z.min hi v).
Proof.
  unfold Int.clamp. destruct (Z.ltb_spec hi lo); [discriminate|].
  intros [= <-]. split; [done|].
  destruct (Z.ltb_spec v lo); [lia|]. destruct (Z.ltb_spec hi v); lia.
Qed.

Lemma checked_Ok z r : Int.checked z = Ok r → r = z.
Proof. unfold Int.checked. destruct (Int.in_range z); [by intros [= <-] | discriminate]. Qed.

Lemma preview_point_Ok q pos thumb pt :
  preview_point q pos thumb = Ok pt →
  py pt = - QPixmap_height thumb ∧
  THUMBNAIL_MARGIN ≤ px pt ≤ width q - 1 - QPixmap_width thumb - THUMBNAIL_MARGIN ∧
  px pt = Z.max THUMBNAIL_MARGIN
            (Z.min (width q - 1 - QPixmap_width thumb - THUMBNAIL_MARGIN)
                   (pos - Z.quot (QPixmap_width thumb) 2)).
Proof.
  unfold preview_point. intros H. do 6 bind_inv H. injection H as <-. simpl.
  unfold Int.div in E. simpl in E.
  apply checked_Ok in E. apply checked_Ok in E0. apply checked_Ok in E1.
  apply checked_Ok in E2. apply checked_Ok in E4.
  apply clamp_Ok in E3 as [Hle ->]. simpl in E1. subst. lia.
Qed.

Lemma thumbnail_result can s t mono :
  mono_time_of can t = Ok mono →
  ∃ thumb, Slider_thumbnail can s t = Ok thumb ∧
    (QPixmap_isNull thumb = false →
     ∃ k, thumbnails s !! k = Some thumb ∧ mono ≤ k ∧
          ∀ k', is_Some (thumbnails s !! k') → mono ≤ k' → k ≤ k') ∧
    (thumbnails_nonnull (thumbnails s) →
     (QPixmap_isNull thumb = false ↔ ∃ k, is_Some (thumbnails s !! k) ∧ mono ≤ k)).
Proof.
  intros Hm. unfold Slider_thumbnail. rewrite Hm. simpl.
  pose proof (lower_bound_spec (thumbnails s) mono) as Hlb.
  destruct (lower_bound (thumbnails s) mono) as [[k pm]|]; simpl in Hlb.
  - destruct Hlb as (Hk & Hle & Hmin). exists pm. split; [done|]. split.
    + intros _. by exists k.
    + intros Hinv. split; [intros _; exists k; eauto | intros _; by eapply Hinv].
  - exists NullPixmap. split; [done|]. split; [done|].
    intros _. split; [done|]. intros (k & Hk & Hle). specialize (Hlb k Hk). lia.
Qed.

Section Hover.
Context {tk : Toolkit}.

(** The preview where it is defined.  On a mouse move at horizontal
    position [x], with [pos] that
    position clamped to [0, width], the hover time is
    [(minimum + pos * ((maximum - minimum) / width)) / factor] in [double]
    arithmetic.  [thumbnail] of that time is the stored thumbnail with the
    least timestamp at or after it, or the null pixmap when there is none;
    no stored thumbnail is null in a widget the program reaches, as long
    as the toolkit's scaling keeps the image.  When the thumbnail is null
    the preview label is hidden; otherwise the label is shown with that
    thumbnail, the formatted hover time and [alertInfo] of the hover time,
    its bottom edge on the top edge of the slider. *)
Lemma mouseMoveEvent_preview can s e pos seconds mono :
  let q := qslider s in
  Int.clamp (ev_x e) 0 (width q) = Ok pos →
  hover_seconds q pos = Ok seconds →
  mono_time_of can seconds = Ok mono →
  pos = Z.max 0 (Z.min (width q) (ev_x e)) ∧
  seconds = Double.div
              (Double.add (Double.of_Z (minimum q))
                 (Double.mul (Double.of_Z pos)
                    (Double.div (Double.of_Z (maximum q - minimum q))
                                (Double.of_Z (width q)))))
              factor ∧
  ∃ thumb alert,
    Slider_thumbnail can s seconds = Ok thumb ∧
    Slider_alertInfo can s seconds = Ok alert ∧
    (QPixmap_isNull thumb = false →
     ∃ k, thumbnails s !! k = Some thumb ∧ mono ≤ k ∧
          ∀ k', is_Some (thumbnails s !! k') → mono ≤ k' → k ≤ k') ∧
    (thumbnails_nonnull (thumbnails s) →
     (QPixmap_isNull thumb = false ↔ ∃ k, is_Some (thumbnails s !! k) ∧ mono ≤ k)) ∧
    (scaling_keeps_image → ∀ w c, reachable w → camera w = Some c →
     thumbnails_nonnull (thumbnails (slider c))) ∧
    (QPixmap_isNull thumb = true →
     ∃ s' sg, Slider_mouseMoveEvent can s e = Ok (s', sg) ∧
       thumbnail_label s' = InfoLabel_hide (thumbnail_label s) ∧
       label_visible (thumbnail_label s') = false) ∧
    (QPixmap_isNull thumb = false →
     ∀ pt, preview_point q pos thumb = Ok pt →
     ∃ s' sg, Slider_mouseMoveEvent can s e = Ok (s', sg) ∧
       let l := thumbnail_label s' in
       label_visible l = true ∧ pixmap l = thumb ∧
       second l = formatSeconds seconds ∧ alert_info l = alert ∧
       label_size l = QPixmap_size thumb ∧
       label_pos l = {| px := px pt + px (geom_pos q);
                        py := py (geom_pos q) - QPixmap_height thumb |} ∧
       py (label_pos l) + size_h (label_size l) = py (geom_pos q) ∧
       THUMBNAIL_MARGIN ≤ px pt ≤ width q - 1 - QPixmap_width thumb - THUMBNAIL_MARGIN).
Proof.
  intros q Hpos Hsec Hm.
  pose proof (clamp_Ok _ _ _ _ Hpos) as [Hw ->]. split; [done|].
  assert (Hs : seconds = Double.div
              (Double.add (Double.of_Z (minimum q))
                 (Double.mul (Double.of_Z (Z.max 0 (Z.min (width q) (ev_x e))))
                    (Double.div (Double.of_Z (maximum q - minimum q))
                                (Double.of_Z (width q)))))
              factor).
  { unfold hover_seconds in Hsec. bind_inv Hsec. apply checked_Ok in E. subst a.
    by injection Hsec as <-. }
  split; [exact Hs|].
  destruct (thumbnail_result can s seconds mono Hm) as (thumb & Ht & Hnn & Hiff).
  destruct (alertInfo_defined can s seconds mono Hm) as [alert Ha].
  exists thumb, alert. split; [done|]. split; [done|]. split; [done|]. split; [done|].
  split; [intros Hsc w c; by apply reachable_thumbnails_nonnull|].
  split.
  - intros Hnull. unfold Slider_mouseMoveEvent. fold q. rewrite Hpos. simpl.
    rewrite Hsec. simpl. rewrite Ht. simpl. rewrite Hnull. simpl.
    destruct (QSlider_mouseMoveEvent q e) as [q' sg]. eexists _, _. split; [done|]. done.
  - intros Hnull pt Hpt. unfold Slider_mouseMoveEvent. fold q. rewrite Hpos. simpl.
    rewrite Hsec. simpl. rewrite Ht. simpl. rewrite Hnull. simpl.
    rewrite Hpt. simpl. rewrite Ha. simpl.
    destruct (QSlider_mouseMoveEvent q e) as [q' sg]. eexists _, _. split; [done|].
    simpl. apply preview_point_Ok in Hpt as (Hy & Hx & _).
    unfold QSlider_mapToParent. rewrite Hy. repeat split; try done; try lia.
    f_equal. lia.
Qed.

End Hover.

(** ** Seeking *)

Section Seeking.
Context {tk : Toolkit}.

Lemma foldl_deliver_seek sgs : ∀ st sec,
  Call (seekTo sec) ∈ (foldl deliver st sgs).2 →
  Call (seekTo sec) ∈ st.2
  ∨ ∃ v, sliderReleased v ∈ sgs ∧ sec = Double.div (Double.of_Z v) factor.
Proof.
  induction sgs as [|sg sgs IH]; intros [c eff] sec; simpl; [by left|].
  intros H. apply IH in H as [H | (v & Hv & ->)].
  - destruct sg; simpl in H; [by left | | ].
    + apply elem_of_app in H as [H | H]; [by left|].
      apply list_elem_of_singleton in H. injection H as ->.
      right. exists v. split; [left | done].
    + apply elem_of_app in H as [H | H]; [by left|].
      apply list_elem_of_singleton in H. discriminate.
  - right. exists v. split; [by right | done].
Qed.

Lemma deliver_all_seek c sgs sec :
  Call (seekTo sec) ∈ (deliver_all c sgs).2 →
  ∃ v, sliderReleased v ∈ sgs ∧ sec = Double.div (Double.of_Z v) factor.
Proof.
  intros H. apply foldl_deliver_seek in H as [H | H]; [|done].
  by apply elem_of_nil in H.
Qed.

Lemma deliver_all_snoc_released c sgs v :
  (deliver_all c (sgs ++ [sliderReleased v])).2
  = (deliver_all c sgs).2 ++ [Call (seekTo (Double.div (Double.of_Z v) factor))].
Proof.
  unfold deliver_all. rewrite foldl_app. simpl.
  by destruct (foldl deliver (c, []) sgs).
Qed.

Lemma deliver_all_snoc_released_fst c sgs v :
  (deliver_all c (sgs ++ [sliderReleased v])).1 = (deliver_all c sgs).1.
Proof.
  unfold deliver_all. rewrite foldl_app. simpl.
  by destruct (foldl deliver (c, []) sgs).
Qed.

(** No signal of the slider's own range and value updates is
    [sliderReleased]. *)
Lemma setValue_signals q v x : sliderReleased x ∉ (QSlider_setValue q v).2.
Proof.
  unfold QSlider_setValue. destruct (_ =? _); simpl.
  - apply not_elem_of_nil.
  - intros H. apply list_elem_of_singleton in H. discriminate.
Qed.

Lemma setRange_signals q lo hi x : sliderReleased x ∉ (QSlider_setRange q lo hi).2.
Proof.
  unfold QSlider_setRange. destruct (_ && _); [apply not_elem_of_nil|].
  apply setValue_signals.
Qed.

Lemma setTimeRange_signals s min max s' sg x :
  Slider_setTimeRange s min max = Ok (s', sg) → sliderReleased x ∉ sg.
Proof.
  unfold Slider_setTimeRange. intros H. do 3 bind_inv H.
  pose proof (setRange_signals (qslider s) a0 a1 x) as Hn.
  destruct (QSlider_setRange _ _ _). by injection H as _ <-.
Qed.

Lemma setCurrentSecond_signals s sec s' sg x :
  Slider_setCurrentSecond s sec = Ok (s', sg) → sliderReleased x ∉ sg.
Proof.
  unfold Slider_setCurrentSecond. intros H. bind_inv H.
  pose proof (setValue_signals (qslider s) a x) as Hn.
  destruct (QSlider_setValue _ _). by injection H as _ <-.
Qed.

Lemma parseQLog_signals can s segnum qlog sched x :
  sliderReleased x ∉ (Slider_parseQLog can s segnum qlog sched).2.
Proof.
  unfold Slider_parseQLog. simpl.
  destruct (last (segments can)), (last (events qlog)); try apply not_elem_of_nil.
  destruct (_ =? _); [|apply not_elem_of_nil].
  intros H. apply list_elem_of_singleton in H. discriminate.
Qed.

Lemma on_slider_seek w f w' eff sec :
  on_slider w f = Ok (w', eff) → Call (seekTo sec) ∈ eff →
  ∃ c c' sg v, camera w = Some c ∧ camera w' = Some c' ∧
               f (slider c) = Ok (slider c', sg) ∧ sliderReleased v ∈ sg ∧
               sec = Double.div (Double.of_Z v) factor.
Proof.
  unfold on_slider. destruct (camera w) as [c|].
  - intros H Hin. bind_inv H. destruct a as [s sg].
    pose proof (deliver_all_seek (CameraPart_with_slider c s) sg sec) as Hd.
    pose proof (deliver_all_keeps (CameraPart_with_slider c s) sg) as (Hs & _).
    destruct (deliver_all _ sg) as [c1 eff1]. injection H as <- <-.
    destruct (Hd Hin) as (v & Hv & ->). exists c, c1, sg, v. simpl in Hs.
    rewrite Hs. done.
  - intros [= <- <-] Hin. by apply elem_of_nil in Hin.
Qed.

(** A signal of the base class is recorded with the value the handler
    leaves. *)
Lemma emitted_at_released q (sg : list QSignal) v :
  sliderReleased v ∈ emitted_at q <$> sg → v = value q.
Proof.
  intros H. apply list_elem_of_fmap in H as (g & Hg & _).
  destruct g; [discriminate | by injection Hg].
Qed.

Lemma foldl_deliver_emitted q (sg : list QSignal) : ∀ c eff,
  (foldl deliver (c, eff) (emitted_at q <$> sg)).2
  = eff ++ ((λ _, Call (seekTo (Double.div (Double.of_Z (value q)) factor)))
            <$> filter (λ g, g = QSliderReleased) sg).
Proof.
  induction sg as [|g sg IH]; intros c eff; [simpl; by rewrite app_nil_r|].
  rewrite fmap_cons, filter_cons. cbn [foldl]. destruct g.
  - rewrite decide_False by discriminate. cbn [emitted_at deliver]. by rewrite IH.
  - rewrite decide_True by done. cbn [emitted_at deliver]. rewrite IH, fmap_cons.
    by rewrite <- app_assoc.
Qed.

Lemma deliver_all_emitted c q (sg : list QSignal) :
  (deliver_all c (emitted_at q <$> sg)).2
  = (λ _, Call (seekTo (Double.div (Double.of_Z (value q)) factor)))
      <$> filter (λ g, g = QSliderReleased) sg.
Proof. unfold deliver_all. by rewrite foldl_deliver_emitted. Qed.

Lemma mousePressEvent_released s e s' sg v :
  Slider_mousePressEvent s e = Ok (s', sg) → sliderReleased v ∈ sg →
  v = value (qslider s') ∨ v = value (QSlider_mousePressEvent (qslider s) e).1.
Proof.
  unfold Slider_mousePressEvent. destruct (QSlider_mousePressEvent _ _) as [q sg0].
  simpl. destruct (_ && _).
  - intros H Hin. do 4 bind_inv H.
    pose proof (setValue_signals q a2 v) as Hn.
    destruct (QSlider_setValue _ _) as [q' sg1]. injection H as <- <-. simpl in *.
    apply elem_of_app in Hin as [Hin | Hin]; [right; by eapply emitted_at_released|].
    apply elem_of_app in Hin as [Hin | Hin]; [done|].
    apply list_elem_of_singleton in Hin. left. by injection Hin.
  - intros [= <- <-] Hin. left. simpl. by eapply emitted_at_released.
Qed.

Lemma mouseMoveEvent_released can s e s' sg v :
  Slider_mouseMoveEvent can s e = Ok (s', sg) → sliderReleased v ∈ sg →
  v = value (qslider s').
Proof.
  unfold Slider_mouseMoveEvent. intros H Hin. do 4 bind_inv H.
  destruct (QSlider_mouseMoveEvent _ _) as [q' sg']. injection H as <- <-.
  simpl. by eapply emitted_at_released.
Qed.

Lemma event_released s ty v :
  sliderReleased v ∈ (Slider_event s ty).2 → v = value (qslider (Slider_event s ty).1).
Proof.
  unfold Slider_event. destruct (QSlider_event _ _) as [q sg]. simpl.
  apply emitted_at_released.
Qed.

Lemma with_delivery_seek r w' eff sec :
  with_delivery r = Ok (w', eff) → Call (seekTo sec) ∈ eff →
  ∃ w0 sg v, r = Ok (w0, sg) ∧ sliderReleased v ∈ sg.
Proof.
  unfold with_delivery. intros H Hin. bind_inv H. destruct a as [w0 sg].
  destruct (camera w0) as [c|].
  - pose proof (deliver_all_seek c sg sec) as Hd.
    destruct (deliver_all c sg) as [c1 eff1]. injection H as <- <-.
    destruct (Hd Hin) as (v & Hv & _). by exists w0, sg, v.
  - injection H as <- <-. by apply elem_of_nil in Hin.
Qed.

Lemma click_speed_btn_no_seek w i sec : Call (seekTo sec) ∉ (click_speed_btn w i).2.
Proof.
  unfold click_speed_btn. destruct (speed_btns w !! i) as [[b sp]|]; simpl.
  - intros H. apply list_elem_of_singleton in H. discriminate.
  - apply not_elem_of_nil.
Qed.

(** Where a [seekTo] can come from: the skip-to-end button, when it is
    there and enabled, and the slider's release signal, which seeks to the
    second the slider shows when the signal is emitted. *)
Lemma handle_seek can w ev w' eff sec :
  handle can w ev = Ok (w', eff) → Call (seekTo sec) ∈ eff →
  (ev = SkipToEndClicked ∧
   (∃ b, skip_to_end_btn w = Some b ∧ btn_enabled b = true) ∧
   sec = Double.add (totalSeconds can) Double.one)
  ∨ (∃ c c', camera w = Some c ∧ camera w' = Some c' ∧
       ((∃ e, ev = SliderMousePress e ∧
              (sec = Slider_currentSecond (slider c')
               ∨ sec = Double.div
                         (Double.of_Z
                            (value (QSlider_mousePressEvent (qslider (slider c)) e).1))
                         factor))
        ∨ (((∃ e, ev = SliderMouseMove e) ∨ (∃ e, ev = SliderMouseRelease e) ∨
            (∃ ty, ev = SliderEvent ty)) ∧
           sec = Slider_currentSecond (slider c')))).
Proof.
  intros H Hin.
  assert (Hnil : ∀ x : Effect, x ∈ @nil Effect → False) by (intros x Hx; by apply elem_of_nil in Hx).
  assert (Hone : ∀ b, Call (seekTo sec) ∈ [Call (pause b)] → False).
  { intros b Hb. apply list_elem_of_singleton in Hb. discriminate. }
  destruct ev; simpl in H.
  - injection H as <- <-. by apply Hone in Hin.
  - destruct (camera w); injection H as <- <-; [by apply Hone in Hin | by apply Hnil in Hin].
  - left. destruct (skip_to_end_btn w) as [b|]; [|injection H as <- <-; by apply Hnil in Hin].
    destruct (btn_enabled b) eqn:Hen; [|injection H as <- <-; by apply Hnil in Hin].
    pose proof (click_speed_btn_no_seek w 2 sec) as Hc.
    destruct (click_speed_btn w 2) as [w1 eff1]. injection H as <- <-.
    split; [done|]. split; [by exists b|].
    apply elem_of_app in Hin as [Hin | Hin]; [done|].
    apply elem_of_cons in Hin as [[=] | Hin].
    apply list_elem_of_singleton in Hin. by injection Hin as ->.
  - injection H as H. pose proof (click_speed_btn_no_seek w i sec) as Hc.
    rewrite H in Hc. done.
  - injection H as <- <-. by apply Hnil in Hin.
  - injection H as <- <-. by apply Hnil in Hin.
  - injection H as <- <-. by apply Hnil in Hin.
  - exfalso. destruct (camera w) as [c1|] eqn:Hc in H; [|injection H as <- <-; by apply Hnil in Hin].
    unfold VideoWidget_updateState in H. rewrite Hc in H. bind_inv H.
    destruct a as [s sg].
    pose proof (deliver_all_seek (CameraPart_with_slider c1 s) sg sec) as Hd.
    destruct (deliver_all _ sg) as [c2 eff2]. bind_inv H. injection H as <- <-.
    destruct (Hd Hin) as (v & Hv & _).
    destruct (isSliderDown _); simpl in E.
    + injection E as <- <-. by apply elem_of_nil in Hv.
    + by eapply setCurrentSecond_signals.
  - exfalso. apply on_slider_seek with (sec := sec) in H
      as (c & c' & sg & v & _ & _ & Hf & Hv & _); [|done].
    pose proof (parseQLog_signals can (slider c) segnum qlog schedule v) as Hn.
    apply Hn. replace (Slider_parseQLog can (slider c) segnum qlog schedule)
      with (slider c', sg) by congruence. done.
  - exfalso. destruct (camera w) as [c1|] eqn:Hc in H; [|injection H as <- <-; by apply Hnil in Hin].
    unfold VideoWidget_setMaximumTime in H.
    apply with_delivery_seek with (sec := sec) in H as (w0 & sg & v & H & Hv); [|done].
    unfold VideoWidget_setMaximumTime_signals in H. simpl in H. rewrite Hc in H.
    bind_inv H. destruct a as [s sg']. injection H as _ <-.
    by eapply setTimeRange_signals.
  - exfalso. unfold VideoWidget_updateTimeRange in H. destruct (liveStreaming can).
    + destruct (skip_to_end_btn w); [|discriminate]. injection H as <- <-. by apply Hnil in Hin.
    + destruct (camera w) as [c1|]; [|discriminate].
      apply with_delivery_seek with (sec := sec) in H as (w0 & sg & v & H & Hv); [|done].
      bind_inv H. destruct a as [s sg']. injection H as _ <-.
      by eapply setTimeRange_signals.
  - right. apply on_slider_seek with (sec := sec) in H
      as (c & c' & sg & v & Hc & Hc' & Hf & Hv & ->); [|done].
    exists c, c'. split; [done|]. split; [done|]. left. exists e. split; [done|].
    unfold Slider_currentSecond.
    destruct (mousePressEvent_released _ _ _ _ _ Hf Hv) as [-> | ->]; [by left | by right].
  - right. apply on_slider_seek with (sec := sec) in H
      as (c & c' & sg & v & Hc & Hc' & Hf & Hv & ->); [|done].
    exists c, c'. split; [done|]. split; [done|]. right. split; [left; by eexists|].
    unfold Slider_currentSecond. by rewrite (mouseMoveEvent_released _ _ _ _ _ _ Hf Hv).
  - right. apply on_slider_seek with (sec := sec) in H
      as (c & c' & sg & v & Hc & Hc' & Hf & Hv & ->); [|done].
    exists c, c'. split; [done|]. split; [done|]. right.
    split; [right; left; by eexists|].
    destruct (QSlider_mouseReleaseEvent _ _) as [q sg']. injection Hf as Hs <-.
    unfold Slider_currentSecond. rewrite <- Hs. simpl.
    by rewrite (emitted_at_released _ _ _ Hv).
  - right. apply on_slider_seek with (sec := sec) in H
      as (c & c' & sg & v & Hc & Hc' & Hf & Hv & ->); [|done].
    exists c, c'. split; [done|]. split; [done|]. right.
    split; [right; right; by eexists|].
    injection Hf as Hf. unfold Slider_currentSecond.
    pose proof (event_released (slider c) ty v) as He. rewrite Hf in He. simpl in He.
    by rewrite (He Hv).
  - exfalso. apply on_slider_seek with (sec := sec) in H
      as (c & c' & sg & v & _ & _ & Hf & Hv & _); [|done].
    injection Hf as _ <-. by apply elem_of_nil in Hv.
Qed.

End Seeking.

Lemma in_range_spec z : Int.in_range z = true ↔ Int.min_signed ≤ z ≤ Int.max_signed.
Proof. unfold Int.in_range. rewrite andb_true_iff, !Z.leb_le. done. Qed.

Lemma checked_in_range z : Int.min_signed ≤ z ≤ Int.max_signed → Int.checked z = Ok z.
Proof. intros H. unfold Int.checked. by rewrite (proj2 (in_range_spec z) H). Qed.

Lemma quot_scaled_bounds a x w :
  0 ≤ a → 0 ≤ x ≤ w → 0 < w → 0 ≤ a * x ÷ w ≤ a.
Proof.
  intros Ha Hx Hw. rewrite Z.quot_div_nonneg by nia. split.
  - apply Z.div_pos; nia.
  - apply Z.div_le_upper_bound; nia.
Qed.

Section Press.
Context {tk : Toolkit}.

(** A left-button press that does not grab the handle. *)
Lemma mousePressEvent_sets_value s e q sg0 :
  QSlider_mousePressEvent (qslider s) e = (q, sg0) →
  ev_button e = LeftButton → isSliderDown q = false →
  0 < width q → 0 ≤ ev_x e ≤ width q → minimum q ≤ maximum q →
  Int.in_range (minimum q) = true → Int.in_range (maximum q) = true →
  Int.in_range (maximum q - minimum q) = true →
  Int.in_range ((maximum q - minimum q) * ev_x e) = true →
  let v := minimum q + (maximum q - minimum q) * ev_x e ÷ width q in
  ∃ s' sg1, Slider_mousePressEvent s e
            = Ok (s', (emitted_at q <$> sg0) ++ sg1 ++ [sliderReleased v]) ∧
            value (qslider s') = v ∧ minimum q ≤ v ≤ maximum q ∧
            stored s' = stored s.
Proof.
  intros Hbase Hbtn Hdown Hw Hx Hmm Hmin Hmax Hd Hp v.
  apply in_range_spec in Hmin, Hmax, Hd, Hp.
  assert (Hlo : Int.min_signed = -2147483648) by reflexivity.
  assert (Hhi : Int.max_signed = 2147483647) by reflexivity.
  pose proof (quot_scaled_bounds (maximum q - minimum q) (ev_x e) (width q)
                ltac:(lia) Hx Hw) as Hq.
  unfold Slider_mousePressEvent. rewrite Hbase, Hbtn, Hdown.
  rewrite bool_decide_eq_true_2 by done. simpl.
  unfold Int.sub, Int.mul, Int.div, Int.add.
  rewrite (checked_in_range (maximum q - minimum q)) by done. simpl.
  rewrite (checked_in_range (_ * _)) by done. simpl.
  destruct (Z.eqb_spec (width q) 0) as [|_]; [lia|].
  rewrite (checked_in_range (_ ÷ _)) by lia. simpl.
  rewrite (checked_in_range (_ + _)) by (fold v; lia). simpl. fold v.
  unfold QSlider_setValue.
  replace (Z.max (minimum q) (Z.min (maximum q) v)) with v by (subst v; lia).
  destruct (Z.eqb_spec v (value q)) as [Hv|Hv].
  - exists (Slider_with_qslider s q), []. simpl. split; [by rewrite <- Hv|].
    split; [done|]. split; [subst v; lia | done].
  - exists (Slider_with_qslider s (QSlider_with_value q v)), [valueChanged v]. simpl.
    split; [done|]. split; [done|]. split; [subst v; lia | done].
Qed.

(** Releasing the slider: one [seekTo] for each [sliderReleased] the base
    handler emits, each to the second the slider shows. *)
Lemma release_seeks can w c e q sg :
  camera w = Some c →
  QSlider_mouseReleaseEvent (qslider (slider c)) e = (q, sg) →
  ∃ w' c',
    handle can w (SliderMouseRelease e)
    = Ok (w', (λ _, Call (seekTo (Slider_currentSecond (slider c'))))
                <$> filter (λ g, g = QSliderReleased) sg) ∧
    camera w' = Some c' ∧ qslider (slider c') = q.
Proof.
  intros Hc Hbase. simpl. unfold on_slider. rewrite Hc, Hbase. simpl.
  pose proof (deliver_all_emitted (CameraPart_with_slider c (Slider_with_qslider (slider c) q))
                q sg) as He.
  pose proof (deliver_all_keeps (CameraPart_with_slider c (Slider_with_qslider (slider c) q))
                (emitted_at q <$> sg)) as (Hs & _).
  destruct (deliver_all _ _) as [c1 eff1]. simpl in He, Hs.
  exists (VideoWidget_with_camera w (Some c1)), c1. rewrite He.
  unfold Slider_currentSecond. rewrite Hs. simpl. done.
Qed.

(** An enabled skip-to-end button seeks past the end. *)
Lemma skip_to_end_effects can w b :
  skip_to_end_btn w = Some b → btn_enabled b = true →
  ∃ w' eff0,
    handle can w SkipToEndClicked
    = Ok (w', eff0 ++ [Call (pause false);
                       Call (seekTo (Double.add (totalSeconds can) Double.one))]) ∧
    (∀ sec, Call (seekTo sec) ∉ eff0) ∧
    w' = (click_speed_btn w 2).1 ∧ eff0 = (click_speed_btn w 2).2.
Proof.
  intros Hb Hen. simpl. rewrite Hb, Hen.
  pose proof (click_speed_btn_no_seek w 2) as Hn.
  destruct (click_speed_btn w 2) as [w1 eff1]. by exists w1, eff1.
Qed.

(** C5, as amended.  Every seek is a call of [seekTo] on the stream.
    Releasing the slider calls [seekTo] with the slider's current second,
    once for each [sliderReleased] the base class emits.  A left-button
    press at [x] that does not grab the handle (with [x] in the widget and
    the [int] product in range) sets the value to
    [minimum + (maximum - minimum) * x / width], emits [sliderReleased]
    and so seeks to the new value.  On a live stream, where there is no
    slider, a click on the enabled skip-to-end button seeks to
    [totalSeconds() + 1].  There is no other seek: a [seekTo] is that of
    the skip-to-end button, or goes to the second the slider shows when a
    release signal is emitted. *)
Theorem seeking_is_delegated can w c e q sg0 :
  camera w = Some c →
  QSlider_mousePressEvent (qslider (slider c)) e = (q, sg0) →
  ev_button e = LeftButton → isSliderDown q = false →
  0 < width q → 0 ≤ ev_x e ≤ width q → minimum q ≤ maximum q →
  Int.in_range (minimum q) = true → Int.in_range (maximum q) = true →
  Int.in_range (maximum q - minimum q) = true →
  Int.in_range ((maximum q - minimum q) * ev_x e) = true →
  (∀ e' q' sg',
     QSlider_mouseReleaseEvent (qslider (slider c)) e' = (q', sg') →
     ∃ w' c',
       handle can w (SliderMouseRelease e')
       = Ok (w', (λ _, Call (seekTo (Slider_currentSecond (slider c'))))
                   <$> filter (λ g, g = QSliderReleased) sg') ∧
       camera w' = Some c' ∧ qslider (slider c') = q') ∧
  (∃ w' c' eff0,
     handle can w (SliderMousePress e)
     = Ok (w', eff0 ++ [Call (seekTo (Slider_currentSecond (slider c')))]) ∧
     camera w' = Some c' ∧
     value (qslider (slider c'))
     = minimum q + (maximum q - minimum q) * ev_x e ÷ width q) ∧
  (∀ can0 w0 b,
     skip_to_end_btn w0 = Some b → btn_enabled b = true →
     ∃ w' eff0,
       handle can0 w0 SkipToEndClicked
       = Ok (w', eff0 ++ [Call (pause false);
                          Call (seekTo (Double.add (totalSeconds can0) Double.one))]) ∧
       ∀ sec, Call (seekTo sec) ∉ eff0) ∧
  (∀ can0 w0 ev w' eff sec,
     handle can0 w0 ev = Ok (w', eff) → Call (seekTo sec) ∈ eff →
     (ev = SkipToEndClicked ∧
      (∃ b, skip_to_end_btn w0 = Some b ∧ btn_enabled b = true) ∧
      sec = Double.add (totalSeconds can0) Double.one)
     ∨ (∃ c0 c', camera w0 = Some c0 ∧ camera w' = Some c' ∧
          ((∃ e, ev = SliderMousePress e ∧
                 (sec = Slider_currentSecond (slider c')
                  ∨ sec = Double.div
                            (Double.of_Z
                               (value (QSlider_mousePressEvent (qslider (slider c0)) e).1))
                            factor))
           ∨ (((∃ e, ev = SliderMouseMove e) ∨ (∃ e, ev = SliderMouseRelease e) ∨
               (∃ ty, ev = SliderEvent ty)) ∧
              sec = Slider_currentSecond (slider c'))))).
Proof.
  intros Hc Hbase Hbtn Hdown Hw Hx Hmm Hmin Hmax Hd Hp.
  split; [intros e' q' sg'; by apply release_seeks|].
  split; [|split; [|apply handle_seek]].
  - destruct (mousePressEvent_sets_value (slider c) e q sg0 Hbase Hbtn Hdown Hw Hx Hmm
                Hmin Hmax Hd Hp) as (s' & sg1 & Hpress & Hv & _).
    simpl. unfold on_slider. rewrite Hc, Hpress. simpl.
    pose proof (deliver_all_snoc_released (CameraPart_with_slider c s')
                  ((emitted_at q <$> sg0) ++ sg1)
                  (minimum q + (maximum q - minimum q) * ev_x e ÷ width q)) as He.
    pose proof (deliver_all_snoc_released_fst (CameraPart_with_slider c s')
                  ((emitted_at q <$> sg0) ++ sg1)
                  (minimum q + (maximum q - minimum q) * ev_x e ÷ width q)) as Hf.
    pose proof (deliver_all_keeps (CameraPart_with_slider c s')
                  ((emitted_at q <$> sg0) ++ sg1)) as (Hs & _).
    rewrite <- app_assoc in He, Hf.
    destruct (deliver_all _ ((emitted_at q <$> sg0) ++ sg1 ++ _)) as [c1 eff1].
    simpl in He, Hf.
    assert (Hsl : slider c1 = s') by (by rewrite Hf, Hs).
    exists (VideoWidget_with_camera w (Some c1)), c1,
           (deliver_all (CameraPart_with_slider c s') ((emitted_at q <$> sg0) ++ sg1)).2.
    split; [|split; [done|]].
    + rewrite He. unfold Slider_currentSecond. by rewrite Hsl, Hv.
    + by rewrite Hsl.
  - intros can0 w0 b Hb Hen.
    destruct (skip_to_end_effects can0 w0 b Hb Hen) as (w' & eff0 & H & Hn & _). eauto.
Qed.

End Press.

(** ** The properties on the sample objects *)

Lemma live_widget_new : @VideoWidget_new sample_toolkit live_can = Ok live_widget.
Proof. vm_compute. reflexivity. Qed.

Lemma parseQLog_alert_map_sample :
  let s' := (@Slider_parseQLog sample_toolkit sample_can Slider_new 1 sample_qlog
               sample_schedule).1 in
  (∀ k, is_Some (alerts s' !! k) ↔
        is_Some (alerts Slider_new !! k)
        ∨ ∃ e a, e ∈ events sample_qlog ∧ alert_event e k a) ∧
  alerts_nonblank (alerts s').
Proof.
  destruct (@parseQLog_alert_map sample_toolkit sample_can Slider_new 1 sample_qlog
              sample_schedule) as (Hkeys & _ & Hinv & _).
  - apply perm_swap.
  - split; [exact Hkeys|]. apply Hinv.
    + repeat constructor; intros cs Hw; try discriminate.
      injection Hw as <-. intros _. discriminate.
    + intros k a H. simpl in H. by rewrite lookup_empty in H.
Qed.

(** C10.  An entry is added for a CONTROLS_STATE event whose alertType
    and alertText1 have a positive size and whose alertSize is not NONE,
    but the size is that of the log's text while the stored text is what
    [cStr()] gives, which ends at the first byte 0.  For the qlog whose
    only event has the first text made of the byte 0 and "BRAKE!", the
    event passes the test and the stored alert has an empty first text:
    not every stored alert has a first text, [alertInfo] returns the blank
    one, and [showAlert] then hides the overlay. *)
Theorem parseQLog_stores_blank_alert :
  let s' := (@Slider_parseQLog sample_toolkit sample_can Slider_new 1 nul_qlog
               (events nul_qlog)).1 in
  stores_alert nul_cs ∧
  String.length (getAlertText1 nul_cs) = 7%nat ∧
  alerts s' !! mono_time nul_alert_event = Some blank_alert ∧
  text1 blank_alert = "" ∧
  ¬ alerts_nonblank (alerts s') ∧
  Slider_alertInfo sample_can s' (Double.of_Z 5) = Ok blank_alert ∧
  label_visible (InfoLabel_showAlert InfoLabel_new blank_alert) = false.
Proof.
  cbv zeta.
  assert (Hl : alerts (@Slider_parseQLog sample_toolkit sample_can Slider_new 1 nul_qlog
                         (events nul_qlog)).1 !! mono_time nul_alert_event
               = Some blank_alert) by (vm_compute; reflexivity).
  split_and!.
  - unfold stores_alert. simpl. split_and!; discriminate.
  - reflexivity.
  - exact Hl.
  - reflexivity.
  - intros Hnb. by apply (Hnb _ _ Hl).
  - vm_compute. reflexivity.
  - reflexivity.
Qed.

Example parseQLog_sample :
  (@Slider_parseQLog sample_toolkit sample_can Slider_new 1 sample_qlog sample_schedule)
  = (Slider_with_alerts
       (Slider_with_thumbnails Slider_new {[ 1006000000000 := sample_pixmap ]})
       {[ 1005050000000 := alert_of sample_cs ]},
     [updateMaximumTime (Double.sub (Double.div (Double.of_Z 1006000000123) Double.lit_1e9)
                                    (Double.of_Z 1000))]).
Proof. vm_compute. reflexivity. Qed.



Lemma mouseMoveEvent_preview_witness :
  ∃ s' sg, @Slider_mouseMoveEvent sample_toolkit sample_can sample_slider sample_move
           = Ok (s', sg) ∧
    label_visible (thumbnail_label s') = true ∧
    pixmap (thumbnail_label s') = sample_pixmap ∧
    label_pos (thumbnail_label s') = {| px := 43; py := 206 |}.
Proof.
  destruct (@mouseMoveEvent_preview sample_toolkit sample_can sample_slider sample_move
              50 (Double.of_Z 5) 1005000000000)
    as (_ & _ & thumb & alert & Ht & _ & _ & _ & _ & _ & Hshow).
  - vm_compute. reflexivity.
  - vm_compute. reflexivity.
  - vm_compute. reflexivity.
  - vm_compute in Ht. injection Ht as <-.
    destruct (Hshow eq_refl {| px := 3; py := -94 |})
      as (s' & sg & Hm & Hv & Hp & _ & _ & _ & Hpos & _).
    + vm_compute. reflexivity.
    + exists s', sg. repeat split; [exact Hm | exact Hv | exact Hp | exact Hpos].
Defined.

(** C4.  A mouse move over a slider narrower than the thumbnail it
    finds.  The slider is 100 pixels wide and the mouse is at [x = 5]: the
    hover time is 3 s, [thumbnail] of it is the stored thumbnail with the
    least timestamp at or after 1003 s, which is 160 pixels wide, and the
    preview is placed with [std::clamp(5 - 80, 3, 99 - 160 - 3)], whose
    upper bound is below its lower bound: the behaviour is undefined, so
    the preview is not guaranteed to be shown. *)
Theorem mouseMoveEvent_narrow_slider :
  Int.clamp (ev_x near_move) 0 (width (qslider narrow_hover_slider)) = Ok 5 ∧
  hover_seconds (qslider narrow_hover_slider) 5 = Ok (Double.of_Z 3) ∧
  Double.to_uint64
    (Double.mul (Double.add (Double.of_Z 3) (routeStartTime sample_can)) Double.lit_1e9)
  = Ok 1003000000000 ∧
  Slider_thumbnail sample_can narrow_hover_slider (Double.of_Z 3) = Ok sample_pixmap ∧
  QPixmap_isNull sample_pixmap = false ∧
  x2 (QSlider_rect (qslider narrow_hover_slider)) - QPixmap_width sample_pixmap
    - THUMBNAIL_MARGIN = -64 ∧
  preview_point (qslider narrow_hover_slider) 5 sample_pixmap = Undefined ∧
  @Slider_mouseMoveEvent sample_toolkit sample_can narrow_hover_slider near_move
  = Undefined.
Proof.
  split_and!; vm_compute; reflexivity.
Qed.

Lemma seeking_is_delegated_witness :
  (∃ w' c',
     @handle sample_toolkit sample_can sample_widget (SliderMouseRelease sample_press)
     = Ok (w', [Call (seekTo (Slider_currentSecond (slider c')))]) ∧
     camera w' = Some c' ∧ qslider (slider c') = qslider sample_slider) ∧
  ∃ w' c' eff0,
    @handle sample_toolkit sample_can sample_widget (SliderMousePress sample_press)
    = Ok (w', eff0 ++ [Call (seekTo (Slider_currentSecond (slider c')))]) ∧
    camera w' = Some c' ∧
    value (qslider (slider c'))
    = minimum (qslider sample_slider)
      + (maximum (qslider sample_slider) - minimum (qslider sample_slider))
        * ev_x sample_press ÷ width (qslider sample_slider).
Proof.
  assert (H1 : 0 < width (qslider sample_slider)) by (simpl; lia).
  assert (H2 : 0 ≤ ev_x sample_press ≤ width (qslider sample_slider)) by (simpl; lia).
  assert (H3 : minimum (qslider sample_slider) ≤ maximum (qslider sample_slider))
    by (simpl; lia).
  destruct (@seeking_is_delegated sample_toolkit sample_can sample_widget
              sample_camera sample_press (qslider sample_slider) []
              eq_refl eq_refl eq_refl eq_refl H1 H2 H3
              eq_refl eq_refl eq_refl eq_refl) as (Hrel & Hpress & _).
  split; [|exact Hpress].
  exact (Hrel sample_press (qslider sample_slider) [QSliderReleased] eq_refl).
Defined.

Example press_sample :
  @handle sample_toolkit sample_can sample_widget (SliderMousePress sample_press)
  = Ok (VideoWidget_with_camera sample_widget
          (Some {| end_time_label := "60"; time_label := "15";
                   alert_label := InfoLabel_new;
                   slider := Slider_with_qslider sample_slider
                               (QSlider_with_value (qslider sample_slider) 15000) |}),
        [Call (seekTo (Double.of_Z 15))]).
Proof. vm_compute. reflexivity. Qed.

(** C5 as stated fails: on a live stream the skip-to-end button seeks,
    and no slider is involved. *)
Lemma skip_to_end_seeks :
  ¬ (∀ can w ev w' eff sec,
       @reachable sample_toolkit w →
       @handle sample_toolkit can w ev = Ok (w', eff) →
       Call (seekTo sec) ∈ eff →
       (∃ e, ev = SliderMousePress e) ∨ (∃ e, ev = SliderMouseRelease e)).
Proof.
  intros H.
  destruct (H live_can live_widget SkipToEndClicked
              (VideoWidget_with_speed_btns live_widget
                 (group_click true 2 (speed_btns live_widget)))
              [Call (setSpeed (S754_finite false 8388608 (-23))); Call (pause false);
               Call (seekTo (Double.of_Z 61))]
              (Double.of_Z 61)) as [[e He] | [e He]]; try discriminate.
  - apply (reachable_new live_can). vm_compute. reflexivity.
  - vm_compute. reflexivity.
  - do 2 right. left.
Qed.

Lemma play_button_follows_stream_witness :
  @handle sample_toolkit sample_can sample_widget PlayBtnClicked
  = Ok (sample_widget, [Call (pause true)]) ∧
  @handle sample_toolkit empty_can sample_widget StreamPaused
  = Ok (@VideoWidget_updatePlayBtnState empty_can sample_widget, []).
Proof.
  destruct (@play_button_follows_stream sample_toolkit sample_can sample_widget)
    as (Hclick & _).
  destruct (@play_button_follows_stream sample_toolkit empty_can sample_widget)
    as (_ & _ & Hev & _).
  split; [exact Hclick | apply Hev; by left].
Defined.

Lemma paintEvent_timeline_witness :
  Slider_paintEvent sample_can sample_slider
  = (fills ← described_timeline {| x1 := 0; y1 := 4; x2 := 599; y2 := 25 |}
               Double.zero (Double.of_Z 60) 600 (getTimeline sample_can);
     Ok (FillRect {| x1 := 0; y1 := 4; x2 := 599; y2 := 25 |} (timeline_colors TL_None)
         :: fills ++ [DrawSliderHandle 0 60000 0])).
Proof.
  destruct (paintEvent_timeline sample_can sample_slider) as (H & _).
  exact H.
Defined.

(** * Further properties of the widget *)

(** ** The time range *)

Lemma setValue_fields q v :
  minimum (QSlider_setValue q v).1 = minimum q ∧
  maximum (QSlider_setValue q v).1 = maximum q ∧
  isSliderDown (QSlider_setValue q v).1 = isSliderDown q ∧
  width (QSlider_setValue q v).1 = width q ∧
  height (QSlider_setValue q v).1 = height q ∧
  geom_pos (QSlider_setValue q v).1 = geom_pos q ∧
  value (QSlider_setValue q v).1 = Z.max (minimum q) (Z.min (maximum q) v).
Proof.
  unfold QSlider_setValue.
  destruct (Z.eqb_spec (Z.max (minimum q) (Z.min (maximum q) v)) (value q)); simpl; auto 10.
Qed.

Lemma setRange_range q lo hi :
  minimum (QSlider_setRange q lo hi).1 = lo ∧
  maximum (QSlider_setRange q lo hi).1 = Z.max lo hi ∧
  isSliderDown (QSlider_setRange q lo hi).1 = isSliderDown q ∧
  width (QSlider_setRange q lo hi).1 = width q ∧
  (minimum q ≤ value q ≤ maximum q ∨ (lo, Z.max lo hi) ≠ (minimum q, maximum q) →
   lo ≤ value (QSlider_setRange q lo hi).1 ≤ Z.max lo hi).
Proof.
  unfold QSlider_setRange.
  destruct (Z.eqb_spec lo (minimum q)) as [Hlo|Hlo]; simpl.
  - destruct (Z.eqb_spec (Z.max lo hi) (maximum q)) as [Hhi|Hhi]; simpl.
    + repeat split; auto; try lia; intuition (try lia; congruence).
    + pose proof (setValue_fields (QSlider_with_range q lo (Z.max lo hi)) (value q))
        as (-> & -> & -> & -> & _ & _ & ->). simpl. repeat split; auto; lia.
  - pose proof (setValue_fields (QSlider_with_range q lo (Z.max lo hi)) (value q))
      as (-> & -> & -> & -> & _ & _ & ->). simpl. repeat split; auto; lia.
Qed.

Section TimeRange.
Context {tk : Toolkit}.

(** Leaving the zoom.  On a replay stream [updateTimeRange(min, max,
    false)] ignores [min] and [max] and does what
    [setMaximumTime(maximum_time)] does. *)
Lemma unzoom_is_setMaximumTime can w min max :
  liveStreaming can = false →
  VideoWidget_updateTimeRange can w min max false
  = VideoWidget_setMaximumTime w (maximum_time w).
Proof.
  intros Hlive. unfold VideoWidget_updateTimeRange, VideoWidget_setMaximumTime,
    VideoWidget_setMaximumTime_signals. rewrite Hlive. simpl.
  destruct (camera w) as [c|]; reflexivity.
Qed.

(** What a completed [updateTimeRange] on a replay stream leaves. *)
Lemma updateTimeRange_replay can w min max z w' eff :
  liveStreaming can = false →
  VideoWidget_updateTimeRange can w min max z = Ok (w', eff) →
  let min' := if z then min else Double.zero in
  let max' := if z then max else maximum_time w in
  ∃ c c' lo hi,
    camera w = Some c ∧ camera w' = Some c' ∧
    Double.ltb min' max' = true ∧
    Double.to_int (Double.mul min' factor) = Ok lo ∧
    Double.to_int (Double.mul max' factor) = Ok hi ∧
    qslider (slider c') = (QSlider_setRange (qslider (slider c)) lo hi).1 ∧
    end_time_label c' = formatSeconds max' ∧
    maximum_time w' = maximum_time w ∧
    stored (slider c') = stored (slider c) ∧
    thumbnail_label (slider c') = thumbnail_label (slider c) ∧
    alert_label c' = alert_label c ∧
    speed_group w' = speed_group w.
Proof.
  intros Hlive H min' max'. unfold VideoWidget_updateTimeRange in H. rewrite Hlive in H.
  replace (if negb z then Double.zero else min) with min' in H by (by destruct z).
  replace (if negb z then maximum_time w else max) with max' in H by (by destruct z).
  destruct (camera w) as [c|] eqn:Hc; [|discriminate].
  unfold with_delivery in H. bind_inv H. destruct a as [w0 sg].
  bind_inv E. destruct a as [s sg']. injection E as <- <-.
  unfold Slider_setTimeRange in E0. bind_inv E0. bind_inv E0. bind_inv E0.
  unfold assert in E. destruct (Double.ltb min' max') eqn:Hlt; [|discriminate].
  simpl in *.
  pose proof (deliver_all_keeps
                (CameraPart_with_slider (CameraPart_with_end_time_label c (formatSeconds max')) s)
                sg') as (Hs & Hl & He).
  destruct (deliver_all _ sg') as [c1 eff1]. injection H as <- <-. simpl in *.
  destruct (QSlider_setRange (qslider (slider c)) a0 a1) as [q sgq] eqn:Hq.
  injection E0 as <- <-. simpl in *.
  exists c, c1, a0, a1. rewrite Hs, Hl, He, Hq. simpl. repeat split; auto.
Qed.

Lemma updateTimeRange_replay_completes can w c (min max : Double.t) (z : bool) lo hi :
  liveStreaming can = false → camera w = Some c →
  let min' := if z then min else Double.zero in
  let max' := if z then max else maximum_time w in
  Double.ltb min' max' = true →
  Double.to_int (Double.mul min' factor) = Ok lo →
  Double.to_int (Double.mul max' factor) = Ok hi →
  ∃ w' eff, VideoWidget_updateTimeRange can w min max z = Ok (w', eff).
Proof.
  intros Hlive Hc min' max' Hlt Hlo Hhi.
  unfold VideoWidget_updateTimeRange. rewrite Hlive, Hc.
  replace (if negb z then Double.zero else min) with min' by (by destruct z).
  replace (if negb z then maximum_time w else max) with max' by (by destruct z).
  clearbody min' max'.
  unfold with_delivery, Slider_setTimeRange. rewrite Hlt.
  cbn [assert mbind result_bind slider CameraPart_with_end_time_label].
  rewrite Hlo. cbn [mbind result_bind]. rewrite Hhi. cbn [mbind result_bind].
  destruct (QSlider_setRange _ lo hi). cbn [mbind result_bind camera VideoWidget_with_camera].
  destruct (deliver_all _ _). eauto.
Qed.

(** X1. Zooming in and out again.  After a zoom to [a, b] and a later
    unzoom, the slider's range is again from 0 to the maximum time in
    milliseconds and the end label shows the maximum time, as after an
    unzoom without the zoom; the maps of alerts and thumbnails, the
    preview and the alert overlay are those from before the zoom;
    [maximum_time] is not touched by either call. *)
Theorem zoom_unzoom_restores_range can w a b a' b' w1 e1 w2 e2 :
  liveStreaming can = false →
  VideoWidget_updateTimeRange can w a b true = Ok (w1, e1) →
  VideoWidget_updateTimeRange can w1 a' b' false = Ok (w2, e2) →
  ∃ w3 e3 c c2 c3 hi,
    VideoWidget_updateTimeRange can w a' b' false = Ok (w3, e3) ∧
    camera w = Some c ∧ camera w2 = Some c2 ∧ camera w3 = Some c3 ∧
    minimum (qslider (slider c2)) = minimum (qslider (slider c3)) ∧
    maximum (qslider (slider c2)) = maximum (qslider (slider c3)) ∧
    end_time_label c2 = end_time_label c3 ∧
    end_time_label c2 = formatSeconds (maximum_time w) ∧
    stored (slider c2) = stored (slider c3) ∧
    maximum_time w1 = maximum_time w ∧ maximum_time w2 = maximum_time w ∧
    Double.to_int (Double.mul (maximum_time w) factor) = Ok hi ∧
    minimum (qslider (slider c2)) = 0 ∧
    maximum (qslider (slider c2)) = Z.max 0 hi ∧
    stored (slider c2) = stored (slider c) ∧
    thumbnail_label (slider c2) = thumbnail_label (slider c) ∧
    alert_label c2 = alert_label c.
Proof.
  intros Hlive H1 H2.
  destruct (updateTimeRange_replay can w a b true w1 e1 Hlive H1)
    as (c & c1 & lo1 & hi1 & Hc & Hc1 & _ & _ & _ & Hq1 & _ & Hm1 & Hst1 & Hth1 & Hal1 & _).
  destruct (updateTimeRange_replay can w1 a' b' false w2 e2 Hlive H2)
    as (c1' & c2 & lo & hi & Hc1' & Hc2 & Hlt & Hlo & Hhi & Hq2 & Hend & Hm2 & Hst2
        & Hth2 & Hal2 & _).
  cbv beta iota zeta in Hlt, Hlo, Hhi, Hend. rewrite Hm1 in Hlt, Hhi, Hend.
  assert (c1' = c1) by congruence. subst c1'.
  assert (H3 : ∃ w3 e3, VideoWidget_updateTimeRange can w a' b' false = Ok (w3, e3))
    by (eapply (updateTimeRange_replay_completes can w c a' b' false); eauto).
  destruct H3 as (w3 & e3 & H3).
  destruct (updateTimeRange_replay can w a' b' false w3 e3 Hlive H3)
    as (c' & c3 & lo' & hi' & Hc' & Hc3 & _ & Hlo' & Hhi' & Hq3 & Hend3 & _ & Hst3 & _).
  cbv beta iota zeta in Hlo', Hhi', Hend3.
  assert (c' = c) by congruence. subst c'.
  assert (lo' = lo) by congruence. assert (hi' = hi) by congruence. subst lo' hi'.
  assert (lo = 0) as Hlo0.
  { change (Double.to_int (Double.mul Double.zero factor)) with (Ok (A:=Z) 0) in Hlo.
    by injection Hlo. }
  exists w3, e3, c, c2, c3, hi. split; [done|]. split; [done|]. split; [done|].
  split; [done|].
  rewrite Hq2, Hq3.
  destruct (setRange_range (qslider (slider c1)) lo hi) as (-> & -> & _).
  destruct (setRange_range (qslider (slider c)) lo hi) as (-> & -> & _).
  subst lo. split_and!; try congruence.
Qed.

End TimeRange.

(** ** The slider follows the playback position *)

Section UpdateState.
Context {tk : Toolkit}.

(** X2. [updateState] and the slider.  A completed [updateState] calls
    nothing on the stream.  While the handle is held down it leaves the
    slider and the time label as they are; otherwise the value becomes
    the playback position in milliseconds, truncated and forced into the
    range, and the time label is rewritten when the value changed. *)
Theorem updateState_moves_slider can w c w' eff :
  camera w = Some c →
  VideoWidget_updateState can w = Ok (w', eff) →
  ∃ c', camera w' = Some c' ∧ eff = [] ∧
    end_time_label c' = end_time_label c ∧
    stored (slider c') = stored (slider c) ∧
    thumbnail_label (slider c') = thumbnail_label (slider c) ∧
    (isSliderDown (qslider (slider c)) = true →
     slider c' = slider c ∧ time_label c' = time_label c) ∧
    (isSliderDown (qslider (slider c)) = false →
     ∃ v, Double.to_int (Double.mul (currentSec can) factor) = Ok v ∧
       value (qslider (slider c'))
       = Z.max (minimum (qslider (slider c))) (Z.min (maximum (qslider (slider c))) v) ∧
       minimum (qslider (slider c')) = minimum (qslider (slider c)) ∧
       maximum (qslider (slider c')) = maximum (qslider (slider c)) ∧
       time_label c'
       = (if value (qslider (slider c')) =? value (qslider (slider c))
          then time_label c
          else formatSeconds (Slider_currentSecond (slider c')))).
Proof.
  intros Hc H. unfold VideoWidget_updateState in H. rewrite Hc in H.
  destruct (isSliderDown (qslider (slider c))) eqn:Hd; simpl in H.
  - bind_inv H. injection H as <- <-. eexists. split; [reflexivity|]. simpl.
    destruct c as [e t l s]. simpl. split_and!; try done.
  - bind_inv H. destruct a as [s sg]. unfold Slider_setCurrentSecond in E.
    bind_inv E. rename a into v.
    pose proof (setValue_fields (qslider (slider c)) v) as (Hmin & Hmax & _ & _ & _ & _ & Hv).
    unfold QSlider_setValue in *.
    destruct (Z.eqb_spec (Z.max (minimum (qslider (slider c)))
                                (Z.min (maximum (qslider (slider c))) v))
                         (value (qslider (slider c)))) as [Hsame|Hdiff];
      injection E as <- <-; simpl in H; bind_inv H; injection H as <- <-;
      eexists; (split; [reflexivity|]); simpl in *.
    + split_and!; try done. intros _. exists v.
      rewrite <- Hsame, Z.eqb_refl. split_and!; try done.
    + split_and!; try done. intros _. exists v. split_and!; try done.
      destruct (Z.eqb_spec (Z.max (minimum (qslider (slider c)))
                                  (Z.min (maximum (qslider (slider c))) v))
                           (value (qslider (slider c)))); done.
Qed.

End UpdateState.

(** ** Skipping to the end of a live stream *)

Section SkipToEnd.
Context {tk : Toolkit}.

(** X3. The skip-to-end button.  In every widget the program reaches
    that has the button: while the button is enabled, a click sets the
    speed to 1, resumes the stream and seeks one second past its end, in
    this order, and leaves the button of speed 1 the checked one; while it
    is disabled, a click does nothing.  On a live stream an update of the
    time range enables the button exactly when the range is not zoomed. *)
Theorem skip_to_end_resumes_at_speed_one can w b :
  reachable w → skip_to_end_btn w = Some b →
  (btn_enabled b = true →
   ∃ w',
     handle can w SkipToEndClicked
     = Ok (w', [Call (setSpeed (Float.of_double Double.one)); Call (pause false);
                Call (seekTo (Double.add (totalSeconds can) Double.one))]) ∧
     map (fun b => btn_checked b.1) (speed_btns w') = [false; false; true; false] ∧
     camera w' = camera w ∧ skip_to_end_btn w' = skip_to_end_btn w ∧
     play_btn w' = play_btn w) ∧
  (btn_enabled b = false → handle can w SkipToEndClicked = Ok (w, [])) ∧
  (liveStreaming can = true → ∀ min max z,
   ∃ w1 b1,
     handle can w (TimeRangeUpdated min max z) = Ok (w1, []) ∧
     skip_to_end_btn w1 = Some b1 ∧ btn_enabled b1 = negb z ∧
     (z = true → handle can w1 SkipToEndClicked = Ok (w1, []))).
Proof.
  intros Hr Hb. split; [|split].
  - intros Hen. pose proof (reachable_speed_group_ok w Hr) as Hok.
    destruct (click_speed_btn_ok w 2 Hok ltac:(lia)) as (speed & Hs & Heff & Hchk & _).
    injection Hs as <-.
    simpl. rewrite Hb, Hen. unfold click_speed_btn in *.
    destruct (speed_btns w !! 2%nat) as [[b' sp]|]; simpl in *; [|discriminate].
    injection Heff as ->. eexists. split; [reflexivity|]. simpl. auto.
  - intros Hen. simpl. by rewrite Hb, Hen.
  - intros Hlive min max z. simpl. unfold VideoWidget_updateTimeRange.
    rewrite Hlive, Hb. eexists _, _. split; [reflexivity|]. simpl.
    split; [reflexivity|]. split; [reflexivity|]. by intros ->.
Qed.

End SkipToEnd.

(** ** The two layouts *)

Section Layout.
Context {tk : Toolkit}.

Lemma setMaximumTime_signals_layout w sec w' sg :
  VideoWidget_setMaximumTime_signals w sec = Ok (w', sg) → layout w' = layout w.
Proof.
  unfold VideoWidget_setMaximumTime_signals. simpl.
  destruct (camera w) eqn:Hc; [|discriminate]. intros H. bind_inv H.
  destruct a as [s sg']. injection H as <- <-. unfold layout. simpl. by rewrite Hc.
Qed.

Lemma with_delivery_layout r w' eff :
  with_delivery r = Ok (w', eff) → ∃ w0 sg, r = Ok (w0, sg) ∧ layout w' = layout w0.
Proof.
  unfold with_delivery. intros H. bind_inv H. destruct a as [w0 sg].
  exists w0, sg. split; [done|].
  destruct (camera w0) as [c|] eqn:Hc.
  - destruct (deliver_all c sg). injection H as <- <-. unfold layout. simpl.
    by rewrite Hc.
  - by injection H as <- <-.
Qed.

Lemma on_slider_layout w f w' eff :
  on_slider w f = Ok (w', eff) → layout w' = layout w.
Proof.
  unfold on_slider. destruct (camera w) as [c|] eqn:Hc.
  - intros H. bind_inv H. destruct a as [s sg].
    destruct (deliver_all _ sg). injection H as <- <-. unfold layout. simpl.
    by rewrite Hc.
  - by intros [= <- <-].
Qed.

Lemma click_speed_btn_layout w i : layout (click_speed_btn w i).1 = layout w.
Proof. unfold click_speed_btn. by destruct (speed_btns w !! i) as [[? ?]|]. Qed.

Lemma handle_layout can w ev w' eff :
  handle can w ev = Ok (w', eff) → layout w' = layout w.
Proof.
  intros H. destruct ev; simpl in H.
  - by injection H as <- <-.
  - destruct (camera w); by injection H as <- <-.
  - destruct (skip_to_end_btn w) as [b0|]; [|by injection H as <- <-].
    destruct (btn_enabled b0); [|by injection H as <- <-].
    pose proof (click_speed_btn_layout w 2) as Hl.
    destruct (click_speed_btn w 2). by injection H as <- <-.
  - injection H as H. pose proof (click_speed_btn_layout w i) as Hl. by rewrite H in Hl.
  - by injection H as <- <-.
  - by injection H as <- <-.
  - by injection H as <- <-.
  - destruct (camera w) as [c|] eqn:Hc in H; [|by injection H as <- <-].
    unfold VideoWidget_updateState in H. rewrite Hc in H. bind_inv H. destruct a as [s sg].
    destruct (deliver_all _ sg). bind_inv H. injection H as <- <-. unfold layout. simpl.
    by rewrite Hc.
  - by eapply on_slider_layout.
  - destruct (camera w) as [c|] eqn:Hc in H; [|by injection H as <- <-].
    unfold VideoWidget_setMaximumTime in H.
    apply with_delivery_layout in H as (w0 & sg & H & ->).
    by eapply setMaximumTime_signals_layout.
  - unfold VideoWidget_updateTimeRange in H. destruct (liveStreaming can).
    + destruct (skip_to_end_btn w) eqn:Hs; [|discriminate]. injection H as <- <-.
      unfold layout. simpl. by rewrite Hs.
    + destruct (camera w) as [c|] eqn:Hc; [|discriminate].
      apply with_delivery_layout in H as (w0 & sg & H & ->).
      bind_inv H. destruct a as [s sg']. injection H as <- <-. unfold layout. simpl.
      by rewrite Hc.
  - by eapply on_slider_layout.
  - by eapply on_slider_layout.
  - by eapply on_slider_layout.
  - by eapply on_slider_layout.
  - by eapply on_slider_layout.
Qed.

Lemma new_layout can w :
  VideoWidget_new can = Ok w → layout w = (negb (liveStreaming can), liveStreaming can).
Proof.
  unfold VideoWidget_new. intros H. bind_inv H. injection H as <-.
  destruct (liveStreaming can); simpl in *.
  - by injection E as <-.
  - unfold createCameraWidget in E. bind_inv E. destruct a0 as [w1 sg]. injection E as <-.
    apply setMaximumTime_signals_layout in E0. unfold layout in *. simpl in *.
    by injection E0 as -> ->.
Qed.

(** X4. The layout is fixed by the constructor.  A widget the program
    reaches has either the camera part (camera view, alert overlay,
    slider and time labels) or the skip-to-end button, never both and
    never neither, and no event changes which. *)
Theorem reachable_layout can w ev w' eff :
  reachable w → handle can w ev = Ok (w', eff) →
  (is_Some (camera w) ↔ skip_to_end_btn w = None) ∧
  (is_Some (camera w') ↔ is_Some (camera w)) ∧
  (is_Some (skip_to_end_btn w') ↔ is_Some (skip_to_end_btn w)).
Proof.
  intros Hr H.
  assert (Hinv : ∃ live, layout w = (negb live, live)).
  { clear H. induction Hr as [can0 w0 Hnew | can0 w0 ev0 w1 eff0 _ IH Hstep].
    - exists (liveStreaming can0). by apply new_layout.
    - destruct IH as [live IH]. exists live. by rewrite (handle_layout _ _ _ _ _ Hstep). }
  apply handle_layout in H. destruct Hinv as [live Hinv].
  unfold layout in *. injection H as H1 H2. injection Hinv as H3 H4.
  destruct (camera w), (skip_to_end_btn w), (camera w'), (skip_to_end_btn w'), live;
    try discriminate; split_and!; split; intros Hx; eauto; try done;
    try (by destruct Hx).
Qed.

End Layout.

(** ** Construction *)

Section Construction.
Context {tk : Toolkit}.

Lemma createCameraWidget_inv can w0 w :
  createCameraWidget can w0 = Ok w →
  ∃ hi,
    Double.ltb Double.zero (totalSeconds can) = true ∧
    Double.to_int (Double.mul (totalSeconds can) factor) = Ok hi ∧
    w = VideoWidget_with_camera (VideoWidget_with_maximum_time w0 (totalSeconds can))
          (Some {| end_time_label := formatSeconds (totalSeconds can);
                   time_label := "00:00"; alert_label := InfoLabel_new;
                   slider := Slider_with_qslider Slider_new
                     (QSlider_setRange (QSlider_with_singleStep (qslider Slider_new) 0)
                                       0 hi).1 |}).
Proof.
  unfold createCameraWidget. intros H. bind_inv H. destruct a as [w1 sg].
  injection H as <-. unfold VideoWidget_setMaximumTime_signals in E.
  cbn [camera VideoWidget_with_camera VideoWidget_with_maximum_time] in E.
  bind_inv E. destruct a as [s sg']. injection E as <- <-.
  unfold Slider_setTimeRange in E0. bind_inv E0. bind_inv E0. bind_inv E0.
  unfold assert in E. destruct (Double.ltb Double.zero (totalSeconds can)) eqn:Hlt;
    [|discriminate].
  change (Double.to_int (Double.mul Double.zero factor)) with (Ok (A:=Z) 0) in E1.
  injection E1 as <-. exists a1. split; [done|]. split; [done|].
  cbn [slider CameraPart_with_end_time_label qslider Slider_with_qslider] in E0.
  destruct (QSlider_setRange _ 0 a1) as [q sgq]. by injection E0 as <- <-.
Qed.

Lemma new_replay_inv can w :
  liveStreaming can = false → VideoWidget_new can = Ok w →
  ∃ hi,
    Double.ltb Double.zero (totalSeconds can) = true ∧
    Double.to_int (Double.mul (totalSeconds can) factor) = Ok hi ∧
    skip_to_end_btn w = None ∧ maximum_time w = totalSeconds can ∧
    camera w
    = Some {| end_time_label := formatSeconds (totalSeconds can);
              time_label := "00:00"; alert_label := InfoLabel_new;
              slider := Slider_with_qslider Slider_new
                (QSlider_setRange (QSlider_with_singleStep (qslider Slider_new) 0)
                                  0 hi).1 |}.
Proof.
  intros Hlive H. unfold VideoWidget_new in H. rewrite Hlive in H.
  cbn [negb] in H. bind_inv H. injection H as <-.
  destruct (createCameraWidget_inv _ _ _ E) as (hi & Hlt & Hhi & ->).
  exists hi. simpl. done.
Qed.

(** X5. When the constructor completes.  On a live stream it always
    does, and the widget has the skip-to-end button and no camera part.
    On a replay stream it completes exactly when [0 < totalSeconds()] and
    [totalSeconds() * 1000] fits an [int]; the widget then has the camera
    part with the slider at 0 in the range from 0 to that number of
    milliseconds, the time label "00:00", empty maps of alerts and
    thumbnails, both labels hidden, and no skip-to-end button. *)
Theorem VideoWidget_new_completes can :
  (liveStreaming can = true →
   ∃ w, VideoWidget_new can = Ok w ∧ camera w = None ∧ is_Some (skip_to_end_btn w)) ∧
  (liveStreaming can = false →
   ((∃ w, VideoWidget_new can = Ok w) ↔
    (Double.ltb Double.zero (totalSeconds can) = true ∧
     ∃ hi, Double.to_int (Double.mul (totalSeconds can) factor) = Ok hi)) ∧
   ∀ w, VideoWidget_new can = Ok w →
     ∃ c hi, camera w = Some c ∧ skip_to_end_btn w = None ∧
       Double.to_int (Double.mul (totalSeconds can) factor) = Ok hi ∧
       minimum (qslider (slider c)) = 0 ∧
       maximum (qslider (slider c)) = Z.max 0 hi ∧
       value (qslider (slider c)) = 0 ∧
       singleStep (qslider (slider c)) = 0 ∧
       time_label c = "00:00" ∧
       end_time_label c = formatSeconds (totalSeconds can) ∧
       maximum_time w = totalSeconds can ∧
       stored (slider c) = (∅, ∅) ∧
       label_visible (alert_label c) = false ∧
       label_visible (thumbnail_label (slider c)) = false).
Proof.
  split.
  - intros Hlive. unfold VideoWidget_new. rewrite Hlive. simpl. eexists.
    split; [reflexivity|]. simpl. split; [done | by eexists].
  - intros Hlive. split.
    + split.
      * intros [w H].
        destruct (new_replay_inv _ _ Hlive H) as (hi & Hlt & Hhi & _). eauto.
      * intros (Hlt & hi & Hhi). unfold VideoWidget_new. rewrite Hlive.
        cbn [negb]. unfold createCameraWidget, VideoWidget_setMaximumTime_signals,
          Slider_setTimeRange.
        cbn [camera VideoWidget_with_camera VideoWidget_with_maximum_time].
        rewrite Hlt. cbn [assert mbind result_bind].
        change (Double.to_int (Double.mul Double.zero factor)) with (Ok (A:=Z) 0).
        cbn [mbind result_bind]. rewrite Hhi. cbn [mbind result_bind].
        destruct (QSlider_setRange _ 0 hi). cbn [mbind result_bind]. eauto.
    + intros w H.
      destruct (new_replay_inv _ _ Hlive H) as (hi & _ & Hhi & Hs & Hm & Hc).
      eexists _, hi. split; [exact Hc|]. split; [exact Hs|]. split; [exact Hhi|].
      rewrite Hm. cbn [slider qslider Slider_with_qslider time_label end_time_label
                       alert_label thumbnail_label stored thumbnails alerts].
      unfold QSlider_setRange. cbn [minimum maximum value QSlider_with_range
        QSlider_with_singleStep Slider_new qslider singleStep].
      destruct ((0 =? 0) && (Z.max 0 hi =? 99)) eqn:Hb; cbn [fst].
      * apply andb_true_iff in Hb as [_ Hb]. apply Z.eqb_eq in Hb.
        cbn. split_and!; try done.
      * unfold QSlider_setValue. cbn [minimum maximum value QSlider_with_range
          QSlider_with_singleStep].
        replace (Z.max 0 (Z.min (Z.max 0 hi) 0)) with 0 by lia.
        cbn. split_and!; done.
Qed.

End Construction.

(** ** The two labels *)

Lemma showAlert_overlay_ok l a : overlay_ok (InfoLabel_showAlert l a).
Proof. by split. Qed.

Lemma paintEvent_alert_part (l : InfoLabel) :
  InfoLabel_paintEvent l
  = (if negb (QPixmap_isNull (pixmap l))
     then [DrawPixmap (pixmap l); DrawFrame; DrawSecond (second l)]
     else [])
    ++ (if QString_isEmpty (text1 (alert_info l)) then []
        else [FillTextBackground (alert_color (alert_info l));
              DrawAlertText (alert_text (alert_info l)) (negb (QPixmap_isNull (pixmap l)))]).
Proof.
  unfold InfoLabel_paintEvent, alert_color, alert_text. f_equal.
  rewrite length_pos_nonempty.
  destruct (QString_isEmpty (text1 (alert_info l))); [done|]. simpl.
  destruct (status (alert_info l)), (text2 (alert_info l)); reflexivity.
Qed.

(** X6. What the labels paint.  After [showAlert] the label paints
    nothing when the first text is empty, and otherwise only the
    background and the text, with the second text on a new line when there
    is one; a thumbnail shown before is gone.  The background is the
    timeline colour of the alert's status (warning for USER_PROMPT,
    critical for CRITICAL, info otherwise) with its opacity set to 0.5,
    where the timeline colours themselves are opaque.  After [showPixmap]
    with a thumbnail it paints the thumbnail, the frame and the time, and
    then the alert in the small font. *)
Theorem labels_paint l a pt sec pm :
  InfoLabel_paintEvent (InfoLabel_showAlert l a)
  = (if QString_isEmpty (text1 a) then []
     else [FillTextBackground (alert_color a); DrawAlertText (alert_text a) false]) ∧
  (QPixmap_isNull pm = false →
   InfoLabel_paintEvent (InfoLabel_showPixmap l pt sec pm a)
   = [DrawPixmap pm; DrawFrame; DrawSecond sec]
     ++ (if QString_isEmpty (text1 a) then []
         else [FillTextBackground (alert_color a); DrawAlertText (alert_text a) true])) ∧
  (label_visible (InfoLabel_showAlert l a) = true ↔
   InfoLabel_paintEvent (InfoLabel_showAlert l a) ≠ []) ∧
  alert_color a
  = QColor_setAlphaF
      (if decide (status a = USER_PROMPT) then timeline_colors TL_AlertWarning
       else if decide (status a = CRITICAL) then timeline_colors TL_AlertCritical
       else timeline_colors TL_AlertInfo)
      Double.lit_0_5 ∧
  alert_color a
  = (if decide (status a = USER_PROMPT)
     then {| red := 255; green := 195; blue := 0; alphaF := Double.lit_0_5 |}
     else if decide (status a = CRITICAL)
     then {| red := 199; green := 0; blue := 57; alphaF := Double.lit_0_5 |}
     else {| red := 0; green := 255; blue := 0; alphaF := Double.lit_0_5 |}) ∧
  (∀ t, alphaF (timeline_colors t) = Double.one) ∧
  Double.lit_0_5 = S754_finite false 4503599627370496 (-53) ∧
  (text2 a = "" → alert_text a = text1 a) ∧
  (text2 a ≠ "" → alert_text a = (text1 a ++ newline ++ text2 a)%string).
Proof.
  split_and!.
  - by rewrite paintEvent_alert_part.
  - intros Hpm. rewrite paintEvent_alert_part. simpl. by rewrite Hpm.
  - rewrite paintEvent_alert_part. simpl.
    destruct (QString_isEmpty (text1 a)); simpl; split; intros; congruence.
  - unfold alert_color. by destruct (status a).
  - unfold alert_color. by destruct (status a).
  - by intros [].
  - reflexivity.
  - unfold alert_text. by intros ->.
  - unfold alert_text. by destruct (text2 a).
Qed.

Section Labels.
Context {tk : Toolkit}.

Lemma setCurrentSecond_label s sec s' sg :
  Slider_setCurrentSecond s sec = Ok (s', sg) → thumbnail_label s' = thumbnail_label s.
Proof.
  unfold Slider_setCurrentSecond. intros H. bind_inv H.
  destruct (QSlider_setValue _ _). by injection H as <- <-.
Qed.

Lemma setTimeRange_label s min max s' sg :
  Slider_setTimeRange s min max = Ok (s', sg) → thumbnail_label s' = thumbnail_label s.
Proof.
  unfold Slider_setTimeRange. intros H. do 3 bind_inv H.
  destruct (QSlider_setRange _ _ _). by injection H as <- <-.
Qed.

Lemma mousePressEvent_label s e s' sg :
  Slider_mousePressEvent s e = Ok (s', sg) → thumbnail_label s' = thumbnail_label s.
Proof.
  unfold Slider_mousePressEvent. destruct (QSlider_mousePressEvent _ _) as [q sg0].
  destruct (_ && _).
  - intros H. do 4 bind_inv H. destruct (QSlider_setValue _ _).
    by injection H as <- <-.
  - by intros [= <- <-].
Qed.

Lemma mouseMoveEvent_label can s e s' sg :
  Slider_mouseMoveEvent can s e = Ok (s', sg) →
  preview_step (thumbnail_label s) (thumbnail_label s').
Proof.
  unfold Slider_mouseMoveEvent. intros H. do 4 bind_inv H.
  destruct (QSlider_mouseMoveEvent _ _). injection H as <- <-. simpl.
  destruct (QPixmap_isNull a1) eqn:Hn; simpl in E2.
  - injection E2 as <-. right. by left.
  - do 2 bind_inv E2. injection E2 as <-. right. right. eauto 8.
Qed.

Lemma event_label s ty :
  preview_step (thumbnail_label s) (thumbnail_label (Slider_event s ty).1).
Proof.
  unfold Slider_event. destruct (QSlider_event _ _) as [q sg] eqn:E. simpl.
  destruct ty; simpl; (by left) || (right; by left).
Qed.

Lemma event_hides s ty :
  ty ≠ OtherEventType → label_visible (thumbnail_label (Slider_event s ty).1) = false.
Proof.
  intros Hty. unfold Slider_event. destruct (QSlider_event _ _) as [q sg] eqn:E.
  simpl. by destruct ty.
Qed.

Lemma parseQLog_event_label s e :
  thumbnail_label (parseQLog_event s e) = thumbnail_label s.
Proof.
  unfold parseQLog_event. destruct (which e); [|by destruct (_ && _ && _)|done].
  by destruct (loadFromData _ _).
Qed.

Lemma parseQLog_label s sched :
  thumbnail_label (foldl parseQLog_event s sched) = thumbnail_label s.
Proof.
  revert s. induction sched as [|e sched IH]; intros s; [done|].
  simpl. by rewrite IH, parseQLog_event_label.
Qed.

(** One event changes the two labels only by [showAlert] on the overlay
    and by [hide] or [showPixmap] with a thumbnail on the preview. *)
Lemma handle_labels can w ev w' eff c' :
  handle can w ev = Ok (w', eff) → camera w' = Some c' →
  ∃ c, camera w = Some c ∧
    overlay_step (alert_label c) (alert_label c') ∧
    preview_step (thumbnail_label (slider c)) (thumbnail_label (slider c')).
Proof.
  intros H Hc'.
  assert (Hsame : camera w' = camera w →
            ∃ c, camera w = Some c ∧
              overlay_step (alert_label c) (alert_label c') ∧
              preview_step (thumbnail_label (slider c)) (thumbnail_label (slider c'))).
  { intros Heq. exists c'. split; [congruence|]. split; by left. }
  destruct ev; simpl in H.
  - injection H as <- <-. eauto.
  - assert (w' = w) as -> by (destruct (camera w); by injection H as <- _). eauto.
  - apply Hsame. destruct (skip_to_end_btn w) as [b0|]; [|by injection H as <- _].
    destruct (btn_enabled b0); [|by injection H as <- _].
    unfold click_speed_btn in H. destruct (speed_btns w !! 2%nat) as [[b sp]|];
      by injection H as <- _.
  - apply Hsame. unfold click_speed_btn in H.
    destruct (speed_btns w !! i) as [[b sp]|]; by injection H as <- <-.
  - injection H as <- <-. eauto.
  - injection H as <- <-. eauto.
  - injection H as <- <-. eauto.
  - destruct (camera w) as [c|] eqn:Hc in H; [|injection H as <- <-; congruence].
    unfold VideoWidget_updateState in H. rewrite Hc in H.
    bind_inv H. destruct a as [s sg].
    pose proof (deliver_all_keeps (CameraPart_with_slider c s) sg) as (Hs & Hl & _).
    destruct (deliver_all _ sg) as [c1 eff1]. bind_inv H. injection H as <- <-.
    simpl in Hc', Hs, Hl. injection Hc' as <-. exists c. split; [done|]. simpl.
    split.
    + right. exists a. by rewrite Hl.
    + rewrite Hs. left. destruct (isSliderDown _); simpl in E.
      * by injection E as <- <-.
      * by eapply setCurrentSecond_label.
  - apply on_slider_inv with (c' := c') in H as (c & sg & Hc & Hf & Hl); [|done].
    exists c. split; [done|]. split; [left; done|]. left.
    unfold Slider_parseQLog in Hf. injection Hf as <- _. apply parseQLog_label.
  - destruct (camera w) as [c1|] eqn:Hc in H; [|injection H as <- <-; congruence].
    unfold VideoWidget_setMaximumTime in H.
    apply with_delivery_inv with (c' := c') in H as (w0 & sg & c0 & H & Hc0 & Hs & Hl); [|done].
    unfold VideoWidget_setMaximumTime_signals in H. simpl in H. rewrite Hc in H.
    bind_inv H. destruct a as [s sg']. injection H as <- <-. simpl in Hc0.
    injection Hc0 as <-. exists c1. split; [done|]. rewrite Hl, Hs. simpl.
    split; left; [done|]. by eapply setTimeRange_label.
  - unfold VideoWidget_updateTimeRange in H. destruct (liveStreaming can).
    + destruct (skip_to_end_btn w); [|discriminate]. injection H as <- <-. eauto.
    + destruct (camera w) as [c|] eqn:Hc; [|discriminate].
      apply with_delivery_inv with (c' := c') in H as (w0 & sg & c0 & H & Hc0 & Hs & Hl); [|done].
      bind_inv H. destruct a as [s sg']. injection H as <- <-. simpl in Hc0.
      injection Hc0 as <-. exists c. split; [done|]. rewrite Hl, Hs. simpl.
      split; left; [done|]. by eapply setTimeRange_label.
  - apply on_slider_inv with (c' := c') in H as (c & sg & Hc & Hf & Hl); [|done].
    exists c. split; [done|]. split; left; [done|]. by eapply mousePressEvent_label.
  - apply on_slider_inv with (c' := c') in H as (c & sg & Hc & Hf & Hl); [|done].
    exists c. split; [done|]. split; [by left|]. by eapply mouseMoveEvent_label.
  - apply on_slider_inv with (c' := c') in H as (c & sg & Hc & Hf & Hl); [|done].
    exists c. split; [done|]. split; left; [done|].
    destruct (QSlider_mouseReleaseEvent _ _). by injection Hf as <- _.
  - apply on_slider_inv with (c' := c') in H as (c & sg & Hc & Hf & Hl); [|done].
    exists c. split; [done|]. split; [by left|].
    injection Hf as Hf. apply (f_equal fst) in Hf. simpl in Hf. rewrite <- Hf.
    apply event_label.
  - apply on_slider_inv with (c' := c') in H as (c & sg & Hc & Hf & Hl); [|done].
    exists c. split; [done|]. split; left; [done|].
    by injection Hf as <- _.
Qed.

Lemma new_labels can w c :
  VideoWidget_new can = Ok w → camera w = Some c →
  alert_label c = InfoLabel_new ∧ thumbnail_label (slider c) = InfoLabel_new.
Proof.
  intros H Hc. unfold VideoWidget_new in H. destruct (liveStreaming can) eqn:Hlive;
    cbn [negb] in H; bind_inv H; injection H as <-; simpl in Hc.
  - injection E as <-. discriminate.
  - destruct (createCameraWidget_inv _ _ _ E) as (hi & _ & _ & ->). simpl in Hc.
    by injection Hc as <-.
Qed.

Lemma reachable_labels w c :
  reachable w → camera w = Some c →
  overlay_ok (alert_label c) ∧ preview_ok (thumbnail_label (slider c)).
Proof.
  intros Hr. revert c. induction Hr as [can w H|can w ev w' eff Hr IH H]; intros c Hc.
  - destruct (new_labels _ _ _ H Hc) as [-> ->]. split; [by split|].
    intros Hv. discriminate.
  - destruct (handle_labels _ _ _ _ _ _ H Hc) as (c0 & Hc0 & Ho & Hp).
    destruct (IH _ Hc0) as [IHo IHp]. split.
    + destruct Ho as [->|[a ->]]; [done | apply showAlert_overlay_ok].
    + destruct Hp as [->|[->|(pt & sec & pm & a & Hn & ->)]]; [done| |].
      * intros Hv. discriminate.
      * intros _. by split.
Qed.

(** X7. The alert overlay of any widget reached from the constructor
    is visible exactly when it has something to paint, which is exactly
    when its alert has a first text; it never holds a thumbnail, so it
    paints the alert in the large font and no frame or time. *)
Theorem reachable_overlay w c :
  reachable w → camera w = Some c →
  (label_visible (alert_label c) = true ↔ text1 (alert_info (alert_label c)) ≠ "") ∧
  (label_visible (alert_label c) = true ↔ InfoLabel_paintEvent (alert_label c) ≠ []) ∧
  InfoLabel_paintEvent (alert_label c)
  = (if label_visible (alert_label c)
     then [FillTextBackground (alert_color (alert_info (alert_label c)));
           DrawAlertText (alert_text (alert_info (alert_label c))) false]
     else []).
Proof.
  intros Hr Hc. destruct (reachable_labels _ _ Hr Hc) as [[Hv Hp] _].
  rewrite paintEvent_alert_part, Hp, Hv. simpl.
  unfold QString_isEmpty.
  destruct (text1 (alert_info (alert_label c))); simpl; split_and!; try done;
    split; intros; congruence.
Qed.

(** X8. The preview of any widget reached from the constructor, when
    visible, holds a thumbnail, has the thumbnail's size, and paints the
    thumbnail, the frame and the time first; a window activation or
    deactivation, a focus change and a leave of the slider hide it. *)
Theorem reachable_preview can w c ty :
  reachable w → camera w = Some c →
  (label_visible (thumbnail_label (slider c)) = true →
   QPixmap_isNull (pixmap (thumbnail_label (slider c))) = false ∧
   label_size (thumbnail_label (slider c)) = QPixmap_size (pixmap (thumbnail_label (slider c))) ∧
   ∃ rest, InfoLabel_paintEvent (thumbnail_label (slider c))
           = DrawPixmap (pixmap (thumbnail_label (slider c))) :: DrawFrame
             :: DrawSecond (second (thumbnail_label (slider c))) :: rest) ∧
  (ty ≠ OtherEventType →
   ∃ w' c' eff, handle can w (SliderEvent ty) = Ok (w', eff) ∧ camera w' = Some c' ∧
     label_visible (thumbnail_label (slider c')) = false).
Proof.
  intros Hr Hc. destruct (reachable_labels _ _ Hr Hc) as [_ Hp]. split.
  - intros Hv. destruct (Hp Hv) as [Hn Hs]. split; [done|]. split; [done|].
    rewrite paintEvent_alert_part, Hn. simpl. eauto.
  - intros Hty. simpl. unfold on_slider. rewrite Hc. simpl.
    pose proof (event_hides (slider c) ty Hty) as Hh.
    destruct (Slider_event (slider c) ty) as [s sg]. simpl in Hh.
    pose proof (deliver_all_keeps (CameraPart_with_slider c s) sg) as (Hs & _).
    destruct (deliver_all _ sg) as [c1 eff1]. simpl in Hs. eexists _, c1, eff1.
    split; [done|]. split; [done|]. by rewrite Hs.
Qed.

End Labels.

(** ** The maps [parseQLog] builds *)

Lemma emplace_union {V} (k : Z) (v : V) (m : gmap Z V) :
  emplace k v m = m ∪ {[k := v]}.
Proof.
  unfold emplace. destruct (m !! k) as [u|] eqn:Hk.
  - apply map_eq. intros j. rewrite lookup_union.
    destruct (decide (k = j)) as [<-|Hne].
    + rewrite Hk, lookup_singleton_eq. done.
    + rewrite lookup_singleton_ne by done. by destruct (m !! j).
  - by apply insert_union_singleton_r.
Qed.

Section QLogMaps.
Context {tk : Toolkit}.

Lemma parseQLog_event_entries s e :
  alerts (parseQLog_event s e)
  = match alert_entry e with
    | Some (k, a) => emplace k a (alerts s)
    | None => alerts s
    end ∧
  thumbnails (parseQLog_event s e)
  = match thumbnail_entry e with
    | Some (k, pm) => <[k := pm]> (thumbnails s)
    | None => thumbnails s
    end.
Proof.
  unfold parseQLog_event, alert_entry, thumbnail_entry. destruct (which e).
  - by destruct (loadFromData _ _).
  - by destruct (_ && _ && _).
  - done.
Qed.

Lemma parseQLog_alerts_union sched : ∀ s,
  alerts (foldl parseQLog_event s sched)
  = alerts s ∪ list_to_map (omap alert_entry sched).
Proof.
  induction sched as [|e sched IH]; intros s.
  - simpl. by rewrite (right_id ∅ (∪)).
  - simpl. rewrite IH. destruct (parseQLog_event_entries s e) as [-> _].
    destruct (alert_entry e) as [[k a]|]; [|done].
    rewrite emplace_union. simpl.
    by rewrite insert_union_singleton_l, (assoc (∪)).
Qed.

Lemma parseQLog_thumbnails_union sched : ∀ s,
  thumbnails (foldl parseQLog_event s sched)
  = list_to_map (reverse (omap thumbnail_entry sched)) ∪ thumbnails s.
Proof.
  induction sched as [|e sched IH]; intros s.
  - simpl. by rewrite (left_id ∅ (∪)).
  - simpl. rewrite IH. destruct (parseQLog_event_entries s e) as [_ ->].
    destruct (thumbnail_entry e) as [[k pm]|]; [|done].
    simpl. rewrite reverse_cons, list_to_map_app. simpl.
    rewrite insert_empty, <- (assoc (∪)).
    by rewrite <- insert_union_singleton_l.
Qed.

(** X9. The maps after [parseQLog], in closed form.  The alerts are
    the old alerts joined with the alerts of the events, where an old
    alert wins over a new one with the same time and among the new ones
    the one the schedule runs first wins; the thumbnails are those of the
    events joined with the old ones, where a new thumbnail replaces an old
    one and among the new ones the one run last wins.  The slider's state
    and the preview stay. *)
Theorem parseQLog_maps can s segnum qlog sched :
  let s' := (Slider_parseQLog can s segnum qlog sched).1 in
  alerts s' = alerts s ∪ list_to_map (omap alert_entry sched) ∧
  thumbnails s' = list_to_map (reverse (omap thumbnail_entry sched)) ∪ thumbnails s ∧
  qslider s' = qslider s ∧ thumbnail_label s' = thumbnail_label s.
Proof.
  simpl. split; [apply parseQLog_alerts_union|].
  split; [apply parseQLog_thumbnails_union|]. apply parseQLog_widget.
Qed.

(** X10. Loading a qlog again with the same schedule changes nothing:
    [parseQLog] applied twice leaves the alerts and the thumbnails as
    after the first time, and emits the same signal. *)
Theorem parseQLog_reload can s segnum qlog sched :
  let r := Slider_parseQLog can s segnum qlog sched in
  stored (Slider_parseQLog can r.1 segnum qlog sched).1 = stored r.1 ∧
  (Slider_parseQLog can r.1 segnum qlog sched).2 = r.2.
Proof.
  simpl. split; [|done]. unfold stored. f_equal.
  - rewrite !parseQLog_thumbnails_union. by rewrite (assoc (∪)), (idemp (∪)).
  - rewrite !parseQLog_alerts_union. by rewrite <- (assoc (∪)), (idemp (∪)).
Qed.

(** X11. [blockingMap] may run the events in any order.  When no two
    stored alerts of the log have the same [mono_time] and no two decoded
    thumbnails the same [timestampEof], every order gives the same alerts,
    thumbnails, slider state and signals. *)
Theorem parseQLog_any_schedule can s segnum qlog sched sched' :
  sched ≡ₚ sched' →
  NoDup (omap alert_entry sched).*1 →
  NoDup (omap thumbnail_entry sched).*1 →
  let r := Slider_parseQLog can s segnum qlog sched in
  let r' := Slider_parseQLog can s segnum qlog sched' in
  stored r.1 = stored r'.1 ∧ qslider r.1 = qslider r'.1 ∧
  thumbnail_label r.1 = thumbnail_label r'.1 ∧ r.2 = r'.2.
Proof.
  intros Hp Ha Ht. simpl. split_and!; [| | |done].
  - unfold stored. f_equal.
    + rewrite !parseQLog_thumbnails_union. f_equal.
      apply list_to_map_proper.
      * by rewrite fmap_reverse, reverse_Permutation.
      * by rewrite !reverse_Permutation, Hp.
    + rewrite !parseQLog_alerts_union. f_equal.
      apply list_to_map_proper; [done | by rewrite Hp].
  - destruct (parseQLog_widget sched s) as [-> _].
    by destruct (parseQLog_widget sched' s) as [-> _].
  - destruct (parseQLog_widget sched s) as [_ ->].
    by destruct (parseQLog_widget sched' s) as [_ ->].
Qed.

(** X12. No event removes or changes a stored alert, and no event
    removes a thumbnail's key: after any event the camera part is still
    there, its alerts contain the alerts before, and its thumbnails have
    at least the keys before. *)
Theorem stored_only_grows can w ev w' eff c :
  handle can w ev = Ok (w', eff) → camera w = Some c →
  ∃ c', camera w' = Some c' ∧
    alerts (slider c) ⊆ alerts (slider c') ∧
    dom (thumbnails (slider c)) ⊆ dom (thumbnails (slider c')).
Proof.
  intros H Hc. pose proof (handle_layout _ _ _ _ _ H) as Hl.
  unfold layout in Hl. rewrite Hc in Hl.
  destruct (camera w') as [c'|] eqn:Hc'; [|by injection Hl].
  exists c'. split; [done|].
  destruct (handle_stored _ _ _ _ _ _ H Hc') as (c0 & Hc0 & Hs).
  assert (c0 = c) as -> by congruence.
  destruct Hs as [Hs|(segnum & qlog & sched & _ & ->)].
  - unfold stored in Hs. injection Hs as -> ->. done.
  - rewrite parseQLog_alerts_union, parseQLog_thumbnails_union. split.
    + apply map_union_subseteq_l.
    + rewrite dom_union. set_solver.
Qed.

End QLogMaps.

(** ** The end of the route *)

Section LastSegment.
Context {tk : Toolkit}.

(** X13. The qlog of the last segment extends the timeline.  When
    [segnum] is the key of the route's last segment and the log has
    events, loading it queues one call of [setMaximumTime] with the time
    of the log's last event since the start of the route, and changes
    neither the maximum time nor the slider; a log of another segment, or
    one without events, queues nothing.  The queued call, once delivered,
    fails its assertion when that time is not positive, and otherwise sets
    the maximum time, the end label and the slider's range to it. *)
Theorem last_qlog_extends_timeline can w c segnum qlog sched :
  camera w = Some c →
  let sec back := Double.sub (Double.div (Double.of_Z (mono_time back)) Double.lit_1e9)
                             (routeStartTime can) in
  let queued :=
    match last (segments can), last (events qlog) with
    | Some last_seg, Some back =>
        if segnum =? last_seg then [QueuedSetMaximumTime (sec back)] else []
    | _, _ => []
    end in
  ∃ w1 c1,
    handle can w (QLogLoaded segnum qlog sched) = Ok (w1, queued) ∧
    camera w1 = Some c1 ∧ maximum_time w1 = maximum_time w ∧
    qslider (slider c1) = qslider (slider c) ∧
    end_time_label c1 = end_time_label c ∧ time_label c1 = time_label c ∧
    ∀ t, QueuedSetMaximumTime t ∈ queued →
      (Double.ltb Double.zero t = false →
       handle can w1 (MaximumTimeDelivered t) = AssertFailed) ∧
      (∀ w2 eff2, handle can w1 (MaximumTimeDelivered t) = Ok (w2, eff2) →
       ∃ c2 hi, camera w2 = Some c2 ∧ maximum_time w2 = t ∧
         end_time_label c2 = formatSeconds t ∧
         Double.to_int (Double.mul t factor) = Ok hi ∧
         minimum (qslider (slider c2)) = 0 ∧
         maximum (qslider (slider c2)) = Z.max 0 hi ∧
         stored (slider c2) = stored (slider c1)).
Proof.
  intros Hc sec queued.
  assert (Hd : ∀ c0, deliver_all c0
                 (match last (segments can), last (events qlog) with
                  | Some last_seg, Some back =>
                      if segnum =? last_seg then [updateMaximumTime (sec back)] else []
                  | _, _ => []
                  end) = (c0, queued)).
  { intros c0. unfold queued. destruct (last (segments can)); [|done].
    destruct (last (events qlog)); [|done]. by destruct (segnum =? _). }
  eexists _, (CameraPart_with_slider c (foldl parseQLog_event (slider c) sched)).
  split; [|split; [|split; [|split; [|split; [|split]]]]].
  - simpl. unfold on_slider. rewrite Hc. simpl. fold sec. rewrite Hd. reflexivity.
  - reflexivity.
  - reflexivity.
  - simpl. apply parseQLog_widget.
  - reflexivity.
  - reflexivity.
  - intros t _. split.
    + intros Hlt. simpl. unfold VideoWidget_setMaximumTime.
      erewrite setMaximumTime_signals_asserts; [done|reflexivity|done].
    + intros w2 eff2 H. simpl in H. unfold VideoWidget_setMaximumTime in H.
      unfold with_delivery in H. bind_inv H. destruct a as [w0 sg].
      unfold VideoWidget_setMaximumTime_signals in E. simpl in E.
      bind_inv E. destruct a as [s sg']. injection E as <- <-. simpl in H.
      match type of H with
      | context [deliver_all ?c0 ?sg0] =>
          pose proof (deliver_all_keeps c0 sg0) as (Hs & Hl & He);
          destruct (deliver_all c0 sg0) as [c2 eff]
      end.
      injection H as <- <-. simpl in Hs, Hl, He.
      pose proof (setTimeRange_stored _ _ _ _ _ E0) as Hst.
      unfold Slider_setTimeRange in E0. do 3 bind_inv E0.
      change (Double.to_int (Double.mul Double.zero factor)) with (Ok (A:=Z) 0) in E1.
      injection E1 as <-.
      pose proof (setRange_range
                    (qslider (foldl parseQLog_event (slider c) sched)) 0 a1)
        as (Hmin & Hmax & _).
      simpl in E0. destruct (QSlider_setRange _ 0 a1) as [q sgq].
      injection E0 as <- <-. simpl in *.
      exists c2, a1. rewrite Hs. simpl. split_and!; done.
Qed.

End LastSegment.

(** ** Edge cases of the slider *)

Lemma sub_diag_ratio_nan (x w : Double.t) :
  Double.mul (Double.div (Double.sub x x) (Double.sub x x)) w = S754_nan.
Proof.
  assert (H : Double.sub x x = S754_nan ∨ Double.sub x x = S754_zero false).
  { destruct x as [s|s| |s m e].
    - right. by destruct s.
    - left. by destruct s.
    - by left.
    - right. unfold Double.sub, SFsub. rewrite Z.sub_diag. reflexivity. }
  destruct H as [-> | ->]; reflexivity.
Qed.

Section SliderEdges.
Context {tk : Toolkit}.

Lemma paint_timeline_all_skipped min max w st tl :
  Forall (fun seg => segment_skipped min max seg = true) tl →
  paint_timeline min max w st tl = Ok st.
Proof.
  induction 1 as [|[[b e] ty] tl Hs _ IH]; [done|].
  simpl. unfold segment_skipped in Hs. simpl in Hs. destruct st as [r ops].
  rewrite Hs. simpl. exact IH.
Qed.

Lemma paint_timeline_empty_range x w st tl :
  Exists (fun seg => segment_skipped x x seg = false) tl →
  paint_timeline x x w st tl = Undefined.
Proof.
  revert st. induction tl as [|[[b e] ty] tl IH]; intros st Hex.
  - by apply Exists_nil in Hex.
  - simpl. destruct st as [r ops].
    destruct (Double.ltb x b || Double.ltb e x) eqn:Hs.
    + simpl. apply IH. apply Exists_cons in Hex as [Hex|Hex]; [|done].
      unfold segment_skipped in Hex. simpl in Hex. congruence.
    + apply orb_false_iff in Hs as [Hb _].
      unfold Double.max. rewrite Hb. rewrite sub_diag_ratio_nan. reflexivity.
Qed.

(** X14. [paintEvent] at the edges.  When the timeline has no segment
    that meets the slider's range, only the bar and the handle are
    painted.  When the range is empty ([minimum() == maximum()], as after
    a zoom into less than a millisecond) and some segment meets it, the
    position of that segment is 0/0, not a number, and its conversion to
    [int] is undefined. *)
Theorem paintEvent_edges can s :
  let q := qslider s in
  let min := Double.div (Double.of_Z (minimum q)) factor in
  let max := Double.div (Double.of_Z (maximum q)) factor in
  (Forall (fun seg => segment_skipped min max seg = true) (getTimeline can) →
   Slider_paintEvent can s
   = Ok [FillRect (QRect_adjusted (QSlider_rect q) 0 4 0 (-4)) (timeline_colors TL_None);
         DrawSliderHandle (minimum q) (maximum q) (value q)]) ∧
  (minimum q = maximum q →
   Exists (fun seg => segment_skipped min max seg = false) (getTimeline can) →
   Slider_paintEvent can s = Undefined).
Proof.
  intros q min max. split.
  - intros Hall. unfold Slider_paintEvent. fold q min max.
    rewrite (paint_timeline_all_skipped _ _ _ _ _ Hall). reflexivity.
  - intros Heq Hex. unfold Slider_paintEvent. fold q min max.
    assert (max = min) as Hm by (unfold min, max; by rewrite Heq).
    rewrite Hm in *. by rewrite paint_timeline_empty_range.
Qed.

(** X15. When a left press that the slider does not grab is defined.
    The jump computes [minimum() + ((maximum() - minimum()) * x) / width()]
    in [int]: the press completes exactly when the width is not 0 and the
    difference, the product, the quotient and the sum fit an [int];
    otherwise the behaviour is undefined.  When it completes, the value is
    that sum forced into the range, and the last signal is the release
    with this value. *)
Theorem mousePressEvent_defined s e q sg0 :
  QSlider_mousePressEvent (qslider s) e = (q, sg0) →
  ev_button e = LeftButton → isSliderDown q = false →
  let d := maximum q - minimum q in
  let v := minimum q + (d * ev_x e) ÷ width q in
  let fits :=
    negb (width q =? 0) && Int.in_range d && Int.in_range (d * ev_x e)
    && Int.in_range ((d * ev_x e) ÷ width q) && Int.in_range v in
  (fits = false → Slider_mousePressEvent s e = Undefined) ∧
  (fits = true →
   ∃ s' sg1,
     Slider_mousePressEvent s e
     = Ok (s', (emitted_at q <$> sg0) ++ sg1
               ++ [sliderReleased (Z.max (minimum q) (Z.min (maximum q) v))]) ∧
     value (qslider s') = Z.max (minimum q) (Z.min (maximum q) v) ∧
     minimum (qslider s') = minimum q ∧ maximum (qslider s') = maximum q ∧
     stored s' = stored s ∧ thumbnail_label s' = thumbnail_label s).
Proof.
  intros Hq Hb Hd d v fits. subst fits v d.
  unfold Slider_mousePressEvent. rewrite Hq, Hb, Hd.
  rewrite bool_decide_eq_true_2 by done. cbn [andb negb].
  unfold Int.sub, Int.mul, Int.div, Int.add, Int.checked.
  split.
  - intros Hf. destruct (Int.in_range (maximum q - minimum q)); [|done].
    cbn [mbind result_bind].
    destruct (Int.in_range (_ * ev_x e)); [|done]. cbn [mbind result_bind].
    destruct (width q =? 0); [done|].
    destruct (Int.in_range (_ ÷ width q)); [|done]. cbn [mbind result_bind].
    destruct (Int.in_range (minimum q + _)); [|done]. simpl in Hf. discriminate.
  - intros Hf. apply andb_true_iff in Hf as [Hf H4]. apply andb_true_iff in Hf as [Hf H3].
    apply andb_true_iff in Hf as [Hf H2]. apply andb_true_iff in Hf as [Hf H1].
    apply negb_true_iff in Hf.
    rewrite H1. cbn [mbind result_bind]. rewrite H2. cbn [mbind result_bind].
    rewrite Hf, H3. cbn [mbind result_bind]. rewrite H4. cbn [mbind result_bind].
    match goal with
    | |- context [QSlider_setValue q ?x] =>
        pose proof (setValue_fields q x) as (Hmin & Hmax & _ & _ & _ & _ & Hv);
        destruct (QSlider_setValue q x) as [q' sg1]
    end.
    simpl in Hmin, Hmax, Hv. eexists _, sg1. rewrite Hv.
    split; [reflexivity|]. simpl. done.
Qed.

(** X16. When a mouse move is undefined.  On a slider of width 0 the
    hovered time is not a number, and on one of negative width the first
    [std::clamp] has its bounds reversed; when a thumbnail is found and
    the slider is narrower than the thumbnail with its two margins, the
    [std::clamp] that places the preview has its bounds reversed.  In each
    case the behaviour is undefined. *)
Theorem mouseMoveEvent_undefined can s e :
  let q := qslider s in
  (width q ≤ 0 → Slider_mouseMoveEvent can s e = Undefined) ∧
  (∀ pos seconds thumb,
     Int.clamp (ev_x e) 0 (width q) = Ok pos →
     hover_seconds q pos = Ok seconds →
     Slider_thumbnail can s seconds = Ok thumb →
     QPixmap_isNull thumb = false →
     width q - 1 - QPixmap_width thumb - THUMBNAIL_MARGIN < THUMBNAIL_MARGIN →
     Slider_mouseMoveEvent can s e = Undefined).
Proof.
  intros q. split.
  - intros Hw. unfold Slider_mouseMoveEvent. fold q. unfold Int.clamp.
    destruct (width q <? 0) eqn:Hneg; [done|].
    apply Z.ltb_ge in Hneg. assert (width q = 0) as Hw0 by lia.
    rewrite Hw0.
    assert ((if ev_x e <? 0 then 0 else if 0 <? ev_x e then 0 else ev_x e) = 0) as ->.
    { destruct (ev_x e <? 0) eqn:H1; [done|]. destruct (0 <? ev_x e) eqn:H2; [done|].
      apply Z.ltb_ge in H1, H2. lia. }
    cbn [mbind result_bind]. unfold hover_seconds. rewrite Hw0.
    unfold Int.sub, Int.checked.
    destruct (Int.in_range (maximum q - minimum q)); [|done].
    cbn [mbind result_bind].
    assert (Hnan : Double.mul (Double.of_Z 0)
                     (Double.div (Double.of_Z (maximum q - minimum q)) (Double.of_Z 0))
                   = S754_nan).
    { destruct (Double.of_Z (maximum q - minimum q)) as [[]|[]| |[] m x]; reflexivity. }
    rewrite Hnan. unfold Slider_thumbnail, mono_time_of.
    assert (Hadd : ∀ x, Double.add x S754_nan = S754_nan) by (by intros [[]|[]| |[] m x]).
    rewrite Hadd. reflexivity.
  - intros pos seconds thumb Hpos Hsec Hth Hnn Hnarrow.
    unfold Slider_mouseMoveEvent. fold q. rewrite Hpos. cbn [mbind result_bind].
    rewrite Hsec. cbn [mbind result_bind]. rewrite Hth. cbn [mbind result_bind].
    rewrite Hnn. cbn [negb].
    assert (preview_point q pos thumb = Undefined) as ->; [|done].
    unfold preview_point, Int.div, Int.sub, Int.checked. cbn [Z.eqb].
    destruct (Int.in_range (QPixmap_width thumb ÷ 2)); [|done]. cbn [mbind result_bind].
    destruct (Int.in_range (pos - _)); [|done]. cbn [mbind result_bind].
    destruct (Int.in_range (x2 (QSlider_rect q) - _)); [|done]. cbn [mbind result_bind].
    destruct (Int.in_range (x2 (QSlider_rect q) - _ - _)); [|done]. cbn [mbind result_bind].
    unfold Int.clamp. simpl x2.
    destruct (_ <? THUMBNAIL_MARGIN) eqn:Hlt; [done|]. apply Z.ltb_ge in Hlt. lia.
Qed.

End SliderEdges.

(** ** What the stream's events do *)

Section StreamEvents.
Context {tk : Toolkit}.

Lemma setValue_quiet q v :
  Forall (fun sg => ∃ x, sg = valueChanged x) (QSlider_setValue q v).2.
Proof.
  unfold QSlider_setValue. destruct (_ =? _); simpl; [done|].
  apply Forall_singleton. eauto.
Qed.

Lemma setRange_quiet q lo hi :
  Forall (fun sg => ∃ x, sg = valueChanged x) (QSlider_setRange q lo hi).2.
Proof.
  unfold QSlider_setRange. destruct (_ && _); simpl; [done|]. apply setValue_quiet.
Qed.

Lemma setTimeRange_quiet s min max s' sg :
  Slider_setTimeRange s min max = Ok (s', sg) →
  Forall (fun sg => ∃ x, sg = valueChanged x) sg.
Proof.
  unfold Slider_setTimeRange. intros H. do 3 bind_inv H.
  pose proof (setRange_quiet (qslider s) a0 a1) as Hq.
  destruct (QSlider_setRange _ _ _). by injection H as <- <-.
Qed.

Lemma foldl_deliver_quiet sgs : ∀ st,
  Forall (fun sg => ∃ x, sg = valueChanged x) sgs →
  (foldl deliver st sgs).2 = st.2.
Proof.
  induction sgs as [|sg sgs IH]; intros [c eff] Hq; [done|].
  apply Forall_cons in Hq as [[x ->] Hq]. simpl. by rewrite IH.
Qed.

Lemma deliver_all_quiet c sgs :
  Forall (fun sg => ∃ x, sg = valueChanged x) sgs → (deliver_all c sgs).2 = [].
Proof. intros Hq. unfold deliver_all. by rewrite foldl_deliver_quiet. Qed.

Lemma with_delivery_quiet r w' eff :
  with_delivery r = Ok (w', eff) →
  (∀ w0 sg, r = Ok (w0, sg) → Forall (fun sg => ∃ x, sg = valueChanged x) sg) →
  eff = [].
Proof.
  unfold with_delivery. intros H Hq. bind_inv H. destruct a as [w0 sg].
  specialize (Hq _ _ E). destruct (camera w0) as [c0|].
  - pose proof (deliver_all_quiet c0 sg Hq) as Hd.
    destruct (deliver_all c0 sg). by injection H as <- <-.
  - by injection H as <- <-.
Qed.

Lemma updateState_quiet can w w' eff :
  VideoWidget_updateState can w = Ok (w', eff) → eff = [].
Proof.
  unfold VideoWidget_updateState. destruct (camera w) as [c|]; [|discriminate].
  intros H. bind_inv H. destruct a as [s sg].
  assert (Hq : Forall (fun sg => ∃ x, sg = valueChanged x) sg).
  { destruct (isSliderDown _); simpl in E.
    - by injection E as <- <-.
    - unfold Slider_setCurrentSecond in E. bind_inv E.
      pose proof (setValue_quiet (qslider (slider c)) a) as Hq.
      destruct (QSlider_setValue _ _). by injection E as <- <-. }
  pose proof (deliver_all_quiet (CameraPart_with_slider c s) sg Hq) as Hd.
  destruct (deliver_all _ sg). bind_inv H. by injection H as <- <-.
Qed.

Lemma updateTimeRange_quiet can w min max z w' eff :
  VideoWidget_updateTimeRange can w min max z = Ok (w', eff) → eff = [].
Proof.
  unfold VideoWidget_updateTimeRange. intros H. destruct (liveStreaming can).
  - destruct (skip_to_end_btn w); [|discriminate]. by injection H as <- <-.
  - destruct (camera w) as [c|] eqn:Hc; [|discriminate].
    apply with_delivery_quiet in H; [done|].
    intros w0 sg0 E. bind_inv E. destruct a as [s sg']. injection E as <- <-.
    by eapply setTimeRange_quiet.
Qed.

(** X17. The stream's events are never answered.  A pause, a resume,
    a change of the settings, an update of the stream, a new time range
    and a delivered maximum time change the widget only: they call
    nothing on the stream and queue nothing, whatever the slider emits
    meanwhile. *)
Theorem stream_events_are_silent can w ev w' eff :
  from_stream ev = true → handle can w ev = Ok (w', eff) → eff = [].
Proof.
  intros Hev H. destruct ev; try discriminate; simpl in H.
  - by injection H as <- <-.
  - by injection H as <- <-.
  - by injection H as <- <-.
  - destruct (camera w) as [c|] eqn:Hc; [|by injection H as <- <-].
    by eapply updateState_quiet.
  - destruct (camera w) as [c|] eqn:Hc; [|by injection H as <- <-].
    unfold VideoWidget_setMaximumTime in H.
    apply with_delivery_quiet in H; [done|].
    intros w0 sg0 E. unfold VideoWidget_setMaximumTime_signals in E. simpl in E.
    rewrite Hc in E. bind_inv E. destruct a as [s sg']. injection E as <- <-.
    by eapply setTimeRange_quiet.
  - by eapply updateTimeRange_quiet.
Qed.

Lemma setMaximumTime_ok w sec w' eff :
  VideoWidget_setMaximumTime w sec = Ok (w', eff) →
  maximum_time w' = sec ∧ Double.ltb Double.zero sec = true ∧
  ∃ hi, Double.to_int (Double.mul sec factor) = Ok hi.
Proof.
  unfold VideoWidget_setMaximumTime, with_delivery. intros H. bind_inv H.
  destruct a as [w0 sg]. unfold VideoWidget_setMaximumTime_signals in E. simpl in E.
  destruct (camera w) as [c|]; [|discriminate]. bind_inv E. destruct a as [s sg'].
  injection E as <- <-. simpl in H.
  destruct (deliver_all _ sg'). injection H as <- <-. simpl. split; [done|].
  unfold Slider_setTimeRange in E0. do 3 bind_inv E0.
  unfold assert in E. destruct (Double.ltb Double.zero sec); [|discriminate]. eauto.
Qed.

Lemma on_slider_maximum_time w f w' eff :
  on_slider w f = Ok (w', eff) → maximum_time w' = maximum_time w.
Proof.
  unfold on_slider. destruct (camera w) as [c|]; [|by intros [= <- <-]].
  intros H. bind_inv H. destruct a as [s sg]. destruct (deliver_all _ sg).
  by injection H as <- <-.
Qed.

Lemma handle_maximum_time can w ev w' eff :
  handle can w ev = Ok (w', eff) →
  maximum_time w' = maximum_time w ∨
  (Double.ltb Double.zero (maximum_time w') = true ∧
   ∃ hi, Double.to_int (Double.mul (maximum_time w') factor) = Ok hi).
Proof.
  intros H. destruct ev; simpl in H;
    try (left; by eapply on_slider_maximum_time).
  - left. by injection H as <- <-.
  - left. destruct (camera w); by injection H as <- <-.
  - left. destruct (skip_to_end_btn w) as [b0|]; [|by injection H as <- <-].
    destruct (btn_enabled b0); [|by injection H as <- <-].
    unfold click_speed_btn in H. destruct (speed_btns w !! 2%nat) as [[b sp]|];
      by injection H as <- <-.
  - left. unfold click_speed_btn in H. destruct (speed_btns w !! i) as [[b sp]|];
      by injection H as <- <-.
  - left. by injection H as <- <-.
  - left. by injection H as <- <-.
  - left. by injection H as <- <-.
  - left. destruct (camera w) as [c|] eqn:Hc; [|by injection H as <- <-].
    unfold VideoWidget_updateState in H. rewrite Hc in H. bind_inv H.
    destruct a as [s sg]. destruct (deliver_all _ sg). bind_inv H.
    by injection H as <- <-.
  - destruct (camera w) as [c|] eqn:Hc; [|left; by injection H as <- <-].
    right. destruct (setMaximumTime_ok _ _ _ _ H) as (-> & Hlt & Hhi). done.
  - left. unfold VideoWidget_updateTimeRange in H. destruct (liveStreaming can).
    + destruct (skip_to_end_btn w); [|discriminate]. by injection H as <- <-.
    + destruct (camera w) as [c|]; [|discriminate].
      unfold with_delivery in H. bind_inv H. destruct a as [w0 sg].
      bind_inv E. destruct a as [s sg']. injection E as <- <-. simpl in H.
      destruct (deliver_all _ sg'). by injection H as <- <-.
Qed.

Lemma reachable_maximum_time_ok w : reachable w → maximum_time_ok w.
Proof.
  induction 1 as [can w H|can w ev w' eff Hr IH H].
  - intros [c Hc]. destruct (liveStreaming can) eqn:Hlive.
    + pose proof (new_layout _ _ H) as Hl. rewrite Hlive in Hl. unfold layout in Hl.
      rewrite Hc in Hl. by injection Hl.
    + destruct (new_replay_inv _ _ Hlive H) as (hi & Hlt & Hhi & _ & -> & _). eauto.
  - intros Hc'. pose proof (handle_layout _ _ _ _ _ H) as Hl.
    assert (is_Some (camera w)) as Hc.
    { unfold layout in Hl. destruct Hc' as [c' Hc']. rewrite Hc' in Hl.
      destruct (camera w); [by eexists | by injection Hl]. }
    destruct (handle_maximum_time _ _ _ _ _ H) as [-> | Hok]; [by apply IH | done].
Qed.

(** X18. The timeline can always be unzoomed.  For any widget reached
    from the constructor that has the camera part, the maximum time is
    positive and fits an [int] in milliseconds, so on a replay stream
    [updateTimeRange] with [is_zoomed] false completes, whatever range is
    passed, and sets the slider's range to start at 0 and the end label to
    the maximum time. *)
Theorem unzoom_always_completes can w c a b :
  reachable w → camera w = Some c → liveStreaming can = false →
  Double.ltb Double.zero (maximum_time w) = true ∧
  ∃ w' c' hi,
    handle can w (TimeRangeUpdated a b false) = Ok (w', []) ∧
    camera w' = Some c' ∧
    Double.to_int (Double.mul (maximum_time w) factor) = Ok hi ∧
    minimum (qslider (slider c')) = 0 ∧
    maximum (qslider (slider c')) = Z.max 0 hi ∧
    end_time_label c' = formatSeconds (maximum_time w) ∧
    maximum_time w' = maximum_time w.
Proof.
  intros Hr Hc Hlive.
  destruct (reachable_maximum_time_ok w Hr (ex_intro _ c Hc)) as (Hlt & hi & Hhi).
  split; [done|].
  destruct (updateTimeRange_replay_completes can w c a b false 0 hi Hlive Hc Hlt
              eq_refl Hhi) as (w' & eff & H).
  assert (eff = []) as -> by (by eapply updateTimeRange_quiet).
  destruct (updateTimeRange_replay _ _ _ _ _ _ _ Hlive H)
    as (c0 & c' & lo & hi' & Hc0 & Hc' & _ & Hlo & Hhi' & Hq & He & Hm & _).
  simpl in Hlo, Hhi', He.
  change (Double.to_int (Double.mul Double.zero factor)) with (Ok (A:=Z) 0) in Hlo.
  injection Hlo as <-. rewrite Hhi in Hhi'. injection Hhi' as <-.
  pose proof (setRange_range (qslider (slider c0)) 0 hi) as (Hmin & Hmax & _).
  exists w', c', hi. simpl. rewrite Hq. split_and!; done.
Qed.

End StreamEvents.

(** ** The properties on the sample objects *)

Lemma zoom_unzoom_restores_range_witness :
  ∃ w3 e3 c c2 c3 hi,
    @VideoWidget_updateTimeRange sample_toolkit sample_can sample_widget
      Double.zero Double.zero false = Ok (w3, e3) ∧
    camera sample_widget = Some c ∧
    camera sample_unzoomed.1 = Some c2 ∧ camera w3 = Some c3 ∧
    minimum (qslider (slider c2)) = minimum (qslider (slider c3)) ∧
    maximum (qslider (slider c2)) = maximum (qslider (slider c3)) ∧
    end_time_label c2 = end_time_label c3 ∧
    end_time_label c2 = @formatSeconds sample_toolkit (maximum_time sample_widget) ∧
    stored (slider c2) = stored (slider c3) ∧
    maximum_time sample_zoomed.1 = maximum_time sample_widget ∧
    maximum_time sample_unzoomed.1 = maximum_time sample_widget ∧
    Double.to_int (Double.mul (maximum_time sample_widget) factor) = Ok hi ∧
    minimum (qslider (slider c2)) = 0 ∧
    maximum (qslider (slider c2)) = Z.max 0 hi ∧
    stored (slider c2) = stored (slider c) ∧
    thumbnail_label (slider c2) = thumbnail_label (slider c) ∧
    alert_label c2 = alert_label c.
Proof.
  assert (H1 : @VideoWidget_updateTimeRange sample_toolkit sample_can sample_widget
                 (Double.of_Z 10) (Double.of_Z 20) true
               = Ok (sample_zoomed.1, sample_zoomed.2)) by (vm_compute; reflexivity).
  assert (H2 : @VideoWidget_updateTimeRange sample_toolkit sample_can sample_zoomed.1
                 Double.zero Double.zero false
               = Ok (sample_unzoomed.1, sample_unzoomed.2)) by (vm_compute; reflexivity).
  exact (@zoom_unzoom_restores_range sample_toolkit sample_can sample_widget
           (Double.of_Z 10) (Double.of_Z 20) Double.zero Double.zero
           sample_zoomed.1 sample_zoomed.2 sample_unzoomed.1 sample_unzoomed.2
           eq_refl H1 H2).
Defined.

Lemma updateState_moves_slider_witness :
  ∃ c', camera sample_updated.1 = Some c' ∧ sample_updated.2 = [] ∧
    end_time_label c' = end_time_label sample_camera ∧
    stored (slider c') = stored (slider sample_camera).
Proof.
  assert (H : @VideoWidget_updateState sample_toolkit sample_can sample_widget
              = Ok (sample_updated.1, sample_updated.2)) by (vm_compute; reflexivity).
  destruct (@updateState_moves_slider sample_toolkit sample_can sample_widget
              sample_camera sample_updated.1 sample_updated.2 eq_refl H)
    as (c' & Hc & He & Hl & Hs & _).
  exists c'. split; [exact Hc|]. split; [exact He|]. split; [exact Hl | exact Hs].
Defined.

Lemma skip_to_end_resumes_at_speed_one_witness :
  ∃ w',
    @handle sample_toolkit live_can live_widget SkipToEndClicked
    = Ok (w', [Call (setSpeed (Float.of_double Double.one)); Call (pause false);
               Call (seekTo (Double.add (totalSeconds live_can) Double.one))]) ∧
    map (fun b => btn_checked b.1) (speed_btns w') = [false; false; true; false] ∧
    camera w' = camera live_widget ∧ skip_to_end_btn w' = skip_to_end_btn live_widget ∧
    play_btn w' = play_btn live_widget.
Proof.
  exact (proj1 (@skip_to_end_resumes_at_speed_one sample_toolkit live_can live_widget _
                  (reachable_new live_can live_widget live_widget_new) eq_refl) eq_refl).
Defined.

Lemma reachable_layout_witness :
  (is_Some (camera sample_widget) ↔ skip_to_end_btn sample_widget = None) ∧
  (is_Some (camera sample_updated.1) ↔ is_Some (camera sample_widget)) ∧
  (is_Some (skip_to_end_btn sample_updated.1) ↔ is_Some (skip_to_end_btn sample_widget)).
Proof.
  assert (H : @handle sample_toolkit sample_can sample_widget StreamUpdated
              = Ok (sample_updated.1, sample_updated.2)) by (vm_compute; reflexivity).
  exact (@reachable_layout sample_toolkit sample_can sample_widget StreamUpdated
           sample_updated.1 sample_updated.2 sample_widget_reachable H).
Defined.

Lemma VideoWidget_new_completes_witness :
  ∃ w, @VideoWidget_new sample_toolkit sample_can = Ok w.
Proof.
  apply (proj2 (proj1 (proj2 (@VideoWidget_new_completes sample_toolkit sample_can)
                         eq_refl))).
  split; [vm_compute; reflexivity|]. exists 60000. vm_compute. reflexivity.
Defined.

Lemma labels_paint_witness :
  InfoLabel_paintEvent
    (InfoLabel_showPixmap InfoLabel_new {| px := 43; py := 206 |} "5" sample_pixmap
       (alert_of sample_cs))
  = [DrawPixmap sample_pixmap; DrawFrame; DrawSecond "5"]
    ++ (if QString_isEmpty (text1 (alert_of sample_cs)) then []
        else [FillTextBackground (alert_color (alert_of sample_cs));
              DrawAlertText (alert_text (alert_of sample_cs)) true]).
Proof.
  apply (proj1 (proj2 (labels_paint InfoLabel_new (alert_of sample_cs)
                         {| px := 43; py := 206 |} "5" sample_pixmap))).
  reflexivity.
Defined.

Lemma reachable_overlay_witness :
  (label_visible (alert_label sample_camera) = true
   ↔ text1 (alert_info (alert_label sample_camera)) ≠ "") ∧
  (label_visible (alert_label sample_camera) = true
   ↔ InfoLabel_paintEvent (alert_label sample_camera) ≠ []) ∧
  InfoLabel_paintEvent (alert_label sample_camera)
  = (if label_visible (alert_label sample_camera)
     then [FillTextBackground (alert_color (alert_info (alert_label sample_camera)));
           DrawAlertText (alert_text (alert_info (alert_label sample_camera))) false]
     else []).
Proof.
  exact (@reachable_overlay sample_toolkit sample_widget sample_camera
           sample_widget_reachable eq_refl).
Defined.

Lemma reachable_preview_witness :
  ∃ w' c' eff,
    @handle sample_toolkit sample_can sample_widget (SliderEvent Leave) = Ok (w', eff) ∧
    camera w' = Some c' ∧ label_visible (thumbnail_label (slider c')) = false.
Proof.
  apply (proj2 (@reachable_preview sample_toolkit sample_can sample_widget sample_camera
                  Leave sample_widget_reachable eq_refl)).
  discriminate.
Defined.

Lemma parseQLog_any_schedule_witness :
  let r := @Slider_parseQLog sample_toolkit sample_can Slider_new 1 sample_qlog
             (events sample_qlog) in
  let r' := @Slider_parseQLog sample_toolkit sample_can Slider_new 1 sample_qlog
              sample_schedule in
  stored r.1 = stored r'.1 ∧ qslider r.1 = qslider r'.1 ∧
  thumbnail_label r.1 = thumbnail_label r'.1 ∧ r.2 = r'.2.
Proof.
  apply (@parseQLog_any_schedule sample_toolkit sample_can Slider_new 1 sample_qlog
           (events sample_qlog) sample_schedule).
  - apply perm_swap.
  - apply (bool_decide_unpack _). vm_compute. exact I.
  - apply (bool_decide_unpack _). vm_compute. exact I.
Defined.

Lemma stored_only_grows_witness :
  ∃ c', camera sample_loaded.1 = Some c' ∧
    alerts (slider sample_camera) ⊆ alerts (slider c') ∧
    dom (thumbnails (slider sample_camera)) ⊆ dom (thumbnails (slider c')).
Proof.
  assert (H : @handle sample_toolkit sample_can sample_widget
                (QLogLoaded 1 sample_qlog sample_schedule)
              = Ok (sample_loaded.1, sample_loaded.2)) by (vm_compute; reflexivity).
  exact (@stored_only_grows sample_toolkit sample_can sample_widget
           (QLogLoaded 1 sample_qlog sample_schedule) sample_loaded.1 sample_loaded.2
           sample_camera H eq_refl).
Defined.

Lemma last_qlog_extends_timeline_witness :
  ∃ w1,
    @handle sample_toolkit sample_can sample_widget
      (QLogLoaded 1 sample_qlog sample_schedule)
    = Ok (w1, [QueuedSetMaximumTime
                 (Double.sub (Double.div (Double.of_Z 1006000000123) Double.lit_1e9)
                             (Double.of_Z 1000))]) ∧
    maximum_time w1 = maximum_time sample_widget.
Proof.
  destruct (@last_qlog_extends_timeline sample_toolkit sample_can sample_widget
              sample_camera 1 sample_qlog sample_schedule eq_refl)
    as (w1 & c1 & H & _ & Hm & _).
  exists w1. split; [exact H | exact Hm].
Defined.

Lemma paintEvent_edges_witness :
  minimum (qslider narrow_zoom_slider) = 15000 ∧
  maximum (qslider narrow_zoom_slider) = 15000 ∧
  Slider_paintEvent sample_can narrow_zoom_slider = Undefined.
Proof.
  split; [vm_compute; reflexivity|]. split; [vm_compute; reflexivity|].
  apply (proj2 (paintEvent_edges sample_can narrow_zoom_slider)).
  - vm_compute. reflexivity.
  - apply Exists_cons_hd. vm_compute. reflexivity.
Defined.

Lemma mousePressEvent_defined_witness :
  @Slider_mousePressEvent sample_toolkit hour_slider far_press = Undefined.
Proof.
  apply (proj1 (@mousePressEvent_defined sample_toolkit hour_slider far_press
                  (qslider hour_slider) [] eq_refl eq_refl eq_refl)).
  vm_compute. reflexivity.
Defined.

Lemma mouseMoveEvent_undefined_witness :
  @Slider_mouseMoveEvent sample_toolkit sample_can thin_slider near_move = Undefined.
Proof.
  apply (proj2 (@mouseMoveEvent_undefined sample_toolkit sample_can thin_slider near_move)
           5 (Double.of_Z 3) sample_pixmap).
  - vm_compute. reflexivity.
  - vm_compute. reflexivity.
  - vm_compute. reflexivity.
  - reflexivity.
  - vm_compute. reflexivity.
Defined.

Lemma stream_events_are_silent_witness : sample_zoomed.2 = [].
Proof.
  apply (@stream_events_are_silent sample_toolkit sample_can sample_widget
           (TimeRangeUpdated (Double.of_Z 10) (Double.of_Z 20) true)
           sample_zoomed.1 sample_zoomed.2).
  - reflexivity.
  - vm_compute. reflexivity.
Defined.

Lemma unzoom_always_completes_witness :
  Double.ltb Double.zero (maximum_time sample_widget) = true ∧
  ∃ w' c' hi,
    @handle sample_toolkit sample_can sample_widget
      (TimeRangeUpdated (Double.of_Z 10) (Double.of_Z 20) false) = Ok (w', []) ∧
    camera w' = Some c' ∧
    Double.to_int (Double.mul (maximum_time sample_widget) factor) = Ok hi ∧
    minimum (qslider (slider c')) = 0 ∧
    maximum (qslider (slider c')) = Z.max 0 hi ∧
    end_time_label c' = @formatSeconds sample_toolkit (maximum_time sample_widget) ∧
    maximum_time w' = maximum_time sample_widget.
Proof.
  exact (@unzoom_always_completes sample_toolkit sample_can sample_widget sample_camera
           (Double.of_Z 10) (Double.of_Z 20) sample_widget_reachable eq_refl eq_refl).
Defined.
